(** * RepoPatch: multi-source file resolution and patch preview

    A shallow embedding of the browser client of RepoPatch
    (public/js/uploader.js, fileContent.js, db.js, patcher.js, main.js and
    state.js) together with the properties of its tree builder, content
    resolver, patch analyzer, apply orchestrator and source registry.

    Conventions of the embedding.
    - A JavaScript string is a [string]; the characters that matter to the
      code ('/', '\', the diff markers, HTML specials, white space) are
      all below 256.
    - [null] and [undefined] are [None]; a field that the code tests for
      truthiness is an [option] and the test is written out ([JS.truthy]).
    - A JavaScript [Map] that is only read with [get]/[has] is a
      [gmap string _]; a JavaScript [Set] whose iteration order is used
      (Array.from, forEach) is the duplicate-free list of its elements in
      insertion order ([JsSet]); a plain object used as a directory is an
      association list in insertion order ([Uploader.tree]).
    - An [await] that can reject and a call that can throw return a
      [completion]; the collaborators outside the repository (the HTTP
      services, IndexedDB, the jsdiff parser) are parameters.
    - The DOM is the record [dom] of the elements the code writes;
      console output is a list of [console] entries.
    - A plain object is looked up by its own properties only: a path
      segment or an absolute path that names a member of Object.prototype
      ('constructor', 'toString', '__proto__', ...) is outside the
      embedding.
    - The JSON answers of the services have the fields of their wire
      format, each optional field possibly missing; a field of another
      type than the wire format gives it is outside the embedding. *)

From Stdlib Require Import Ascii NArith Bool.
From stdpp Require Import base list strings gmap pretty.

Local Set Warnings "-register-all".

(** ** JavaScript string primitives *)

Module JS.

(** [Boolean(s)] for a string: the empty string is falsy. *)
Definition truthy (s : string) : bool :=
  match s with EmptyString => false | String _ _ => true end.

(** [Boolean(x)] for a string-valued field that may be missing. *)
Definition truthy_opt (o : option string) : bool :=
  match o with Some s => truthy s | None => false end.

(** [s.startsWith(p)] *)
Definition startsWith (s p : string) : bool := String.prefix p s.

(** [s.includes(needle)] *)
Fixpoint includes (s needle : string) : bool :=
  String.prefix needle s ||
  match s with
  | EmptyString => false
  | String _ s' => includes s' needle
  end.

(** [s.substring(n)] *)
Fixpoint substring_from (n : nat) (s : string) : string :=
  match n, s with
  | O, _ => s
  | S _, EmptyString => EmptyString
  | S n', String _ s' => substring_from n' s'
  end.

(** [s.substring(0, n)] *)
Fixpoint substring_to (n : nat) (s : string) : string :=
  match n, s with
  | O, _ => EmptyString
  | S _, EmptyString => EmptyString
  | S n', String c s' => String c (substring_to n' s')
  end.

(** White space as [String.prototype.trim] sees it, below code 256:
    TAB, LF, VT, FF, CR, SPACE and NBSP. *)
Definition is_space (c : ascii) : bool :=
  let n := nat_of_ascii c in
  (Nat.leb 9 n && Nat.leb n 13) || Nat.eqb n 32 || Nat.eqb n 160.

Fixpoint trimStart (s : string) : string :=
  match s with
  | EmptyString => EmptyString
  | String c s' => if is_space c then trimStart s' else s
  end.

Definition rev_string (s : string) : string :=
  String.string_of_list_ascii (rev (String.list_ascii_of_string s)).

(** [s.trim()] *)
Definition trim (s : string) : string :=
  rev_string (trimStart (rev_string (trimStart s))).

(** [s.split(sep)] for a separator given as a set of characters (the
    string '/' in uploader.js, the class [\\/] in fileContent.js). The
    accumulator [cur] is the segment being read. *)
Fixpoint split_go (sep : ascii -> bool) (cur : string) (s : string) : list string :=
  match s with
  | EmptyString => [cur]
  | String c s' =>
      if sep c then cur :: split_go sep EmptyString s'
      else split_go sep (cur +:+ String c EmptyString) s'
  end.

Definition split (sep : ascii -> bool) (s : string) : list string :=
  split_go sep EmptyString s.

(** [parts.filter(Boolean)] *)
Definition filter_Boolean (l : list string) : list string :=
  List.filter truthy l.

(** [parts.join(sep)] *)
Fixpoint join (sep : string) (l : list string) : string :=
  match l with
  | [] => EmptyString
  | [x] => x
  | x :: r => x +:+ sep +:+ join sep r
  end.

Definition is_slash (c : ascii) : bool := Ascii.eqb c "/"%char.
Definition is_slash_or_backslash (c : ascii) : bool :=
  Ascii.eqb c "/"%char || Ascii.eqb c "\"%char.

(** [s.replace(/\/+/g, '/')]: every run of slashes becomes one slash. *)
Fixpoint collapse_slashes (s : string) : string :=
  match s with
  | EmptyString => EmptyString
  | String c s' =>
      if is_slash c
      then match s' with
           | String c' _ => if is_slash c' then collapse_slashes s'
                            else String c (collapse_slashes s')
           | EmptyString => String c EmptyString
           end
      else String c (collapse_slashes s')
  end.

(** [s.replace(pat, by)] for a string pattern: the first occurrence. *)
Fixpoint replace_first (pat by_ s : string) : string :=
  if String.prefix pat s
  then by_ +:+ substring_from (String.length pat) s
  else match s with
       | EmptyString => EmptyString
       | String c s' => String c (replace_first pat by_ s')
       end.

(** A field that holds a string, [null] or nothing. *)
Inductive value : Type :=
| undefined
| null
| str (s : string).

Definition of_option (o : option string) : value :=
  match o with Some s => str s | None => undefined end.

(** [Boolean(v)] *)
Definition truthy_value (v : value) : bool :=
  match v with str s => truthy s | _ => false end.

(** [s.charAt(0)] as an option: [None] for the empty string, where
    JavaScript gives the empty string. *)
Definition charAt0 (s : string) : option ascii :=
  match s with EmptyString => None | String c _ => Some c end.

End JS.

(** A call that may throw, an [await] that may reject. The payload of
    [Throw] is the [message] of the error. *)
Inductive completion (A : Type) : Type :=
| Throw (message : string)
| Normal (value : A).
Arguments Throw {A} message.
Arguments Normal {A} value.

(** Console output. *)
Inductive console : Type :=
| Warn (msg : string)
| Error (msg : string).

(** ** JavaScript [Set] of strings, in insertion order *)

Module JsSet.

Definition t := list string.

Definition empty : t := [].

Definition has (x : string) (s : t) : bool :=
  existsb (String.eqb x) s.

(** [s.add(x)]: appended unless already present. *)
Definition add (x : string) (s : t) : t :=
  if has x s then s else s ++ [x].

Definition size (s : t) : nat := length s.

End JsSet.

(** ** uploader.js: the tree builder *)

Module Uploader.

(** A node of the tree: [{type: "file", path}] or
    [{type: "folder", path, children}]. A directory object is the list of
    its own properties in insertion order (the builder never reads the
    order; names that look like array indices, which JavaScript enumerates
    first, are kept in insertion order as well). A folder node always has
    its [children], so [children || {}] is [children]. *)
Inductive node : Type :=
| File (path : string)
| Folder (path : string) (children : list (string * node)).

Definition tree := list (string * node).

(** The names every plain object inherits from [Object.prototype]. For
    one of them [current[part]] is never [undefined], also when the object
    has no property of that name, and an assignment to ['__proto__'] sets
    the prototype instead of a property. *)
Definition inheritedName (part : string) : bool :=
  existsb (String.eqb part)
    ["constructor"; "hasOwnProperty"; "isPrototypeOf";
     "propertyIsEnumerable"; "toLocaleString"; "toString"; "valueOf";
     "__proto__"; "__defineGetter__"; "__defineSetter__";
     "__lookupGetter__"; "__lookupSetter__"].

(** [current[part]] for an object with the prototype of [{}], by its own
    properties. This is what the code reads for every [part] that is no
    [inheritedName], and for an [inheritedName] that the object has as a
    property of its own; what the code reads for an [inheritedName] that
    the object has not is outside the embedding (see [plainPath]). *)
Fixpoint get (k : string) (t : tree) : option node :=
  match t with
  | [] => None
  | (k', n) :: r => if String.eqb k k' then Some n else get k r
  end.

(** [current[part] = n]: an existing property keeps its place, a new one
    is added last. *)
Fixpoint set (k : string) (n : node) (t : tree) : tree :=
  match t with
  | [] => [(k, n)]
  | (k', n') :: r =>
      if String.eqb k k' then (k, n) :: r else (k', n') :: set k n r
  end.

(** The loop of [addToTree], from index [length walked] on: [current] is the
    object the loop is at, [walked] the segments already walked, [parts] the
    segments left. The result is the new value of [current] and the
    console output; the assignment through the alias
    [current = current[part].children] is the [set] on the way back. *)
Fixpoint addParts (current : tree) (filePath : string) (isDir : bool)
    (walked : list string) (parts : list string) : tree * list console :=
  match parts with
  | [] => (current, [])
  | part :: rest =>
      let currentPath := JS.join "/" (walked ++ [part]) in
      match rest with
      | [] =>
          if negb isDir then
            match get part current with
            | None => (set part (File filePath) current, [])
            | Some (File _) => (set part (File filePath) current, [])
            | Some (Folder _ _) =>
                (current,
                 [Warn ("File path conflicts with existing folder structure: "
                        +:+ filePath)])
            end
          else
            match get part current with
            | None => (set part (Folder filePath []) current, [])
            | Some _ => (current, [])
            end
      | _ :: _ =>
          match get part current with
          | None =>
              let '(ch, out) :=
                addParts [] filePath isDir (walked ++ [part]) rest in
              (set part (Folder currentPath ch) current, out)
          | Some (Folder p children) =>
              let '(ch, out) :=
                addParts children filePath isDir (walked ++ [part]) rest in
              (set part (Folder p ch) current, out)
          | Some (File _) =>
              (current,
               [Error ("Path conflict: trying to create directory part '"
                       +:+ part +:+ "' but a file exists at '"
                       +:+ currentPath +:+ "'. Skipping subtree.")])
          end
      end
  end.

(** [filePath.split('/').filter(Boolean)] *)
Definition pathParts (filePath : string) : list string :=
  JS.filter_Boolean (JS.split JS.is_slash filePath).

(** No segment of the path is an [inheritedName]: on such a path, in a tree
    built from such paths, [get] is [current[part]] at every step. *)
Definition plainPath (filePath : string) : bool :=
  forallb (fun part => negb (inheritedName part)) (pathParts filePath).

Definition addToTree (t : tree) (filePath : string) (isDir : bool)
    : tree * list console :=
  addParts t filePath isDir [] (pathParts filePath).

(** The node a sequence of segments leads to, walking through folders. *)
Fixpoint nodeAt (t : tree) (parts : list string) : option node :=
  match parts with
  | [] => None
  | part :: rest =>
      match rest with
      | [] => get part t
      | _ :: _ =>
          match get part t with
          | Some (Folder _ children) => nodeAt children rest
          | _ => None
          end
      end
  end.

(** The error logged when the segments [walked] lead to a file and more
    segments follow. *)
Definition pathConflict (walked : list string) : string :=
  "Path conflict: trying to create directory part '"
  +:+ List.last walked EmptyString +:+ "' but a file exists at '"
  +:+ JS.join "/" walked +:+ "'. Skipping subtree.".

(** No object holds two properties of the same name, at any depth. *)
Fixpoint nodupb (l : list string) : bool :=
  match l with
  | [] => true
  | x :: r => negb (existsb (String.eqb x) r) && nodupb r
  end.

Fixpoint uniqueNames_node (n : node) : bool :=
  match n with
  | File _ => true
  | Folder _ children =>
      nodupb (map fst children)
      && forallb (fun kn => uniqueNames_node (snd kn)) children
  end.

Definition uniqueNames (t : tree) : bool :=
  nodupb (map fst t) && forallb (fun kn => uniqueNames_node (snd kn)) t.

(** Bulk insertion of files, as [buildTreeFromZip] and
    [buildTreeFromFolder] do it, starting from the empty object. *)
Definition buildTree (filePaths : list string) : tree :=
  fold_left (fun t p => fst (addToTree t p false)) filePaths [].

End Uploader.

(** ** state.js: the registry and the failure set *)

Module State.

(** A project source: [{ id, type, path, name, tree, error }]. [type]
    is 'path' for a server directory and 'uploaded' for an archive or
    folder held in IndexedDB. *)
Record directory : Type := {
  dir_id : N;
  dir_type : string;
  dir_path : option string;
  dir_name : option string;
  dir_tree : option Uploader.tree;
  dir_error : option string
}.

Record state : Type := {
  directories : list directory;
  selectedDirectoryId : option N;
  baseEndpoint : string;
  failedFiles : JsSet.t;
  patchContent : string
}.

Definition set_failedFiles (f : JsSet.t) (st : state) : state :=
  {| directories := directories st;
     selectedDirectoryId := selectedDirectoryId st;
     baseEndpoint := baseEndpoint st;
     failedFiles := f;
     patchContent := patchContent st |}.

Definition set_selectedDirectoryId (sel : option N) (st : state) : state :=
  {| directories := directories st;
     selectedDirectoryId := sel;
     baseEndpoint := baseEndpoint st;
     failedFiles := failedFiles st;
     patchContent := patchContent st |}.

Definition set_directories (ds : list directory) (st : state) : state :=
  {| directories := ds;
     selectedDirectoryId := selectedDirectoryId st;
     baseEndpoint := baseEndpoint st;
     failedFiles := failedFiles st;
     patchContent := patchContent st |}.

(** [state.directories.find(d => d.id === dirId)] *)
Definition findDirectory (dirId : N) (st : state) : option directory :=
  List.find (fun d => N.eqb (dir_id d) dirId) (directories st).

End State.

(** ** connection.js: the transport *)

Module Connection.

(** What the client sends: nothing (GET), [{ paths }] or
    [{ directoryPath, patchContent }]. *)
Inductive body : Type :=
| NoBody
| PathsBody (paths : list string)
| ApplyBody (directoryPath patchContent : string).

Record request : Type := { req_url : string; req_body : body }.

(** The per-file result of the batch file-content service,
    [{ success, content?, error? }]. *)
Record fileResult : Type := {
  fr_success : bool;
  fr_content : option string;
  fr_error : option string
}.

(** The fields the client reads from a JSON answer, of either service:
    [{ success, files?, error?, appliedFiles?, details? }]. *)
Record responseData : Type := {
  rd_success : bool;
  rd_files : option (gmap string fileResult);
  rd_error : option string;
  rd_appliedFiles : option (list string);
  rd_details : option (list string)
}.

(** A [Response]: [ok], [status], and what [text()] and [json()] settle
    to. *)
Record response : Type := {
  ok : bool;
  status : N;
  text : completion string;
  json : completion responseData
}.

Section Transport.

(** The browser's [fetch]. *)
Variable fetch : request -> completion response.

(** [tryFetchWithFallback(url, options)]: the response together with
    the [fetch] calls made, in order. A URL that starts with '/' is
    fetched once; any other URL is retried with 'https://' replaced by
    'http://' when the first attempt throws or is not [ok]. *)
Definition tryFetchWithFallback (url : string) (b : body)
    : completion response * list request :=
  let first := {| req_url := url; req_body := b |} in
  if JS.startsWith url "/" then (fetch first, [first])
  else
    let second :=
      {| req_url := JS.replace_first "https://" "http://" url;
         req_body := b |} in
    match fetch first with
    | Normal r =>
        if ok r then (Normal r, [first])
        else (fetch second, [first; second])
    | Throw _ => (fetch second, [first; second])
    end.

End Transport.

End Connection.

(** ** db.js: the uploaded files in IndexedDB *)

Module Db.

(** The object store 'uploadedFiles' as the client sees it: opening the
    database may fail; a read may fail (transaction error or abort);
    otherwise the store maps a key to the [content] of its record. *)
Record uploadedFilesDB : Type := {
  openError : option string;
  readErrors : gmap string string;
  records : gmap string string
}.

(** The key [`${dirId}:${filePath}`]. *)
Definition key (dirId : N) (filePath : string) : string :=
  pretty dirId +:+ ":" +:+ filePath.

(** [getUploadedFile(dirId, filePath)]: the content, [null] when there is
    no record, or a rejection. *)
Definition getUploadedFile (db : uploadedFilesDB) (dirId : N)
    (filePath : string) : completion (option string) :=
  match openError db with
  | Some e => Throw e
  | None =>
      match readErrors db !! key dirId filePath with
      | Some e => Throw e
      | None => Normal (records db !! key dirId filePath)
      end
  end.

End Db.

(** ** fileContent.js: the content resolver *)

Module FileContent.
Import State Connection Db.

(** An entry of the result: [{ content, error }]. *)
Record fileData : Type := {
  content : JS.value;
  error : JS.value
}.

(** [PathUtils.join(...args)] for a call with at least one argument, as
    every call in fileContent.js is. A call without arguments throws, on
    [args[0].startsWith]; the value given for the empty list stands for no
    call of the code. *)
Definition PathUtils_join (args : list string) : string :=
  let parts :=
    JS.filter_Boolean
      (flat_map (JS.split JS.is_slash_or_backslash) args) in
  let result := match parts with [] => EmptyString | p0 :: _ => p0 end in
  let result :=
    if JS.startsWith (List.hd EmptyString args) "/"
    then "/" +:+ result else result in
  let result :=
    fold_left (fun r p => r +:+ "/" +:+ p) (List.tl parts) result in
  JS.collapse_slashes result.

(** The accumulator of the loops: the [results] map and
    [state.failedFiles]. *)
Definition acc : Type := gmap string fileData * JsSet.t.

(** [filePaths.forEach(p => results.set(p, { content: null, error }))],
    with [state.failedFiles.add(p)] when [fail] is set. *)
Definition setAll (errorMsg : string) (fail : bool)
    (filePaths : list string) (a : acc) : acc :=
  fold_left
    (fun '(results, failed) p =>
       (<[p := {| content := JS.null; error := JS.str errorMsg |}]> results,
        if fail then JsSet.add p failed else failed))
    filePaths a.

(** The body of the callback of the 'uploaded' branch, for one path. The
    callbacks of [Promise.all] are run here in the order of [filePaths];
    an entry depends on its own path only. *)
Definition fetchUploaded (db : uploadedFilesDB) (dirId : N)
    (a : acc) (filePath : string) : acc :=
  let '(results, failed) := a in
  match getUploadedFile db dirId filePath with
  | Normal (Some c) =>
      (<[filePath := {| content := JS.str c; error := JS.null |}]> results,
       failed)
  | Normal None =>
      (<[filePath :=
           {| content := JS.null;
              error := JS.str
                "File not found in uploaded data (may be deleted by patch)" |}]>
         results,
       failed)
  | Throw msg =>
      (<[filePath :=
           {| content := JS.null;
              error := JS.str ("DB error: " +:+ msg) |}]> results,
       JsSet.add filePath failed)
  end.

(** The first loop over a successful batch answer: the per-file result of
    [absPath] is stored under [relPath = filePaths[index]]. *)
Definition mapBack (fs : gmap string fileResult) (a : acc)
    (pr : string * string) : acc :=
  let '(results, failed) := a in
  let '(absPath, relPath) := pr in
  match fs !! absPath with
  | Some result =>
      if fr_success result then
        (<[relPath := {| content := JS.of_option (fr_content result);
                         error := JS.null |}]> results,
         failed)
      else
        (<[relPath := {| content := JS.null;
                         error := JS.of_option (fr_error result) |}]> results,
         match fr_error result with
         | Some errorMsg =>
             if JS.truthy errorMsg && negb (JS.includes errorMsg "not found")
             then JsSet.add relPath failed else failed
         | None => failed
         end)
  | None =>
      (<[relPath :=
           {| content := JS.null;
              error := JS.str
                "File not found by server (may be deleted by patch)" |}]>
         results,
       failed)
  end.

(** The second loop: paths requested but not in [results]. *)
Definition noResponse (a : acc) (relPath : string) : acc :=
  let '(results, failed) := a in
  match results !! relPath with
  | Some _ => a
  | None =>
      (<[relPath :=
           {| content := JS.null;
              error := JS.str "No response from server for this file." |}]>
         results,
       JsSet.add relPath failed)
  end.

Section Resolver.

Variable fetch : request -> completion response.
Variable db : uploadedFilesDB.

(** The 'path' branch once the absolute paths are there and there is at
    least one: the [try] block and its [catch]. *)
Definition fetchBatch (st : state) (filePaths absolutePathsToFetch : list string)
    : acc * list request :=
  let a0 : acc := (∅, failedFiles st) in
  let url := baseEndpoint st +:+ "/api/files" in
  let '(r, sent) :=
    tryFetchWithFallback fetch url (PathsBody absolutePathsToFetch) in
  let catch (msg : string) :=
    setAll ("Network error: " +:+ msg) true filePaths a0 in
  match r with
  | Throw msg => (catch msg, sent)
  | Normal resp =>
      if negb (ok resp) then
        let errorText :=
          match text resp with
          | Normal t => t
          | Throw _ => "HTTP " +:+ pretty (status resp)
          end in
        (catch ("Server error: " +:+ pretty (status resp) +:+ " - "
                +:+ JS.substring_to 100 errorText), sent)
      else
        match json resp with
        | Throw msg => (catch msg, sent)
        | Normal data =>
            match rd_success data, rd_files data with
            | true, Some fs =>
                let a1 :=
                  fold_left (mapBack fs)
                    (List.combine absolutePathsToFetch filePaths) a0 in
                (fold_left noResponse filePaths a1, sent)
            | _, _ =>
                let errorMsg :=
                  match rd_error data with
                  | Some e =>
                      if JS.truthy e then e
                      else "Batch fetch failed with unknown server error"
                  | None => "Batch fetch failed with unknown server error"
                  end in
                (setAll errorMsg true filePaths a0, sent)
            end
        end
  end.

(** [fetchPatchRequiredFiles(dirId, filePaths)]: the map (or the error
    thrown), the state afterwards and the [fetch] calls made.
    [PathUtils.join(dir.path, p)] is evaluated outside the [try] block;
    with [dir.path] undefined its [part.split] throws a TypeError as
    soon as there is a path to join. *)
Definition fetchPatchRequiredFiles (dirId : N) (filePaths : list string)
    (st : state)
    : completion (gmap string fileData) * state * list request :=
  let st := set_failedFiles JsSet.empty st in
  let a0 : acc := (∅, failedFiles st) in
  let finish (a : acc) (sent : list request) :=
    (Normal (fst a), set_failedFiles (snd a) st, sent) in
  match findDirectory dirId st with
  | None => finish (setAll "Target directory not found" false filePaths a0) []
  | Some dir =>
      if String.eqb (dir_type dir) "uploaded" then
        finish (fold_left (fetchUploaded db (dir_id dir)) filePaths a0) []
      else if String.eqb (dir_type dir) "path" then
        match dir_path dir, filePaths with
        | None, _ :: _ =>
            (Throw "Cannot read properties of undefined (reading 'split')",
             st, [])
        | None, [] => finish a0 []
        | Some root, _ =>
            let absolutePathsToFetch :=
              map (fun p => PathUtils_join [root; p]) filePaths in
            match absolutePathsToFetch with
            | [] => finish a0 []
            | _ :: _ =>
                let '(a, sent) :=
                  fetchBatch st filePaths absolutePathsToFetch in
                finish a sent
            end
        end
      else
        finish
          (setAll ("Unsupported directory type: " +:+ dir_type dir) true
             filePaths a0) []
  end.

End Resolver.

(** *** The loops, path by path

    The loops of the resolver all have one shape: the entry stored for a
    path and whether the path is recorded as failed depend on the path
    alone. *)
Definition perPath (entry : string → fileData) (fails : string → bool)
    (a : acc) (p : string) : acc :=
  (<[p := entry p]> a.1, if fails p then JsSet.add p a.2 else a.2).

(** The entry and the failure flag of one path in the 'uploaded' branch. *)
Definition uploadedEntry (db : uploadedFilesDB) (dirId : N) (p : string) : fileData :=
  match getUploadedFile db dirId p with
  | Normal (Some c) => {| content := JS.str c; error := JS.null |}
  | Normal None =>
      {| content := JS.null;
         error := JS.str
           "File not found in uploaded data (may be deleted by patch)" |}
  | Throw msg =>
      {| content := JS.null; error := JS.str ("DB error: " +:+ msg) |}
  end.

Definition uploadedFails (db : uploadedFilesDB) (dirId : N) (p : string) : bool :=
  match getUploadedFile db dirId p with
  | Throw _ => true
  | Normal _ => false
  end.

(** The entry and the failure flag of one path after a successful batch
    answer [fs], the absolute path being [abs p]. *)
Definition batchEntry (fs : gmap string fileResult) (abs : string → string)
    (p : string) : fileData :=
  match fs !! abs p with
  | Some result =>
      if fr_success result
      then {| content := JS.of_option (fr_content result); error := JS.null |}
      else {| content := JS.null; error := JS.of_option (fr_error result) |}
  | None =>
      {| content := JS.null;
         error := JS.str "File not found by server (may be deleted by patch)" |}
  end.

Definition batchFails (fs : gmap string fileResult) (abs : string → string)
    (p : string) : bool :=
  match fs !! abs p with
  | Some result =>
      negb (fr_success result)
      && match fr_error result with
         | Some e => JS.truthy e && negb (JS.includes e "not found")
         | None => false
         end
  | None => false
  end.

End FileContent.

(** ** patcher.js: patch analysis, preview and apply *)

Module Patcher.
Import State Connection Db FileContent.

(** What jsdiff's [parsePatch] returns for one file, as far as the
    client reads it. [hunks] and [lines] are [None] when they are not
    arrays. *)
Record hunk : Type := {
  header : option string;
  lines : option (list string)
}.

Record patch : Type := {
  oldFileName : option string;
  newFileName : option string;
  hunks : option (list hunk)
}.

(** A status element: its text and its class. *)
Record statusElement : Type := {
  textContent : string;
  className : string
}.

(** The elements the patcher writes: #preview-status, #apply-status, the
    [innerHTML] of #patch-preview, the [disabled] flag of
    #apply-patch-btn and the list items of #failed-files (the container
    is hidden when there is none). *)
Record dom : Type := {
  previewStatusEl : statusElement;
  applyStatusEl : statusElement;
  patchPreviewEl : string;
  applyButtonDisabled : bool;
  failedFilesDiv : list string
}.

(** The state, the page, the [fetch] calls made so far and the [alert]
    boxes shown so far. *)
Record world : Type := {
  st : state;
  page : dom;
  calls : list request;
  alerts : list string
}.

Definition with_st (s : state) (w : world) : world :=
  {| st := s; page := page w; calls := calls w; alerts := alerts w |}.
Definition with_page (p : dom) (w : world) : world :=
  {| st := st w; page := p; calls := calls w; alerts := alerts w |}.
Definition sent (l : list request) (w : world) : world :=
  {| st := st w; page := page w; calls := calls w ++ l; alerts := alerts w |}.
Definition alert (msg : string) (w : world) : world :=
  {| st := st w; page := page w; calls := calls w; alerts := alerts w ++ [msg] |}.

(** [setStatus(element, message, isError)] *)
Definition setStatus (message : string) (isError : bool) : statusElement :=
  {| textContent := message;
     className :=
       if isError then "error"
       else if JS.includes message "success" then "success" else "" |}.

Definition setPreviewStatus (message : string) (isError : bool) (w : world) : world :=
  with_page
    {| previewStatusEl := setStatus message isError;
       applyStatusEl := applyStatusEl (page w);
       patchPreviewEl := patchPreviewEl (page w);
       applyButtonDisabled := applyButtonDisabled (page w);
       failedFilesDiv := failedFilesDiv (page w) |} w.

Definition setApplyStatus (message : string) (isError : bool) (w : world) : world :=
  with_page
    {| previewStatusEl := previewStatusEl (page w);
       applyStatusEl := setStatus message isError;
       patchPreviewEl := patchPreviewEl (page w);
       applyButtonDisabled := applyButtonDisabled (page w);
       failedFilesDiv := failedFilesDiv (page w) |} w.

Definition setPreviewHTML (html : string) (w : world) : world :=
  with_page
    {| previewStatusEl := previewStatusEl (page w);
       applyStatusEl := applyStatusEl (page w);
       patchPreviewEl := html;
       applyButtonDisabled := applyButtonDisabled (page w);
       failedFilesDiv := failedFilesDiv (page w) |} w.

Definition setApplyDisabled (b : bool) (w : world) : world :=
  with_page
    {| previewStatusEl := previewStatusEl (page w);
       applyStatusEl := applyStatusEl (page w);
       patchPreviewEl := patchPreviewEl (page w);
       applyButtonDisabled := b;
       failedFilesDiv := failedFilesDiv (page w) |} w.

(** [updateFailedFilesUI()] *)
Definition updateFailedFilesUI (w : world) : world :=
  with_page
    {| previewStatusEl := previewStatusEl (page w);
       applyStatusEl := applyStatusEl (page w);
       patchPreviewEl := patchPreviewEl (page w);
       applyButtonDisabled := applyButtonDisabled (page w);
       failedFilesDiv := failedFiles (st w) |} w.

(** [updateApplyButtonState(selectedDirType)] of patcher.js *)
Definition updateApplyButtonState (selectedDirType : option string) (w : world) : world :=
  let patchContentExists :=
    JS.truthy (patchContent (st w))
    && Nat.ltb 0 (String.length (JS.trim (patchContent (st w)))) in
  let isType (t : string) :=
    match selectedDirType with Some t' => String.eqb t' t | None => false end in
  let w := setApplyDisabled (negb (isType "path" && patchContentExists)) w in
  if isType "uploaded" && patchContentExists then
    setApplyStatus "Cannot apply patch to uploaded sources." true w
  else if isType "path" && negb patchContentExists then
    setApplyStatus "Paste patch content to enable apply." false w
  else if negb (isType "path") then
    setApplyStatus "" false w
  else w.

(** [clearPreview()] *)
Definition clearPreview (w : world) : world :=
  let w := setPreviewHTML "" w in
  let w := setPreviewStatus "" false w in
  let w := setApplyStatus "" false w in
  let w := with_st (set_failedFiles JsSet.empty (st w)) w in
  let w := updateFailedFilesUI w in
  setApplyDisabled true w.

(** The double quote and the line feed, for the templates below. *)
Definition dq : string := String "034"%char EmptyString.
Definition nl : string := String "010"%char EmptyString.

(** [escapeHtml(unsafe)]: the five replacements, none of which produces a
    character that a later one rewrites. *)
Fixpoint escapeHtml (unsafe : string) : string :=
  match unsafe with
  | EmptyString => EmptyString
  | String c s =>
      (if Ascii.eqb c "&"%char then "&amp;"
       else if Ascii.eqb c "<"%char then "&lt;"
       else if Ascii.eqb c ">"%char then "&gt;"
       else if Ascii.eqb c "034"%char then "&quot;"
       else if Ascii.eqb c "'"%char then "&#039;"
       else String c EmptyString) +:+ escapeHtml s
  end.

Definition tag (name cls body : string) : string :=
  "<" +:+ name +:+ " class=" +:+ dq +:+ cls +:+ dq +:+ ">" +:+ body
  +:+ "</" +:+ name +:+ ">".

Section Analyzer.

(** jsdiff's [Diff.parsePatch]. *)
Variable Diff_parsePatch : string -> completion (option (list patch)).

(** [parsePatch(patchContent)]: the records, or [null] with the status
    set. *)
Definition parsePatch (patchContent : string) (w : world)
    : option (list patch) * world :=
  match Diff_parsePatch patchContent with
  | Throw msg =>
      (None, setPreviewStatus ("Error parsing patch: " +:+ msg) true w)
  | Normal (Some (p0 :: rest)) =>
      if negb (JS.truthy_opt (oldFileName p0))
         || negb (JS.truthy_opt (newFileName p0))
         || negb (bool_decide (is_Some (hunks p0)))
      then (None,
            setPreviewStatus "Error: Parsed patch structure invalid." true w)
      else (Some (p0 :: rest), w)
  | Normal _ =>
      if JS.truthy (JS.trim patchContent)
      then (None, setPreviewStatus "Error: Invalid patch format." true w)
      else (None, setPreviewStatus "" false w)
  end.

End Analyzer.

(** [name.startsWith(pre) ? name.substring(2) : name] *)
Definition stripPrefix (pre name : string) : string :=
  if JS.startsWith name pre then JS.substring_from 2 name else name.

(** The callback of the loop over the records that collects the required
    paths: the old file name, unless it is missing or '/dev/null', is
    added without its 'a/'. *)
Definition requireOld (required : JsSet.t) (p : patch) : JsSet.t :=
  match oldFileName p with
  | Some o =>
      if JS.truthy o && negb (String.eqb o "/dev/null")
      then JsSet.add (stripPrefix "a/" o) required
      else required
  | None => required
  end.

(** The set [requiredFilesRelative] after the loop. *)
Definition requiredFilesRelative (parsedPatches : list patch) : JsSet.t :=
  fold_left requireOld parsedPatches JsSet.empty.

(** One line of a hunk. *)
Definition renderLine (line : string) : string :=
  let lineContent := escapeHtml (JS.substring_from 1 line) in
  match JS.charAt0 line with
  | Some "+"%char => tag "span" "diff-added" ("+ " +:+ lineContent) +:+ nl
  | Some "-"%char => tag "span" "diff-removed" ("- " +:+ lineContent) +:+ nl
  | Some " "%char => tag "span" "diff-context" ("  " +:+ lineContent) +:+ nl
  | _ => tag "span" "diff-context" (escapeHtml line) +:+ nl
  end.

(** One hunk, [hunkIndex] counted from 0. *)
Definition renderHunk (hunkIndex : nat) (h : hunk) : string :=
  let head :=
    match header h with
    | Some t => if JS.truthy t then t
                else "@@ Hunk " +:+ pretty (S hunkIndex) +:+ " @@"
    | None => "@@ Hunk " +:+ pretty (S hunkIndex) +:+ " @@"
    end in
  tag "span" "diff-header" head +:+ nl +:+
  match lines h with
  | None => tag "span" "diff-error" "  Error: Invalid hunk lines format." +:+ nl
  | Some ls => fold_left (fun html l => html +:+ renderLine l) ls ""
  end.

Fixpoint renderHunks (hunkIndex : nat) (hs : list hunk) : string :=
  match hs with
  | [] => ""
  | h :: r => renderHunk hunkIndex h +:+ renderHunks (S hunkIndex) r
  end.

(** [`${fileKey}`] *)
Definition show (o : option string) : string :=
  match o with Some s => s | None => "undefined" end.

(** The block of one record: its HTML and whether the file counts as one
    with errors. *)
Definition renderPatch (fetchedFiles : gmap string fileData) (p : patch)
    : string * bool :=
  let oldRelPath := stripPrefix "a/" <$> oldFileName p in
  let newRelPath := stripPrefix "b/" <$> newFileName p in
  let fileKey :=
    match oldRelPath with
    | Some o => if JS.truthy o && negb (String.eqb o "/dev/null")
                then oldRelPath else newRelPath
    | None => newRelPath
    end in
  let fileData := fileKey ≫= (fun k => fetchedFiles !! k) in
  let fetchError :=
    match fileData with
    | Some {| error := JS.str e |} =>
        if JS.truthy e && negb (JS.includes e "not found") then Some e else None
    | _ => None
    end in
  let missing :=
    match fileData with
    | None => true
    | Some {| content := JS.null |} => true
    | Some _ => false
    end in
  let isNull (o : option string) :=
    match o with Some n => String.eqb n "/dev/null" | None => false end in
  let note :=
    match fetchError with
    | Some e => " " +:+ tag "span" "diff-error" ("(Error: " +:+ e +:+ ")")
    | None =>
        if missing then
          if isNull (oldFileName p) || isNull (newFileName p) then
            " " +:+ tag "span" "diff-info"
              ("(" +:+ (if isNull (newFileName p) then "Deletion" else "New File")
               +:+ ")")
          else
            " " +:+ tag "span" "diff-warning"
              "(Original not found - assuming empty)"
        else ""
    end in
  let head :=
    "<div class=" +:+ dq +:+ "diff-file-header" +:+ dq +:+ ">"
    +:+ "<strong>File: " +:+ show fileKey +:+ "</strong>" +:+ note
    +:+ "</div>" +:+ nl in
  let body :=
    match hunks p with
    | Some (h :: r) => renderHunks 0 (h :: r) +:+ nl
    | _ => tag "div" "diff-info" "  (No content changes in patch)" +:+ nl
    end in
  (head +:+ body, bool_decide (is_Some fetchError)).

(** The loop over the records: [previewHTML] and the length of
    [filesWithErrors]. *)
Definition renderPatches (fetchedFiles : gmap string fileData)
    (parsedPatches : list patch) : string * nat :=
  fold_left
    (fun '(html, n) p =>
       let '(block, bad) := renderPatch fetchedFiles p in
       (html +:+ block, if bad then S n else n))
    parsedPatches ("", 0).

(** [state.selectedDirectoryId] is falsy: nothing is selected. *)
Definition noSelection (s : state) : bool :=
  match selectedDirectoryId s with
  | None | Some 0%N => true
  | Some _ => false
  end.

(** The source that a truthy [state.selectedDirectoryId] names. *)
Definition selectedSource (s : state) : option directory :=
  match selectedDirectoryId s with
  | None | Some 0%N => None
  | Some sel => findDirectory sel s
  end.

(** The records pass the check of [parsePatch]: there is a first record
    and it has both file names and an array of hunks. *)
Definition structureValid (patches : list patch) : bool :=
  match patches with
  | [] => false
  | p0 :: _ =>
      JS.truthy_opt (oldFileName p0) && JS.truthy_opt (newFileName p0)
      && bool_decide (is_Some (hunks p0))
  end.

Section Orchestrator.

Variable Diff_parsePatch : string -> completion (option (list patch)).
Variable fetch : request -> completion response.
Variable db : uploadedFilesDB.

(** [generatePatchPreview(patchContent)]. When
    [fetchPatchRequiredFiles] rejects, so does this function, at the
    [await]: the world stays as it is there. *)
Definition generatePatchPreview (patchContent : string) (w : world) : world :=
  let w := clearPreview w in
  if negb (JS.truthy (JS.trim patchContent)) then
    setPreviewStatus "Paste patch content to see preview." false w
  else
    match selectedDirectoryId (st w) with
    | None | Some 0%N =>
        setPreviewStatus "Select a project source first." true w
    | Some sel =>
        match findDirectory sel (st w) with
        | None => setPreviewStatus "Selected project source not found." true w
        | Some dir =>
            match dir_error dir with
            | Some (String c e) =>
                setPreviewStatus
                  ("Cannot preview: Source has error - " +:+ String c e) true w
            | _ =>
                let w := setPreviewStatus "Parsing patch..." false w in
                match parsePatch Diff_parsePatch patchContent w with
                | (None, w) => w
                | (Some parsedPatches, w) =>
                    let required := requiredFilesRelative parsedPatches in
                    match JsSet.size required with
                    | O =>
                        setPreviewStatus
                          "Patch seems empty or only affects /dev/null." true w
                    | S _ =>
                        let w :=
                          setPreviewStatus
                            ("Workspaceing " +:+ pretty (JsSet.size required)
                             +:+ " file(s)...") false w in
                        let '(r, st', reqs) :=
                          fetchPatchRequiredFiles fetch db sel required (st w) in
                        let w := sent reqs (with_st st' w) in
                        match r with
                        | Throw _ => w
                        | Normal fetchedFiles =>
                            let w := setPreviewStatus "Generating preview..." false w in
                            let '(previewHTML, filesWithErrors) :=
                              renderPatches fetchedFiles parsedPatches in
                            let w := setPreviewHTML previewHTML w in
                            let w :=
                              if Nat.ltb 0 filesWithErrors then
                                setPreviewStatus
                                  ("Preview generated with errors in "
                                   +:+ pretty filesWithErrors +:+ " file(s).")
                                  true w
                              else if Nat.ltb 0 (JsSet.size (failedFiles (st w))) then
                                setPreviewStatus
                                  "Preview generated. Some files failed to fetch."
                                  true w
                              else
                                setPreviewStatus
                                  "Preview generated successfully." false w in
                            let w := updateApplyButtonState (Some (dir_type dir)) w in
                            updateFailedFilesUI w
                        end
                    end
                end
            end
        end
    end.

(** The answer of the apply service, inside the [try] block. *)
Definition reportApply (resp : response) (data : responseData) (w : world) : world :=
  let appliedCount :=
    match rd_appliedFiles data with Some l => length l | None => 0 end in
  if ok resp && rd_success data then
    let w :=
      setApplyStatus
        ("Patch applied successfully to " +:+ pretty appliedCount
         +:+ " file(s).") false w in
    alert ("Patch applied successfully!" +:+ nl +:+ "Files affected:" +:+ nl
           +:+ JS.join nl (default [] (rd_appliedFiles data))) w
  else
    let errorMsg :=
      match rd_error data with
      | Some (String c e) => String c e
      | _ => "Server responded with status " +:+ pretty (status resp)
      end in
    let details :=
      match rd_details data with
      | Some d => nl +:+ "Details:" +:+ nl +:+ JS.join nl d
      | None => ""
      end in
    let finalError := "Error applying patch: " +:+ errorMsg in
    let finalError :=
      if Nat.ltb 0 appliedCount then
        finalError +:+ " (" +:+ pretty appliedCount
        +:+ " file(s) might have been partially applied)."
      else finalError in
    let w := setApplyStatus finalError true w in
    alert ("Patch application failed: " +:+ errorMsg +:+ details) w.

(** [applyPatch(patchContent)] *)
Definition applyPatch (patchContent : string) (w : world) : world :=
  match selectedDirectoryId (st w) with
  | None | Some 0%N =>
      setApplyStatus "Error: No project source selected." true w
  | Some sel =>
      match findDirectory sel (st w) with
      | None =>
          setApplyStatus "Error: Selected project source not found." true w
      | Some dir =>
          if String.eqb (dir_type dir) "uploaded" then
            alert
              "Applying patches directly to uploaded directories is not supported. Please use a server path source."
              (setApplyStatus
                 "Error: Cannot apply patch to uploaded directories." true w)
          else
            match dir_path dir with
            | Some (String c p) =>
                if negb (JS.truthy (JS.trim patchContent)) then
                  setApplyStatus "Error: Patch content is empty." true w
                else
                  let w := setApplyDisabled true w in
                  let w := setApplyStatus "Applying patch..." false w in
                  let url := baseEndpoint (st w) +:+ "/api/apply_patch" in
                  let '(r, reqs) :=
                    tryFetchWithFallback fetch url
                      (ApplyBody (String c p) patchContent) in
                  let w := sent reqs w in
                  let catch (msg : string) :=
                    alert ("Failed to send patch request: " +:+ msg)
                      (setApplyStatus ("Network/Request error: " +:+ msg) true w) in
                  let w :=
                    match r with
                    | Throw msg => catch msg
                    | Normal resp =>
                        match json resp with
                        | Throw msg => catch msg
                        | Normal data => reportApply resp data w
                        end
                    end in
                  updateApplyButtonState (Some (dir_type dir)) w
            | _ =>
                setApplyStatus "Error: Selected source has no valid path." true w
            end
      end
  end.

End Orchestrator.

End Patcher.

(** ** main.js: the source registry *)

Module Main.
Import State.

(** [state.directories.length > 0 ? state.directories[0].id : null] *)
Definition firstId (ds : list directory) : option N :=
  match ds with [] => None | d :: _ => Some (dir_id d) end.

(** [dir.id === state.selectedDirectoryId] *)
Definition isSelected (sel : option N) (d : directory) : bool :=
  match sel with Some s => N.eqb (dir_id d) s | None => false end.

(** What [renderDirectoriesList()] does to the state (the list items it
    builds are not part of the state). It calls itself after it has
    defaulted the selection; [fuel] bounds the depth of these calls. *)
Fixpoint renderDirectoriesList (fuel : nat) (st : state) : option state :=
  match fuel with
  | O => None
  | S fuel' =>
      match directories st with
      | [] => Some (set_selectedDirectoryId None st)
      | _ :: _ =>
          let validSelectionExists :=
            existsb (isSelected (selectedDirectoryId st)) (directories st) in
          if negb validSelectionExists then
            renderDirectoriesList fuel'
              (set_selectedDirectoryId (firstId (directories st)) st)
          else Some st
      end
  end.

(** The click handler of the Remove button of the source [dirId];
    [confirmed] is the answer to the [confirm] box. *)
Definition removeSource (fuel : nat) (dirId : N) (confirmed : bool)
    (st : state) : option state :=
  if confirmed then
    let st :=
      set_directories
        (List.filter (fun d => negb (N.eqb (dir_id d) dirId)) (directories st))
        st in
    let st :=
      match selectedDirectoryId st with
      | Some s =>
          if N.eqb s dirId
          then set_selectedDirectoryId (firstId (directories st)) st
          else st
      | None => st
      end in
    renderDirectoriesList fuel st
  else Some st.

(** The selection refers to a source of the list, or the list is empty
    and nothing is selected. *)
Definition selectionValid (st : state) : bool :=
  match directories st with
  | [] => bool_decide (selectedDirectoryId st = None)
  | _ :: _ => existsb (isSelected (selectedDirectoryId st)) (directories st)
  end.

End Main.

(** ** Sample data *)

Module Samples.
Import Uploader State Connection Db FileContent.

(** A tree with a file, a folder and a file below it. *)
Definition sampleTree : tree :=
  [("src",
    Folder "src"
      [("a.js", File "src/a.js");
       ("b", Folder "src/b" [("c.js", File "src/b/c.js")])])].

(** A server directory with root /root, one without a root, and an
    uploaded folder. *)
Definition serverDir : directory :=
  {| dir_id := 1; dir_type := "path"; dir_path := Some "/root";
     dir_name := Some "root"; dir_tree := None; dir_error := None |}.

Definition rootlessDir : directory :=
  {| dir_id := 2; dir_type := "path"; dir_path := None;
     dir_name := Some "lost"; dir_tree := None; dir_error := None |}.

Definition uploadedDir : directory :=
  {| dir_id := 3; dir_type := "uploaded"; dir_path := None;
     dir_name := Some "upload"; dir_tree := Some []; dir_error := None |}.

(** The registry holding the three, the first selected, with a failure
    left over from an earlier cycle. *)
Definition registry (sel : option N) : state :=
  {| directories := [serverDir; rootlessDir; uploadedDir];
     selectedDirectoryId := sel;
     baseEndpoint := "http://localhost:3000";
     failedFiles := ["stale.txt"];
     patchContent := "" |}.

Definition answer (data : responseData) : response :=
  {| ok := true; status := 200; text := Normal ""; json := Normal data |}.

(** A batch service that answers with success and an empty [files] map. *)
Definition silentService (_ : request) : completion response :=
  Normal (answer {| rd_success := true; rd_files := Some ∅;
                    rd_error := None; rd_appliedFiles := None;
                    rd_details := None |}).

(** A batch service whose per-file result for /root/a.txt is a failure
    without a message. *)
Definition terseService (_ : request) : completion response :=
  Normal (answer {| rd_success := true;
                    rd_files :=
                      Some {[ "/root/a.txt" :=
                                {| fr_success := false; fr_content := None;
                                   fr_error := None |} ]};
                    rd_error := None; rd_appliedFiles := None;
                    rd_details := None |}).

(** A batch service that delivers /root/a.txt and nothing else. *)
Definition partialService (_ : request) : completion response :=
  Normal (answer {| rd_success := true;
                    rd_files :=
                      Some {[ "/root/a.txt" :=
                                {| fr_success := true;
                                   fr_content := Some "hello";
                                   fr_error := None |} ]};
                    rd_error := None; rd_appliedFiles := None;
                    rd_details := None |}).

(** A network that is down. *)
Definition offline (_ : request) : completion response :=
  Throw "Failed to fetch".

(** An object store holding b.txt of directory 3, with reads of c.txt
    failing. *)
Definition store : uploadedFilesDB :=
  {| openError := None;
     readErrors := {[ "3:c.txt" := "The transaction was aborted" ]};
     records := {[ "3:b.txt" := "hello" ]} |}.

(** A page as index.html delivers it, after an earlier preview. *)
Definition usedPage : Patcher.dom :=
  {| Patcher.previewStatusEl := Patcher.setStatus "Preview generated successfully." false;
     Patcher.applyStatusEl := Patcher.setStatus "" false;
     Patcher.patchPreviewEl := "<div>old preview</div>";
     Patcher.applyButtonDisabled := false;
     Patcher.failedFilesDiv := ["stale.txt"] |}.

Definition world0 (sel : option N) : Patcher.world :=
  {| Patcher.st := registry sel; Patcher.page := usedPage;
     Patcher.calls := []; Patcher.alerts := [] |}.

(** A patch that creates bar.txt, and what jsdiff makes of it. *)
Definition creationPatch : string :=
  "--- /dev/null" +:+ Patcher.nl +:+ "+++ b/bar.txt" +:+ Patcher.nl
  +:+ "@@ -0,0 +1 @@" +:+ Patcher.nl +:+ "+new" +:+ Patcher.nl.

Definition creationRecord : Patcher.patch :=
  {| Patcher.oldFileName := Some "/dev/null";
     Patcher.newFileName := Some "b/bar.txt";
     Patcher.hunks :=
       Some [{| Patcher.header := Some "@@ -0,0 +1 @@";
                Patcher.lines := Some ["+new"] |}] |}.

Definition jsdiff (patchContent : string)
    : completion (option (list Patcher.patch)) :=
  if String.eqb patchContent creationPatch
  then Normal (Some [creationRecord])
  else Normal (Some []).

(** An apply service that reports success for one file. *)
Definition applyService (_ : request) : completion response :=
  Normal (answer {| rd_success := true; rd_files := None;
                    rd_error := None; rd_appliedFiles := Some ["bar.txt"];
                    rd_details := None |}).

End Samples.

(** ** Characters of a string *)

Module Chars.

(** Every character of [s] satisfies [f]. *)
Fixpoint all (f : ascii -> bool) (s : string) : bool :=
  match s with
  | EmptyString => true
  | String c s' => f c && all f s'
  end.

Definition is_digit (c : ascii) : bool :=
  let n := nat_of_ascii c in Nat.leb 48 n && Nat.leb n 57.

(** A segment of a path: not empty, and free of [sep]. *)
Definition segment (sep : ascii -> bool) (s : string) : bool :=
  JS.truthy s && all (fun c => negb (sep c)) s.

End Chars.

(** ** fileContent.js: the segments [PathUtils.join] works on *)

Module JoinParts.

(** [args.flatMap(part => part.split(/[\\/]/)).filter(Boolean)] *)
Definition joinParts (args : list string) : list string :=
  JS.filter_Boolean (flat_map (JS.split JS.is_slash_or_backslash) args).

(** ['/'] when the first argument starts with a slash. *)
Definition leadingSlash (args : list string) : string :=
  if JS.startsWith (List.hd EmptyString args) "/" then "/" else "".

(** Free of slashes and backslashes. *)
Definition free (s : string) : bool :=
  Chars.all (fun c => negb (JS.is_slash_or_backslash c)) s.

Definition isSegment (s : string) : bool :=
  Chars.segment JS.is_slash_or_backslash s.

(** Segments, each with a slash before it. *)
Fixpoint slashed (ps : list string) : string :=
  match ps with
  | [] => ""
  | p :: r => "/" +:+ p +:+ slashed r
  end.

End JoinParts.

(** ** patcher.js: [escapeHtml], replacement by replacement *)

Module Escape.

(** [s.replace(/c/g, by)] for a pattern that is one character [c]. *)
Fixpoint replaceAll (c : ascii) (by_ : string) (s : string) : string :=
  match s with
  | EmptyString => EmptyString
  | String a s' =>
      (if Ascii.eqb a c then by_ else String a EmptyString)
      +:+ replaceAll c by_ s'
  end.

(** [escapeHtml(unsafe)] as the source writes it: the guard, then the five
    global replacements one after the other. *)
Definition escapeHtml_chain (unsafe : string) : string :=
  if negb (JS.truthy unsafe) then EmptyString
  else
    replaceAll "'"%char "&#039;"
      (replaceAll "034"%char "&quot;"
         (replaceAll ">"%char "&gt;"
            (replaceAll "<"%char "&lt;"
               (replaceAll "&"%char "&amp;" unsafe)))).

(** The characters that open or close markup or an attribute value. *)
Definition markup (c : ascii) : bool :=
  Ascii.eqb c "<"%char || Ascii.eqb c ">"%char
  || Ascii.eqb c "034"%char || Ascii.eqb c "'"%char.

(** The five characters [escapeHtml] rewrites. *)
Definition rewritten (c : ascii) : bool :=
  Ascii.eqb c "&"%char || markup c.

End Escape.

(** ** More sample data *)

Module MoreSamples.
Import State Samples.

(** A source of a kind the client does not know. *)
Definition ftpDir : directory :=
  {| dir_id := 4; dir_type := "ftp"; dir_path := Some "/pub";
     dir_name := Some "pub"; dir_tree := None; dir_error := None |}.

Definition registryWithFtp : state :=
  {| directories := [serverDir; ftpDir];
     selectedDirectoryId := Some 4%N;
     baseEndpoint := "/";
     failedFiles := [];
     patchContent := "" |}.

(** The sample registry once the patch text has been stored by the
    debounced input handler. *)
Definition readyRegistry (sel : option N) : state :=
  {| directories := directories (registry sel);
     selectedDirectoryId := sel;
     baseEndpoint := baseEndpoint (registry sel);
     failedFiles := [];
     patchContent := creationPatch |}.

Definition readyWorld (sel : option N) : Patcher.world :=
  {| Patcher.st := readyRegistry sel; Patcher.page := usedPage;
     Patcher.calls := []; Patcher.alerts := [] |}.

(** An apply service that gives up after one file. *)
Definition failingApplyService (_ : Connection.request)
    : completion Connection.response :=
  Normal
    {| Connection.ok := false; Connection.status := 500;
       Connection.text := Normal "";
       Connection.json :=
         Normal {| Connection.rd_success := false;
                   Connection.rd_files := None;
                   Connection.rd_error := Some "hunk failed";
                   Connection.rd_appliedFiles := Some ["a.txt"];
                   Connection.rd_details := None |} |}.

End MoreSamples.

(** ** patcher.js: what the status elements have no part in *)

Module Frame.
Import State Patcher.

(** Two worlds with the same state, requests, alerts and list of failed
    files: they differ in the status elements, the preview body and the
    button at most. *)
Definition quiet (w w' : world) : Prop :=
  st w' = st w /\ calls w' = calls w /\ alerts w' = alerts w
  /\ failedFilesDiv (page w') = failedFilesDiv (page w).

End Frame.

(** ** fileContent.js: the file paths of a tree *)

Module TreePaths.
Import Uploader.

(** [node.path || (currentPath ? `${currentPath}/${key}` : key)] *)
Definition nodePath (path currentPath key : string) : string :=
  if JS.truthy path then path
  else if JS.truthy currentPath then currentPath +:+ "/" +:+ key
  else key.

(** One round of the loop of [getFilePathsFromTree]: what the property
    [key] holding the node [n] adds to [paths]. The recursive call on
    [node.children] is the [flat_map] over the children. *)
Fixpoint pathsOfNode (currentPath key : string) (n : node) : list string :=
  match n with
  | File p => [nodePath p currentPath key]
  | Folder p children =>
      flat_map
        (fun kn => pathsOfNode (nodePath p currentPath key) (fst kn) (snd kn))
        children
  end.

(** [getFilePathsFromTree(tree, currentPath)]; [None] is a tree that is
    [null] or [undefined]. The properties are visited in the order of the
    association list, which is the order of [for...in] except for names
    that are array indices; what is proved below is about which paths are
    listed and how often, not about their order. *)
Definition getFilePathsFromTree (t : option tree) (currentPath : string)
    : list string :=
  match t with
  | None => []
  | Some t =>
      flat_map (fun kn => pathsOfNode currentPath (fst kn) (snd kn)) t
  end.

(** Every file of the tree is found under the segments of its own path. *)
Definition located (t : tree) : Prop :=
  forall parts p, nodeAt t parts = Some (File p) -> pathParts p = parts.

End TreePaths.

(** ** state.js and stateDB.js: saving and loading the state

    [localStorage] is a map from keys to texts that accepts every write.
    The appState store of stateDB.js is given by the two records the client
    keeps in it, under the keys 'directories' and 'repoPatch_failedFiles':
    the sources as the client writes them (with the integer ids that
    [Date.now()] gives, for which [String] is the decimal form and
    [parseInt] is exact) and the failed paths. A record that is missing and
    a record whose value is no array read the same, as [None]. Opening the
    store can fail; a transaction on the open store can fail or be aborted,
    for a read and for a write of either key, and a failed write leaves the
    store as it was. The field [patchPreviewContent] of the state is
    written by no other code and is left out. *)

Module Persistence.
Import State.

Definition ENDPOINT_URL : string := "repoPatch_endpointUrl".
Definition SELECTED_DIRECTORY_ID : string := "repoPatch_selectedDirectoryId".
Definition FAILED_FILES : string := "repoPatch_failedFiles".
Definition DIRECTORIES : string := "directories".

(** The store as the client sees it. [stateReadErrors] and
    [stateWriteErrors] give, per key, the error with which the transaction
    of a [getState] or a [setState] is rejected ([tx.onerror], [tx.onabort]
    or a throw of [db.transaction]). *)
Record appState : Type := {
  stateOpenError : option string;
  stateReadErrors : gmap string string;
  stateWriteErrors : gmap string string;
  storedDirectories : option (list directory);
  storedFailedFiles : option (list string)
}.



(** [getDirectories()]: the stored array, or the empty array. *)
Definition getDirectories (db : appState) : completion (list directory) :=
  match stateOpenError db with
  | Some e => Throw e
  | None =>
      match stateReadErrors db !! DIRECTORIES with
      | Some e => Throw e
      | None =>
          Normal
            (match storedDirectories db with Some ds => ds | None => [] end)
      end
  end.

(** [getState(STORAGE_KEYS.FAILED_FILES)] *)
Definition getFailedFiles (db : appState)
    : completion (option (list string)) :=
  match stateOpenError db with
  | Some e => Throw e
  | None =>
      match stateReadErrors db !! FAILED_FILES with
      | Some e => Throw e
      | None => Normal (storedFailedFiles db)
      end
  end.




Definition digitValue (c : ascii) : N := N.of_nat (nat_of_ascii c) - 48.

(** The value of the longest run of decimal digits at the start of [s],
    read after the digits worth [acc]. *)
Fixpoint digitsValue (acc : N) (s : string) : N :=
  match s with
  | EmptyString => acc
  | String c s' =>
      if Chars.is_digit c then digitsValue (acc * 10 + digitValue c) s'
      else acc
  end.

(** [parseInt(s, 10)]: white space is skipped, a sign is read, then the
    longest run of digits; [None] is NaN. *)
Definition parseInt10 (s : string) : option Z :=
  let s := JS.trimStart s in
  let negative :=
    match s with String c _ => Ascii.eqb c "-" | EmptyString => false end in
  let s :=
    match s with
    | String c s' => if Ascii.eqb c "-" || Ascii.eqb c "+" then s' else s
    | EmptyString => s
    end in
  match s with
  | EmptyString => None
  | String c _ =>
      if Chars.is_digit c then
        let n := Z.of_N (digitsValue 0 s) in
        Some (if negative then (- n)%Z else n)
      else None
  end.

Definition set_baseEndpoint (e : string) (st : state) : state :=
  {| directories := directories st;
     selectedDirectoryId := selectedDirectoryId st;
     baseEndpoint := e;
     failedFiles := failedFiles st;
     patchContent := patchContent st |}.

Definition set_patchContent (p : string) (st : state) : state :=
  {| directories := directories st;
     selectedDirectoryId := selectedDirectoryId st;
     baseEndpoint := baseEndpoint st;
     failedFiles := failedFiles st;
     patchContent := p |}.

(** [new Set(array)] *)
Definition newSet (l : list string) : JsSet.t :=
  fold_left (fun s x => JsSet.add x s) l JsSet.empty.

(** [loadStateFromLocalStorage()]. The selection is parsed only from a
    text that is [String(dir.id)] for a source [dir], where [parseInt]
    gives that id; a negative number and NaN, which the state of the
    embedding cannot hold, do not arise there. *)
Definition loadStateFromLocalStorage (ls : gmap string string)
    (db : appState) (st : state) : completion unit * state :=
  let savedEndpoint := ls !! ENDPOINT_URL in
  let st :=
    set_baseEndpoint
      (match savedEndpoint with
       | Some s => if JS.truthy s then s else "/"
       | None => "/"
       end) st in
  let st :=
    if String.eqb (baseEndpoint st) "null"
       || String.eqb (baseEndpoint st) "undefined"
    then set_baseEndpoint "/" st
    else st in
  match getDirectories db with
  | Throw e => (Throw e, st)
  | Normal ds =>
      let st := set_directories ds st in
      let savedSelectedId := ls !! SELECTED_DIRECTORY_ID in
      let st :=
        match savedSelectedId with
        | Some s =>
            if JS.truthy s
               && existsb (fun dir => String.eqb (pretty (dir_id dir)) s)
                    (directories st)
            then
              set_selectedDirectoryId
                (match parseInt10 s with
                 | Some z => Some (Z.to_N z)
                 | None => None
                 end) st
            else
              match directories st with
              | d :: _ => set_selectedDirectoryId (Some (dir_id d)) st
              | [] => set_selectedDirectoryId None st
              end
        | None =>
            match directories st with
            | d :: _ => set_selectedDirectoryId (Some (dir_id d)) st
            | [] => set_selectedDirectoryId None st
            end
        end in
      match getFailedFiles db with
      | Throw e => (Throw e, st)
      | Normal failed =>
          let st :=
            set_failedFiles
              (newSet (match failed with Some l => l | None => [] end)) st in
          (Normal tt, set_patchContent "" st)
      end
  end.

End Persistence.

(** ** main.js: the Apply button *)

Module ApplyButton.
Import State.

(** [state.directories.find(d => d.id === state.selectedDirectoryId)] *)
Definition selectedDir (st : state) : option directory :=
  match selectedDirectoryId st with
  | Some sel => findDirectory sel st
  | None => None
  end.

(** What [updateApplyButtonState()] of main.js writes to the button. *)
Record button : Type := {
  disabled : bool;
  title : string
}.

(** [selectedDir.name || selectedDir.path], in a template literal. A
    source without a path has no [path] property (main.js creates uploaded
    sources without one), which the template prints as 'undefined'. *)
Definition nameOrPath (dir : directory) : string :=
  match dir_name dir with
  | Some (String c n) => String c n
  | _ => match dir_path dir with Some p => p | None => "undefined" end
  end.

(** [updateApplyButtonState()] of main.js; [input] is the value of the
    patch input. *)
Definition updateApplyButtonState (input : string) (st : state) : button :=
  let patchContent := JS.trim input in
  {| disabled :=
       negb
         match selectedDir st with
         | Some dir =>
             String.eqb (dir_type dir) "path" && JS.truthy patchContent
             && negb (JS.truthy_opt (dir_error dir))
         | None => false
         end;
     title :=
       match selectedDir st with
       | None => "Select a project source first."
       | Some dir =>
           if String.eqb (dir_type dir) "uploaded" then
             "Cannot apply patch to uploaded sources."
           else if negb (JS.truthy patchContent) then
             "Paste patch content first."
           else
             match dir_error dir with
             | Some (String c e) =>
                 "Cannot apply patch: Source has error - " +:+ String c e
             | _ =>
                 "Apply the patch to the selected source: "
                 +:+ nameOrPath dir
             end
       end |}.

End ApplyButton.

(** ** db.js: storing an uploaded file *)

Module DbWrite.
Import Db.

(** [putUploadedFile(dirId, filePath, content)]: the record
    [{ key, content }] is put under its key. [txError] is the error of the
    transaction when it fails or is aborted; nothing is written then. *)
Definition putUploadedFile (db : uploadedFilesDB) (txError : option string)
    (dirId : N) (filePath content : string)
    : completion unit * uploadedFilesDB :=
  match openError db with
  | Some e => (Throw e, db)
  | None =>
      match txError with
      | Some e => (Throw e, db)
      | None =>
          (Normal tt,
           {| openError := None;
              readErrors := readErrors db;
              records := <[key dirId filePath := content]> (records db) |})
      end
  end.

End DbWrite.

(** ** More sample data: storage *)

Module StorageSamples.
Import State Persistence.


(** A store left behind by an earlier session, and a [localStorage] whose
    selection names a source that is gone. *)
Definition usedStore : appState :=
  {| stateOpenError := None;
     stateReadErrors := ∅;
     stateWriteErrors := ∅;
     storedDirectories := Some [Samples.rootlessDir; Samples.serverDir];
     storedFailedFiles := Some ["a.txt"; "b.txt"; "a.txt"] |}.

Definition staleStorage : gmap string string :=
  {[ ENDPOINT_URL := "undefined"; SELECTED_DIRECTORY_ID := "7" ]}.


End StorageSamples.

(** * Properties *)

(** ** The tree builder *)

Section TreeBuilder.
Import Uploader Samples.

Lemma get_set_eq k n (t : tree) : get k (set k n t) = Some n.
Proof.
  induction t as [|[k' n'] r IH]; simpl.
  - by rewrite String.eqb_refl.
  - destruct (String.eqb k k') eqn:E; simpl; rewrite ?String.eqb_refl, ?E; auto.
Qed.

Lemma get_set_ne k k' n (t : tree) : k ≠ k' → get k' (set k n t) = get k' t.
Proof.
  intros Hne. induction t as [|[k0 n0] r IH]; simpl.
  - destruct (String.eqb k' k) eqn:E; [|done].
    apply String.eqb_eq in E. congruence.
  - destruct (String.eqb k k0) eqn:E; simpl.
    + apply String.eqb_eq in E. subst k0.
      destruct (String.eqb k' k) eqn:E'; [|done].
      apply String.eqb_eq in E'. congruence.
    + by rewrite IH.
Qed.

Lemma set_set k n n' (t : tree) : set k n (set k n' t) = set k n t.
Proof.
  induction t as [|[k0 n0] r IH]; simpl.
  - by rewrite String.eqb_refl.
  - destruct (String.eqb k k0) eqn:E; simpl; rewrite ?String.eqb_refl, ?E; congruence.
Qed.

Lemma set_get_id k n (t : tree) : get k t = Some n → set k n t = t.
Proof.
  induction t as [|[k0 n0] r IH]; simpl; [done|].
  destruct (String.eqb k k0) eqn:E.
  - apply String.eqb_eq in E. congruence.
  - intros H. by rewrite IH.
Qed.

Lemma existsb_eqb_keys k (t : tree) :
  existsb (String.eqb k) (map fst t)
  = match get k t with Some _ => true | None => false end.
Proof.
  induction t as [|[k0 n0] r IH]; simpl; [done|].
  by destruct (String.eqb k k0).
Qed.

Lemma keys_set_present k n (t : tree) :
  is_Some (get k t) → map fst (set k n t) = map fst t.
Proof.
  induction t as [|[k0 n0] r IH]; simpl.
  - by intros [? ?].
  - destruct (String.eqb k k0) eqn:E; simpl.
    + apply String.eqb_eq in E. by subst.
    + intros H. by rewrite IH.
Qed.

Lemma set_absent k n (t : tree) : get k t = None → set k n t = t ++ [(k, n)].
Proof.
  induction t as [|[k0 n0] r IH]; simpl; [done|].
  destruct (String.eqb k k0); [done|]. intros H. by rewrite IH.
Qed.

Lemma nodupb_snoc l k :
  nodupb (l ++ [k]) = nodupb l && negb (existsb (String.eqb k) l).
Proof.
  induction l as [|x r IH]; simpl; [done|].
  rewrite IH, existsb_app. simpl. rewrite orb_false_r.
  rewrite (String.eqb_sym k x).
  destruct (existsb (String.eqb x) r), (String.eqb x k), (nodupb r),
    (existsb (String.eqb k) r); done.
Qed.

Lemma nodupb_NoDup (l : list string) : nodupb l = true ↔ NoDup l.
Proof.
  induction l as [|x r IH]; simpl.
  - split; [constructor|done].
  - rewrite andb_true_iff, negb_true_iff, NoDup_cons, IH.
    assert (existsb (String.eqb x) r = false ↔ x ∉ r) as ->; [|done].
    rewrite <- not_true_iff_false, existsb_exists. split.
    + intros H Hx. apply H. exists x.
      split; [by apply list_elem_of_In|apply String.eqb_refl].
    + intros H (y & Hy%list_elem_of_In & ->%String.eqb_eq). done.
Qed.

Lemma nodupb_keys_set k n (t : tree) :
  nodupb (map fst t) = true → nodupb (map fst (set k n t)) = true.
Proof.
  intros H. destruct (get k t) as [n0|] eqn:E.
  - rewrite keys_set_present; eauto.
  - rewrite set_absent, map_app by done.
    change (map fst [(k, n)]) with [k].
    by rewrite nodupb_snoc, H, existsb_eqb_keys, E.
Qed.

Lemma forallb_set (f : string * node → bool) k n (t : tree) :
  (∀ k1 k2 m, f (k1, m) = f (k2, m)) →
  f (k, n) = true → forallb f t = true → forallb f (set k n t) = true.
Proof.
  intros Hf Hn. induction t as [|[k0 n0] r IH]; simpl.
  - by rewrite Hn.
  - intros [H1 H2]%andb_true_iff. destruct (String.eqb k k0); simpl.
    + by rewrite Hn, H2.
    + by rewrite H1, IH.
Qed.

Lemma forallb_get (f : string * node → bool) k n (t : tree) :
  (∀ k1 k2 m, f (k1, m) = f (k2, m)) →
  forallb f t = true → get k t = Some n → f (k, n) = true.
Proof.
  intros Hf. induction t as [|[k0 n0] r IH]; simpl; [done|].
  intros [H1 H2]%andb_true_iff. destruct (String.eqb k k0).
  - intros [= <-]. by rewrite (Hf k k0).
  - auto.
Qed.

Lemma uniqueNames_set k n (t : tree) :
  uniqueNames_node n = true → uniqueNames t = true →
  uniqueNames (set k n t) = true.
Proof.
  unfold uniqueNames. intros Hn [H1 H2]%andb_true_iff.
  apply andb_true_iff; split.
  - by apply nodupb_keys_set.
  - by apply forallb_set.
Qed.

Lemma uniqueNames_get k p ch (t : tree) :
  uniqueNames t = true → get k t = Some (Folder p ch) → uniqueNames ch = true.
Proof.
  unfold uniqueNames. intros [_ H2]%andb_true_iff Hg.
  by apply (forallb_get (λ kn, uniqueNames_node kn.2) k (Folder p ch) t).
Qed.

Lemma uniqueNames_Folder p ch :
  uniqueNames ch = true → uniqueNames_node (Folder p ch) = true.
Proof. done. Qed.

Lemma last_snoc (l : list string) x d : List.last (l ++ [x]) d = x.
Proof. induction l as [|y [|z r] IH]; simpl in *; auto. Qed.

Lemma addParts_folder_at_end current filePath walked parts p ch :
  nodeAt current parts = Some (Folder p ch) →
  addParts current filePath false walked parts
  = (current,
     [Warn ("File path conflicts with existing folder structure: "
            +:+ filePath)]).
Proof.
  revert current walked.
  induction parts as [|part rest IH]; intros current walked; simpl; [done|].
  destruct rest as [|r rs].
  - intros ->. done.
  - destruct (get part current) as [[q|q children]|] eqn:G; try done.
    intros H. rewrite (IH _ _ H). by rewrite set_get_id.
Qed.

Lemma addParts_file_on_the_way current filePath isDir walked pre rest p :
  nodeAt current pre = Some (File p) → rest ≠ [] →
  addParts current filePath isDir walked (pre ++ rest)
  = (current, [Error (pathConflict (walked ++ pre))]).
Proof.
  intros H Hrest. revert current walked H.
  induction pre as [|part pre' IH]; intros current walked; [done|].
  destruct pre' as [|q qs].
  - simpl. intros H. destruct rest as [|r rs]; [done|].
    rewrite H. unfold pathConflict. by rewrite last_snoc.
  - change (nodeAt current (part :: q :: qs)) with
      (match get part current with
       | Some (Folder _ children) => nodeAt children (q :: qs)
       | _ => None
       end).
    destruct (get part current) as [[x|x children]|] eqn:G; try done.
    intros H.
    change (addParts current filePath isDir walked ((part :: q :: qs) ++ rest))
      with (match get part current with
            | None =>
                let '(ch, out) :=
                  addParts [] filePath isDir (walked ++ [part]) ((q :: qs) ++ rest) in
                (set part (Folder (JS.join "/" (walked ++ [part])) ch) current, out)
            | Some (Folder p children) =>
                let '(ch, out) :=
                  addParts children filePath isDir (walked ++ [part]) ((q :: qs) ++ rest) in
                (set part (Folder p ch) current, out)
            | Some (File _) =>
                (current,
                 [Error ("Path conflict: trying to create directory part '"
                         +:+ part +:+ "' but a file exists at '"
                         +:+ JS.join "/" (walked ++ [part]) +:+ "'. Skipping subtree.")])
            end).
    rewrite G, (IH _ _ H), set_get_id by done.
    by rewrite <- app_assoc.
Qed.

Lemma nodeAt_step (t : tree) part r rs :
  nodeAt t (part :: r :: rs)
  = match get part t with
    | Some (Folder _ children) => nodeAt children (r :: rs)
    | _ => None
    end.
Proof. reflexivity. Qed.

Lemma addParts_step current filePath isDir walked part r rs :
  addParts current filePath isDir walked (part :: r :: rs)
  = match get part current with
    | None =>
        let '(ch, out) :=
          addParts [] filePath isDir (walked ++ [part]) (r :: rs) in
        (set part (Folder (JS.join "/" (walked ++ [part])) ch) current, out)
    | Some (Folder p children) =>
        let '(ch, out) :=
          addParts children filePath isDir (walked ++ [part]) (r :: rs) in
        (set part (Folder p ch) current, out)
    | Some (File _) => (current, [Error (pathConflict (walked ++ [part]))])
    end.
Proof.
  unfold pathConflict. rewrite last_snoc. reflexivity.
Qed.

(** A file at the end of the path is replaced, silently, and nothing
    off the path changes. *)
Lemma addParts_replaces_file current filePath walked parts p :
  nodeAt current parts = Some (File p) →
  ∃ t', addParts current filePath false walked parts = (t', [])
        ∧ nodeAt t' parts = Some (File filePath)
        ∧ ∀ q, ¬ q `prefix_of` parts → nodeAt t' q = nodeAt current q.
Proof.
  revert current walked.
  induction parts as [|part rest IH]; intros current walked; [done|].
  destruct rest as [|r rs].
  - simpl. intros G. rewrite G. eexists; split; [done|]. split.
    + apply get_set_eq.
    + intros [|a [|b qs]] Hq.
      * destruct Hq. apply prefix_nil.
      * simpl. apply get_set_ne. intros ->. by destruct Hq.
      * rewrite !nodeAt_step. destruct (decide (part = a)) as [->|Hne].
        -- by rewrite get_set_eq, G.
        -- by rewrite get_set_ne.
  - rewrite nodeAt_step, addParts_step.
    destruct (get part current) as [[x|x children]|] eqn:G; try done.
    intros H. destruct (IH children (walked ++ [part]) H) as (ch & -> & Hat & Hframe).
    eexists; split; [done|]. split.
    + by rewrite nodeAt_step, get_set_eq.
    + intros [|a [|b qs]] Hq.
      * destruct Hq. apply prefix_nil.
      * simpl. apply get_set_ne. intros ->. destruct Hq.
        by apply prefix_cons, prefix_nil.
      * rewrite !nodeAt_step. destruct (decide (part = a)) as [->|Hne].
        -- rewrite get_set_eq, G. apply Hframe. intros Hp.
           apply Hq. by apply prefix_cons.
        -- by rewrite get_set_ne.
Qed.

(** Inserting the same path again leaves the tree as the first insertion
    made it. *)
Lemma addParts_idempotent current filePath isDir walked parts :
  (addParts (addParts current filePath isDir walked parts).1
     filePath isDir walked parts).1
  = (addParts current filePath isDir walked parts).1.
Proof.
  revert current walked.
  induction parts as [|part rest IH]; intros current walked; [done|].
  destruct rest as [|r rs].
  - simpl. destruct isDir; simpl.
    + destruct (get part current) as [n|] eqn:G; simpl.
      * by rewrite G.
      * by rewrite get_set_eq.
    + destruct (get part current) as [[x|x children]|] eqn:G; simpl.
      * by rewrite get_set_eq, set_set.
      * by rewrite G.
      * by rewrite get_set_eq, set_set.
  - rewrite (addParts_step current).
    destruct (get part current) as [[x|x children]|] eqn:G.
    + cbn [fst]. by rewrite addParts_step, G.
    + specialize (IH children (walked ++ [part])).
      destruct (addParts children filePath isDir (walked ++ [part]) (r :: rs))
        as [ch out] eqn:E1.
      cbn [fst] in *. rewrite addParts_step, get_set_eq.
      destruct (addParts ch filePath isDir (walked ++ [part]) (r :: rs))
        as [ch2 out2] eqn:E2.
      cbn [fst] in *. subst ch2. by rewrite set_set.
    + specialize (IH [] (walked ++ [part])).
      destruct (addParts [] filePath isDir (walked ++ [part]) (r :: rs))
        as [ch out] eqn:E1.
      cbn [fst] in *. rewrite addParts_step, get_set_eq.
      destruct (addParts ch filePath isDir (walked ++ [part]) (r :: rs))
        as [ch2 out2] eqn:E2.
      cbn [fst] in *. subst ch2. by rewrite set_set.
Qed.

(** An insertion never gives an object two properties of one name. *)
Lemma addParts_uniqueNames current filePath isDir walked parts :
  uniqueNames current = true →
  uniqueNames (addParts current filePath isDir walked parts).1 = true.
Proof.
  revert current walked.
  induction parts as [|part rest IH]; intros current walked Hu; [done|].
  destruct rest as [|r rs].
  - simpl. destruct isDir; simpl.
    + destruct (get part current) as [n|]; simpl; [done|].
      by apply uniqueNames_set.
    + destruct (get part current) as [[x|x children]|]; simpl;
        try done; by apply uniqueNames_set.
  - rewrite addParts_step.
    destruct (get part current) as [[x|x children]|] eqn:G; [done| |].
    + specialize (IH children (walked ++ [part])
                    (uniqueNames_get _ _ _ _ Hu G)).
      destruct (addParts children filePath isDir (walked ++ [part]) (r :: rs))
        as [ch out]. simpl in *.
      by apply uniqueNames_set; [apply uniqueNames_Folder|].
    + specialize (IH [] (walked ++ [part]) eq_refl).
      destruct (addParts [] filePath isDir (walked ++ [part]) (r :: rs))
        as [ch out]. simpl in *.
      by apply uniqueNames_set; [apply uniqueNames_Folder|].
Qed.

Lemma buildTree_uniqueNames_from (filePaths : list string) (t : tree) :
  uniqueNames t = true →
  uniqueNames (fold_left (λ t p, (addToTree t p false).1) filePaths t) = true.
Proof.
  revert t. induction filePaths as [|p r IH]; intros t Ht; simpl; [done|].
  apply IH. by apply addParts_uniqueNames.
Qed.

(** C4. Conflict policy of [addToTree]. When the path of a file to insert
    ends at a node that is already a folder, the tree is returned as it
    was and one warning naming the path is logged. When a proper prefix of
    the path (of any entry, file or directory) ends at a node that is a
    file, the tree is returned as it was and one error naming the segment
    and the prefix is logged. In both cases the call returns normally. *)
Theorem addToTree_conflict_policy (t : tree) (filePath : string) :
  (∀ p ch,
      nodeAt t (pathParts filePath) = Some (Folder p ch) →
      addToTree t filePath false
      = (t, [Warn ("File path conflicts with existing folder structure: "
                   +:+ filePath)]))
  ∧ (∀ isDir pre rest p,
      pathParts filePath = pre ++ rest → rest ≠ [] →
      nodeAt t pre = Some (File p) →
      addToTree t filePath isDir = (t, [Error (pathConflict pre)])).
Proof.
  split.
  - intros p ch H. unfold addToTree. by erewrite addParts_folder_at_end.
  - intros isDir pre rest p Hparts Hrest H. unfold addToTree.
    rewrite Hparts. by erewrite addParts_file_on_the_way.
Qed.

(** C10. File over file in [addToTree]. When the path of a file to insert
    ends at a node that is a file, that node becomes the file node of the
    new path, nothing is logged, and every path that is not a prefix of
    the inserted one leads where it led before. Inserting a path a second
    time leaves the tree as the first insertion made it. A tree in which
    no object has two properties of one name stays such a tree. *)
Theorem addToTree_file_collision (t : tree) (filePath : string) :
  (∀ p,
      nodeAt t (pathParts filePath) = Some (File p) →
      ∃ t', addToTree t filePath false = (t', [])
            ∧ nodeAt t' (pathParts filePath) = Some (File filePath)
            ∧ ∀ q, ¬ q `prefix_of` pathParts filePath →
                   nodeAt t' q = nodeAt t q)
  ∧ (∀ isDir,
      (addToTree (addToTree t filePath isDir).1 filePath isDir).1
      = (addToTree t filePath isDir).1)
  ∧ (∀ isDir,
      uniqueNames t = true →
      uniqueNames (addToTree t filePath isDir).1 = true).
Proof.
  split; [|split].
  - intros p H. by eapply addParts_replaces_file.
  - intros isDir. apply addParts_idempotent.
  - intros isDir H. by apply addParts_uniqueNames.
Qed.

(** Every tree built from the empty object by file insertions has unique
    names at every level. *)
Corollary buildTree_uniqueNames (filePaths : list string) :
  uniqueNames (buildTree filePaths) = true.
Proof. by apply buildTree_uniqueNames_from. Qed.

Lemma sampleTree_built : buildTree ["src/a.js"; "src/b/c.js"] = sampleTree.
Proof. reflexivity. Qed.

(** The conflict policy on the sample tree: src/b is a folder, src/a.js a
    file. *)
Lemma addToTree_conflict_policy_witness :
  nodeAt sampleTree (pathParts "src/b")
  = Some (Folder "src/b" [("c.js", File "src/b/c.js")])
  ∧ addToTree sampleTree "src/b" false
    = (sampleTree,
       [Warn "File path conflicts with existing folder structure: src/b"])
  ∧ nodeAt sampleTree ["src"; "a.js"] = Some (File "src/a.js")
  ∧ addToTree sampleTree "src/a.js/x.js" false
    = (sampleTree, [Error (pathConflict ["src"; "a.js"])]).
Proof.
  split; [reflexivity|]. split.
  - apply (proj1 (addToTree_conflict_policy sampleTree "src/b")
             "src/b" [("c.js", File "src/b/c.js")]).
    reflexivity.
  - split; [reflexivity|].
    apply (proj2 (addToTree_conflict_policy sampleTree "src/a.js/x.js")
             false ["src"; "a.js"] ["x.js"] "src/a.js");
      [reflexivity | discriminate | reflexivity].
Defined.

(** File over file on the sample tree: src/a.js inserted again, spelled
    with a double slash. *)
Lemma addToTree_file_collision_witness :
  nodeAt sampleTree (pathParts "src//a.js") = Some (File "src/a.js")
  ∧ uniqueNames sampleTree = true
  ∧ (∃ t', addToTree sampleTree "src//a.js" false = (t', [])
           ∧ nodeAt t' (pathParts "src//a.js") = Some (File "src//a.js")
           ∧ ∀ q, ¬ q `prefix_of` pathParts "src//a.js" →
                  nodeAt t' q = nodeAt sampleTree q)
  ∧ uniqueNames (addToTree sampleTree "src//a.js" false).1 = true.
Proof.
  split; [reflexivity|]. split; [reflexivity|]. split.
  - apply (proj1 (addToTree_file_collision sampleTree "src//a.js") "src/a.js").
    reflexivity.
  - apply (proj2 (proj2 (addToTree_file_collision sampleTree "src//a.js")) false).
    reflexivity.
Defined.

End TreeBuilder.

(** ** The content resolver *)

Section ContentResolver.
Import State Connection Db FileContent Samples.

Lemma has_true (x : string) (s : JsSet.t) : JsSet.has x s = true ↔ x ∈ s.
Proof.
  unfold JsSet.has. rewrite existsb_exists. split.
  - intros (y & Hy & ->%String.eqb_eq). by apply list_elem_of_In.
  - intros H. exists x. split; [by apply list_elem_of_In|apply String.eqb_refl].
Qed.

Lemma has_add (x y : string) (s : JsSet.t) :
  JsSet.has x (JsSet.add y s) = JsSet.has x s || String.eqb x y.
Proof.
  unfold JsSet.add. destruct (JsSet.has y s) eqn:E.
  - destruct (String.eqb x y) eqn:Exy; [|by rewrite orb_false_r].
    apply String.eqb_eq in Exy. subst. by rewrite E.
  - unfold JsSet.has. rewrite existsb_app. simpl. by rewrite orb_false_r.
Qed.

Lemma add_NoDup (y : string) (s : JsSet.t) : NoDup s → NoDup (JsSet.add y s).
Proof.
  intros H. unfold JsSet.add. destruct (JsSet.has y s) eqn:E; [done|].
  apply NoDup_app. split; [done|]. split; [|apply NoDup_singleton].
  intros x Hx ->%list_elem_of_singleton.
  apply has_true in Hx. congruence.
Qed.

Section PerPath.
Variable entry : string → fileData.
Variable fails : string → bool.

Lemma fold_perPath_lookup (paths : list string) (a : acc) (q : string) :
  (fold_left (perPath entry fails) paths a).1 !! q
  = if decide (q ∈ paths) then Some (entry q) else a.1 !! q.
Proof.
  revert a. induction paths as [|p r IH]; intros a; cbn [fold_left].
  - by destruct (decide (q ∈ [])) as [?%elem_of_nil|].
  - rewrite IH. cbn [fst snd perPath].
    destruct (decide (q ∈ r)) as [Hr|Hr].
    + by rewrite decide_True by (by right).
    + destruct (decide (p = q)) as [->|Hne].
      * rewrite lookup_insert_eq. by rewrite decide_True by left.
      * rewrite lookup_insert_ne by done.
        rewrite decide_False; [done|].
        intros [?|?]%elem_of_cons; congruence.
Qed.

Lemma fold_perPath_failed (paths : list string) (a : acc) (q : string) :
  JsSet.has q (fold_left (perPath entry fails) paths a).2
  = JsSet.has q a.2 || (bool_decide (q ∈ paths) && fails q).
Proof.
  revert a. induction paths as [|p r IH]; intros a; cbn [fold_left].
  - rewrite bool_decide_eq_false_2 by apply not_elem_of_nil.
    by rewrite orb_false_r.
  - rewrite IH. cbn [fst snd perPath].
    destruct (decide (q = p)) as [->|Hne].
    + rewrite (bool_decide_eq_true_2 (p ∈ p :: r)) by left. simpl.
      destruct (fails p) eqn:F.
      * rewrite has_add, String.eqb_refl.
        by rewrite !orb_true_r.
      * rewrite andb_false_r. by rewrite !orb_false_r.
    + assert (bool_decide (q ∈ p :: r) = bool_decide (q ∈ r)) as ->.
      { apply bool_decide_ext. rewrite elem_of_cons.
        split; [by intros [?|?]|by right]. }
      destruct (fails p); [|done].
      rewrite has_add.
      rewrite (proj2 (String.eqb_neq q p) Hne).
      by rewrite orb_false_r.
Qed.

Lemma fold_perPath_NoDup (paths : list string) (a : acc) :
  NoDup a.2 → NoDup (fold_left (perPath entry fails) paths a).2.
Proof.
  revert a. induction paths as [|p r IH]; intros a H; simpl; [done|].
  apply IH. simpl. destruct (fails p); [by apply add_NoDup|done].
Qed.

Lemma fold_perPath_dom (paths : list string) (a : acc) :
  dom (fold_left (perPath entry fails) paths a).1 = dom a.1 ∪ list_to_set paths.
Proof.
  apply set_eq. intros q.
  rewrite elem_of_dom, fold_perPath_lookup, elem_of_union, elem_of_dom,
    elem_of_list_to_set.
  destruct (decide (q ∈ paths)); [|tauto].
  split; [tauto|eauto].
Qed.
End PerPath.

Lemma fold_left_ext_acc (f g : acc → string → acc) (paths : list string) (a : acc) :
  (∀ a p, f a p = g a p) → fold_left f paths a = fold_left g paths a.
Proof.
  intros H. revert a. induction paths as [|p r IH]; intros a; simpl; [done|].
  by rewrite H, IH.
Qed.

(** [setAll] as a per-path loop. *)
Lemma setAll_perPath errorMsg fail paths (a : acc) :
  setAll errorMsg fail paths a
  = fold_left
      (perPath (λ _, {| content := JS.null; error := JS.str errorMsg |})
               (λ _, fail)) paths a.
Proof. unfold setAll. apply fold_left_ext_acc. by intros [? ?] p. Qed.

Lemma fetchUploaded_perPath db dirId (a : acc) p :
  fetchUploaded db dirId a p
  = perPath (uploadedEntry db dirId) (uploadedFails db dirId) a p.
Proof.
  destruct a as [results failed].
  unfold fetchUploaded, perPath, uploadedEntry, uploadedFails. simpl.
  by destruct (getUploadedFile db dirId p) as [msg|[c|]].
Qed.

Lemma mapBack_perPath fs abs (a : acc) p :
  mapBack fs a (abs p, p) = perPath (batchEntry fs abs) (batchFails fs abs) a p.
Proof.
  destruct a as [results failed].
  unfold mapBack, perPath, batchEntry, batchFails. simpl.
  destruct (fs !! abs p) as [result|]; [|done].
  destruct (fr_success result); [done|]. simpl.
  by destruct (fr_error result).
Qed.

Lemma fold_mapBack fs (abs : string → string) (paths : list string) (a : acc) :
  fold_left (mapBack fs) (List.combine (map abs paths) paths) a
  = fold_left (perPath (batchEntry fs abs) (batchFails fs abs)) paths a.
Proof.
  revert a. induction paths as [|p r IH]; intros a; simpl; [done|].
  by rewrite mapBack_perPath, IH.
Qed.

(** The second loop over a successful answer finds every requested path
    already in the map. *)
Lemma fold_noResponse_id (paths : list string) (a : acc) :
  (∀ p, p ∈ paths → is_Some (a.1 !! p)) →
  fold_left noResponse paths a = a.
Proof.
  induction paths as [|p r IH]; intros H; simpl; [done|].
  assert (noResponse a p = a) as ->.
  { destruct a as [results failed]. unfold noResponse.
    destruct (H p) as [d Hd]; [by left|]. simpl in Hd. by rewrite Hd. }
  apply IH. intros q Hq. apply H. by right.
Qed.

Lemma successful_batch fs abs (paths : list string) (a : acc) :
  fold_left noResponse paths
    (fold_left (mapBack fs) (List.combine (map abs paths) paths) a)
  = fold_left (perPath (batchEntry fs abs) (batchFails fs abs)) paths a.
Proof.
  rewrite fold_mapBack. apply fold_noResponse_id.
  intros p Hp. rewrite fold_perPath_lookup. by rewrite decide_True.
Qed.

(** The first steps of [fetchPatchRequiredFiles]: the failure set is
    cleared, which does not change the source the id names. *)
Ltac enter_resolver :=
  unfold fetchPatchRequiredFiles;
  match goal with
  | |- context [findDirectory ?d (set_failedFiles JsSet.empty ?s)] =>
      change (findDirectory d (set_failedFiles JsSet.empty s))
        with (findDirectory d s)
  end.

Lemma perPath_complete entry fails (paths : list string) (failed : JsSet.t) :
  let a := fold_left (perPath entry fails) paths (∅, failed) in
  (∀ p, is_Some (a.1 !! p) ↔ p ∈ paths)
  ∧ (∀ p d, a.1 !! p = Some d → d = entry p).
Proof.
  split; intros p.
  - rewrite fold_perPath_lookup. destruct (decide (p ∈ paths)) as [H|H].
    + split; eauto.
    + cbn [fst]. rewrite lookup_empty. split; [by intros [? ?]|done].
  - intros d. rewrite fold_perPath_lookup.
    destruct (decide (p ∈ paths)); [congruence|].
    cbn [fst]. by rewrite lookup_empty.
Qed.

Lemma tryFetch_origin fetch url b resp reqs :
  tryFetchWithFallback fetch url b = (Normal resp, reqs) →
  ∃ req, fetch req = Normal resp.
Proof.
  unfold tryFetchWithFallback.
  destruct (JS.startsWith url "/"); [intros [= H _]; eauto|].
  destruct (fetch {| req_url := url; req_body := b |}) as [msg|r] eqn:E.
  - intros [= H _]; eauto.
  - destruct (ok r); intros [= H _]; [subst; eauto|eauto].
Qed.

(** The batch fetch, whatever the transport does, is a per-path loop. *)
Lemma fetchBatch_perPath fetch st (paths : list string) abs :
  ∃ entry fails,
    (fetchBatch fetch st paths (map abs paths)).1
    = fold_left (perPath entry fails) paths (∅, failedFiles st).
Proof.
  unfold fetchBatch.
  destruct (tryFetchWithFallback fetch (baseEndpoint st +:+ "/api/files")
              (PathsBody (map abs paths))) as [[msg|resp] reqs].
  - eexists _, _. apply setAll_perPath.
  - destruct (ok resp); cbn [negb].
    + destruct (json resp) as [msg|data].
      * eexists _, _. apply setAll_perPath.
      * destruct (rd_success data), (rd_files data) as [fs|];
          try (eexists _, _; apply setAll_perPath).
        eexists _, _. apply successful_batch.
    + eexists _, _. apply setAll_perPath.
Qed.

(** C3. The code falls short of the claim in two places. For a source of
    kind 'path' that has no root path, a call with at least one requested
    path throws and returns no map at all: the check of the root that
    [applyPatch] and [fetchDirectoryStructure] make is missing here. And
    when a successful batch answer reports, for a requested path, a failure
    without a message, the entry of that path holds neither content nor an
    error reason, against the function's own documentation of its
    result. *)
Theorem fetchPatchRequiredFiles_incomplete fetch db dirId filePaths st dir :
  findDirectory dirId st = Some dir → dir_type dir = "path" →
  (dir_path dir = None → filePaths ≠ [] →
   ∃ msg st',
     fetchPatchRequiredFiles fetch db dirId filePaths st
     = (Throw msg, st', []))
  ∧ (∀ root resp reqs data fs p r,
       dir_path dir = Some root →
       tryFetchWithFallback fetch (baseEndpoint st +:+ "/api/files")
         (PathsBody (map (λ q, PathUtils_join [root; q]) filePaths))
       = (Normal resp, reqs) →
       ok resp = true → json resp = Normal data →
       rd_success data = true → rd_files data = Some fs →
       p ∈ filePaths → fs !! PathUtils_join [root; p] = Some r →
       fr_success r = false → fr_error r = None →
       ∃ results st',
         fetchPatchRequiredFiles fetch db dirId filePaths st
         = (Normal results, st', reqs)
         ∧ results !! p
           = Some {| content := JS.null; error := JS.undefined |}).
Proof.
  intros Hdir Htype. split.
  - intros Hroot Hne. enter_resolver.
    rewrite Hdir, Htype, Hroot. cbn [String.eqb Ascii.eqb Bool.eqb].
    destruct filePaths as [|p0 rest]; [done|]. eauto.
  - intros root resp reqs data fs p r Hroot Hfetch Hok Hjson Hsucc Hfiles Hp Hr
      Hfail Herr.
    enter_resolver.
    rewrite Hdir, Htype, Hroot. cbn [String.eqb Ascii.eqb Bool.eqb].
    destruct filePaths as [|p0 rest]; [by apply elem_of_nil in Hp|].
    cbn [map].
    change (PathUtils_join [root; p0]
            :: map (λ q, PathUtils_join [root; q]) rest)
      with (map (λ q, PathUtils_join [root; q]) (p0 :: rest)) in *.
    unfold fetchBatch.
    change (baseEndpoint (set_failedFiles JsSet.empty st))
      with (baseEndpoint st).
    rewrite Hfetch, Hok, Hjson, Hsucc, Hfiles. cbn [negb].
    rewrite successful_batch.
    eexists _, _. split; [reflexivity|].
    cbn [failedFiles set_failedFiles fst snd].
    rewrite fold_perPath_lookup, decide_True by done.
    unfold batchEntry. by rewrite Hr, Hfail, Herr.
Qed.

(** The two failing calls. The registry holds a server directory without a
    root (id 2): asking it for a.txt throws, and the caller gets no map.
    The batch service answers, for /root/a.txt of the server directory with
    id 1, with a failure that has no message: the entry of a.txt has [null]
    as content and no error. *)
Lemma fetchPatchRequiredFiles_incomplete_witness :
  (∃ msg st',
     fetchPatchRequiredFiles terseService store 2 ["a.txt"]
       (registry (Some 2%N))
     = (Throw msg, st', []))
  ∧ ∃ results st',
      fetchPatchRequiredFiles terseService store 1 ["a.txt"]
        (registry (Some 1%N))
      = (Normal results, st',
         [{| req_url := "http://localhost:3000/api/files";
             req_body := PathsBody ["/root/a.txt"] |}])
      ∧ results !! "a.txt"
        = Some {| content := JS.null; error := JS.undefined |}.
Proof.
  split.
  - apply (proj1 (fetchPatchRequiredFiles_incomplete terseService store 2
                    ["a.txt"] (registry (Some 2%N)) rootlessDir
                    eq_refl eq_refl)); [reflexivity | discriminate].
  - apply (proj2 (fetchPatchRequiredFiles_incomplete terseService store 1
                    ["a.txt"] (registry (Some 1%N)) serverDir
                    eq_refl eq_refl)
             "/root" _ _ _ _ "a.txt"
             {| fr_success := false; fr_content := None; fr_error := None |}
             eq_refl eq_refl eq_refl eq_refl eq_refl eq_refl);
      [by left | reflexivity | reflexivity | reflexivity].
Defined.

(** C9. When the requested id names no source, every requested path gets
    the entry with the error 'Target directory not found', no request is
    sent, and the failure set is empty afterwards, whatever it held
    before. *)
Theorem unknown_source_fails_silently fetch db dirId filePaths st :
  findDirectory dirId st = None →
  ∃ results st',
    fetchPatchRequiredFiles fetch db dirId filePaths st
    = (Normal results, st', [])
    ∧ (∀ p, p ∈ filePaths →
            results !! p
            = Some {| content := JS.null;
                      error := JS.str "Target directory not found" |})
    ∧ failedFiles st' = JsSet.empty.
Proof.
  intros Hdir. enter_resolver.
  rewrite Hdir. eexists _, _. split; [reflexivity|].
  rewrite setAll_perPath. split.
  - intros p Hp. rewrite fold_perPath_lookup. by rewrite decide_True.
  - cbn [failedFiles set_failedFiles].
    generalize (∅ : gmap string fileData).
    induction filePaths as [|p r IH]; intros m; [done|].
    cbn [fold_left perPath fst snd]. apply IH.
Qed.

(** The id 7 names no source of the sample registry. *)
Lemma unknown_source_fails_silently_witness :
  findDirectory 7 (registry (Some 1%N)) = None
  ∧ ∃ results st',
      fetchPatchRequiredFiles offline store 7 ["a.txt"; "b.txt"]
        (registry (Some 1%N))
      = (Normal results, st', [])
      ∧ (∀ p, p ∈ ["a.txt"; "b.txt"] →
              results !! p
              = Some {| content := JS.null;
                        error := JS.str "Target directory not found" |})
      ∧ failedFiles st' = JsSet.empty.
Proof.
  split; [reflexivity|].
  apply (unknown_source_fails_silently offline store 7 ["a.txt"; "b.txt"]
           (registry (Some 1%N))).
  reflexivity.
Defined.

(** C5. For a source of kind 'uploaded' and a requested path: when the
    store has no record under the key of the path, the entry has no content
    and the reason 'File not found in uploaded data (may be deleted by
    patch)', which contains 'not found', and the path is not in the failure
    set afterwards; when the lookup throws, the entry has no content and
    the reason 'DB error: ' followed by the message, and the path is in
    the failure set afterwards. *)
Theorem uploaded_missing_is_not_a_failure fetch db dirId filePaths st dir p :
  findDirectory dirId st = Some dir → dir_type dir = "uploaded" →
  p ∈ filePaths →
  ∃ results st',
    fetchPatchRequiredFiles fetch db dirId filePaths st
    = (Normal results, st', [])
    ∧ (getUploadedFile db (dir_id dir) p = Normal None →
       results !! p
       = Some {| content := JS.null;
                 error := JS.str
                   "File not found in uploaded data (may be deleted by patch)" |}
       ∧ JS.includes
           "File not found in uploaded data (may be deleted by patch)"
           "not found" = true
       ∧ p ∉ failedFiles st')
    ∧ (∀ msg, getUploadedFile db (dir_id dir) p = Throw msg →
       results !! p
       = Some {| content := JS.null;
                 error := JS.str ("DB error: " +:+ msg) |}
       ∧ p ∈ failedFiles st').
Proof.
  intros Hdir Htype Hp. enter_resolver.
  rewrite Hdir, Htype. cbn [String.eqb Ascii.eqb Bool.eqb].
  eexists _, _. split; [reflexivity|].
  rewrite (fold_left_ext_acc _ _ _ _ (fetchUploaded_perPath db (dir_id dir))).
  cbn [failedFiles set_failedFiles fst snd].
  split.
  - intros Hmiss. split; [|split; [reflexivity|]].
    + rewrite fold_perPath_lookup, decide_True by done.
      unfold uploadedEntry. by rewrite Hmiss.
    + rewrite <- has_true, fold_perPath_failed.
      unfold uploadedFails. rewrite Hmiss. cbn.
      by rewrite andb_false_r.
  - intros msg Hthrow. split.
    + rewrite fold_perPath_lookup, decide_True by done.
      unfold uploadedEntry. by rewrite Hthrow.
    + rewrite <- has_true, fold_perPath_failed.
      unfold uploadedFails. rewrite Hthrow.
      by rewrite bool_decide_eq_true_2.
Qed.

(** The uploaded directory: a.txt has no record, reading c.txt fails. *)
Lemma uploaded_missing_is_not_a_failure_witness :
  findDirectory 3 (registry (Some 3%N)) = Some uploadedDir
  ∧ getUploadedFile store 3 "a.txt" = Normal None
  ∧ getUploadedFile store 3 "c.txt" = Throw "The transaction was aborted"
  ∧ (∃ results st',
       fetchPatchRequiredFiles offline store 3 ["a.txt"; "b.txt"; "c.txt"]
         (registry (Some 3%N))
       = (Normal results, st', [])
       ∧ results !! "a.txt"
         = Some {| content := JS.null;
                   error := JS.str
                     "File not found in uploaded data (may be deleted by patch)" |}
       ∧ "a.txt" ∉ failedFiles st')
  ∧ (∃ results st',
       fetchPatchRequiredFiles offline store 3 ["a.txt"; "b.txt"; "c.txt"]
         (registry (Some 3%N))
       = (Normal results, st', [])
       ∧ results !! "c.txt"
         = Some {| content := JS.null;
                   error := JS.str "DB error: The transaction was aborted" |}
       ∧ "c.txt" ∈ failedFiles st').
Proof.
  split; [reflexivity|]. split; [reflexivity|]. split; [reflexivity|].
  split.
  - destruct (uploaded_missing_is_not_a_failure offline store 3
                ["a.txt"; "b.txt"; "c.txt"] (registry (Some 3%N))
                uploadedDir "a.txt" eq_refl eq_refl)
      as (results & st' & Heq & Hmiss & _).
    { by left. }
    destruct (Hmiss eq_refl) as (H1 & _ & H3).
    by exists results, st'.
  - destruct (uploaded_missing_is_not_a_failure offline store 3
                ["a.txt"; "b.txt"; "c.txt"] (registry (Some 3%N))
                uploadedDir "c.txt" eq_refl eq_refl)
      as (results & st' & Heq & _ & Hthrow).
    { by right; right; left. }
    destruct (Hthrow _ eq_refl) as (H1 & H2).
    by exists results, st'.
Defined.

(** C1: what the code does with a path that the batch answer leaves out.
    For a source of kind 'path' with a root, when the batch service
    answers with success and a [files] map that has no entry for the
    absolute path of a requested path, the entry of that path carries the
    reason 'File not found by server (may be deleted by patch)', not 'No
    response from server for this file.', and the path is not in the
    failure set. *)
Theorem left_out_of_answer_is_not_a_failure
    fetch db dirId filePaths st dir root resp data fs reqs p :
  findDirectory dirId st = Some dir → dir_type dir = "path" →
  dir_path dir = Some root →
  tryFetchWithFallback fetch (baseEndpoint st +:+ "/api/files")
    (PathsBody (map (λ q, PathUtils_join [root; q]) filePaths))
  = (Normal resp, reqs) →
  ok resp = true → json resp = Normal data →
  rd_success data = true → rd_files data = Some fs →
  p ∈ filePaths → fs !! PathUtils_join [root; p] = None →
  ∃ results st',
    fetchPatchRequiredFiles fetch db dirId filePaths st
    = (Normal results, st', reqs)
    ∧ results !! p
      = Some {| content := JS.null;
                error := JS.str
                  "File not found by server (may be deleted by patch)" |}
    ∧ p ∉ failedFiles st'.
Proof.
  intros Hdir Htype Hroot Hfetch Hok Hjson Hsucc Hfiles Hp Habsent.
  enter_resolver.
  rewrite Hdir, Htype, Hroot. cbn [String.eqb Ascii.eqb Bool.eqb].
  destruct filePaths as [|p0 rest]; [by apply elem_of_nil in Hp|].
  cbn [map].
  change (PathUtils_join [root; p0]
          :: map (λ q, PathUtils_join [root; q]) rest)
    with (map (λ q, PathUtils_join [root; q]) (p0 :: rest)).
  unfold fetchBatch.
  change (baseEndpoint (set_failedFiles JsSet.empty st))
    with (baseEndpoint st).
  rewrite Hfetch, Hok, Hjson, Hsucc, Hfiles. cbn [negb].
  rewrite successful_batch.
  eexists _, _. split; [reflexivity|].
  cbn [failedFiles set_failedFiles fst snd]. split.
  - rewrite fold_perPath_lookup, decide_True by done.
    unfold batchEntry. by rewrite Habsent.
  - rewrite <- has_true, fold_perPath_failed.
    unfold batchFails. rewrite Habsent. cbn. by rewrite andb_false_r.
Qed.

(** The failing input: a.txt requested from /root, the service answering
    with success and no files. *)
Lemma left_out_of_answer_is_not_a_failure_witness :
  ∃ results st',
    fetchPatchRequiredFiles silentService store 1 ["a.txt"]
      (registry (Some 1%N))
    = (Normal results, st',
       [{| req_url := "http://localhost:3000/api/files";
           req_body := PathsBody ["/root/a.txt"] |}])
    ∧ results !! "a.txt"
      = Some {| content := JS.null;
                error := JS.str
                  "File not found by server (may be deleted by patch)" |}
    ∧ "a.txt" ∉ failedFiles st'.
Proof.
  eapply (left_out_of_answer_is_not_a_failure silentService store 1
            ["a.txt"] (registry (Some 1%N)) serverDir "/root");
    try reflexivity.
  by left.
Defined.

End ContentResolver.

(** ** The patch analyzer *)

Section PatchAnalyzer.
Import State Connection Db FileContent Patcher Samples.

Lemma truthy_nonempty (s : string) : JS.truthy s = true ↔ s ≠ "".
Proof. by destruct s. Qed.

Lemma elem_of_add (x y : string) (s : JsSet.t) :
  x ∈ JsSet.add y s ↔ x ∈ s ∨ x = y.
Proof.
  rewrite <- !has_true, has_add, orb_true_iff, String.eqb_eq. tauto.
Qed.

Lemma requireOld_elem (required : JsSet.t) (p : patch) (path : string) :
  path ∈ requireOld required p
  ↔ path ∈ required
    ∨ ∃ o, oldFileName p = Some o ∧ o ≠ "" ∧ o ≠ "/dev/null"
           ∧ path = stripPrefix "a/" o.
Proof.
  unfold requireOld. destruct (oldFileName p) as [o|].
  - destruct (JS.truthy o) eqn:T; cbn [andb].
    + destruct (String.eqb o "/dev/null") eqn:E; cbn [negb].
      * apply String.eqb_eq in E.
        split; [by left|]. intros [?|(o' & [= <-] & _ & ? & _)]; done.
      * apply String.eqb_neq in E. apply truthy_nonempty in T.
        rewrite elem_of_add. split.
        -- intros [?| ->]; [by left|right; eauto].
        -- intros [?|(o' & [= <-] & _ & _ & ->)]; [by left|by right].
    + split; [by left|]. intros [?|(o' & [= <-] & Hne & _)]; [done|].
      apply truthy_nonempty in Hne. congruence.
  - split; [by left|]. by intros [?|(o' & ? & _)].
Qed.

Lemma requireOld_NoDup (required : JsSet.t) (p : patch) :
  NoDup required → NoDup (requireOld required p).
Proof.
  intros H. unfold requireOld. destruct (oldFileName p) as [o|]; [|done].
  destruct (JS.truthy o && negb (String.eqb o "/dev/null")); [|done].
  by apply add_NoDup.
Qed.

Lemma fold_requireOld (parsedPatches : list patch) (required : JsSet.t) :
  NoDup required →
  NoDup (fold_left requireOld parsedPatches required)
  ∧ ∀ path,
      path ∈ fold_left requireOld parsedPatches required
      ↔ path ∈ required
        ∨ ∃ p o, p ∈ parsedPatches ∧ oldFileName p = Some o ∧ o ≠ ""
                 ∧ o ≠ "/dev/null" ∧ path = stripPrefix "a/" o.
Proof.
  revert required.
  induction parsedPatches as [|p0 rest IH]; intros required Hnd;
    cbn [fold_left].
  - split; [done|]. intros path. split; [by left|].
    by intros [?|(p & o & ?%elem_of_nil & _)].
  - destruct (IH _ (requireOld_NoDup required p0 Hnd)) as [H1 H2].
    split; [done|]. intros path. rewrite H2, requireOld_elem. split.
    + intros [[?|(o & ? & ? & ? & ?)]|(p & o & ? & ?)].
      * by left.
      * right. exists p0, o. split; [by left|done].
      * right. exists p, o. split; [by right|done].
    + intros [?|(p & o & [-> | ?]%elem_of_cons & ?)].
      * by left; left.
      * left; right. by exists o.
      * right. by exists p, o.
Qed.

(** C6. The required paths of a sequence of diff records are a list
    without duplicates; a path is in it exactly when it is the old file
    name of one of the records, present (not empty) and not '/dev/null',
    with a leading 'a/' removed: a name that starts with 'a/' loses these
    two characters and any other name is kept as it is. For one record
    from a/foo.txt to b/foo.txt the required paths are foo.txt alone. *)
Theorem requiredFilesRelative_spec (parsedPatches : list patch) :
  NoDup (requiredFilesRelative parsedPatches)
  ∧ (∀ path,
        path ∈ requiredFilesRelative parsedPatches
        ↔ ∃ p o, p ∈ parsedPatches ∧ oldFileName p = Some o ∧ o ≠ ""
                 ∧ o ≠ "/dev/null" ∧ path = stripPrefix "a/" o)
  ∧ (∀ rest, stripPrefix "a/" ("a/" +:+ rest) = rest)
  ∧ (∀ o, JS.startsWith o "a/" = true ∨ stripPrefix "a/" o = o)
  ∧ (∀ hs,
        requiredFilesRelative
          [{| oldFileName := Some "a/foo.txt";
              newFileName := Some "b/foo.txt";
              hunks := hs |}]
        = ["foo.txt"]).
Proof.
  destruct (fold_requireOld parsedPatches JsSet.empty (NoDup_nil_2)) as [H1 H2].
  split; [exact H1|]. split; [|split; [|split]].
  - intros path. unfold requiredFilesRelative.
    rewrite H2. split; [|by right].
    by intros [?%elem_of_nil|?].
  - intros [|c rest]; reflexivity.
  - intros o. unfold stripPrefix. destruct (JS.startsWith o "a/"); auto.
  - intros hs. reflexivity.
Qed.

End PatchAnalyzer.

(** ** The preview and the apply orchestrator *)

Section PreviewAndApply.
Import State Connection Db FileContent Patcher Samples.

Variable Diff_parsePatch : string → completion (option (list patch)).
Variable fetch : request → completion response.
Variable db : uploadedFilesDB.

(** Case analysis on every condition left in the goal. *)
Ltac case_ifs :=
  repeat match goal with
         | |- context [if ?b then _ else _] => destruct b
         end;
  reflexivity.

Lemma truthy_trim_empty (s : string) :
  JS.trim s = "" → JS.truthy (JS.trim s) = false.
Proof. by intros ->. Qed.

Lemma truthy_trim_nonempty (s : string) :
  JS.trim s ≠ "" → JS.truthy (JS.trim s) = true.
Proof. by destruct (JS.trim s). Qed.

Lemma precondition_messages_differ :
  NoDup ["Error: No project source selected.";
         "Error: Cannot apply patch to uploaded directories.";
         "Error: Selected source has no valid path.";
         "Error: Patch content is empty."].
Proof. apply (bool_decide_unpack _). by vm_compute. Qed.

(** C7. [applyPatch] and its four preconditions. Nothing selected gives
    'Error: No project source selected.'; a selected source of kind
    'uploaded' gives 'Error: Cannot apply patch to uploaded directories.';
    a selected source of another kind without a root path gives 'Error:
    Selected source has no valid path.'; with a root path and an empty
    (white-space) patch it gives 'Error: Patch content is empty.'. The four
    messages differ, each is flagged as an error, and whenever one of the
    four preconditions fails no request is sent. *)
Theorem applyPatch_preconditions (patchContent : string) (w : world) :
  let w' := applyPatch fetch patchContent w in
  (noSelection (st w) = true →
     applyStatusEl (page w')
     = {| textContent := "Error: No project source selected.";
          className := "error" |})
  ∧ (∀ dir,
       selectedSource (st w) = Some dir →
       (dir_type dir = "uploaded" →
          applyStatusEl (page w')
          = {| textContent := "Error: Cannot apply patch to uploaded directories.";
               className := "error" |})
       ∧ (dir_type dir ≠ "uploaded" → JS.truthy_opt (dir_path dir) = false →
          applyStatusEl (page w')
          = {| textContent := "Error: Selected source has no valid path.";
               className := "error" |})
       ∧ (dir_type dir ≠ "uploaded" → JS.truthy_opt (dir_path dir) = true →
          JS.trim patchContent = "" →
          applyStatusEl (page w')
          = {| textContent := "Error: Patch content is empty.";
               className := "error" |}))
  ∧ NoDup ["Error: No project source selected.";
           "Error: Cannot apply patch to uploaded directories.";
           "Error: Selected source has no valid path.";
           "Error: Patch content is empty."]
  ∧ (noSelection (st w) = true
     ∨ (∃ dir, selectedSource (st w) = Some dir
               ∧ (dir_type dir = "uploaded"
                  ∨ JS.truthy_opt (dir_path dir) = false))
     ∨ JS.trim patchContent = "" →
     calls w' = calls w
     ∧ className (applyStatusEl (page w')) = "error").
Proof.
  cbv zeta. unfold applyPatch, noSelection, selectedSource.
  destruct (selectedDirectoryId (st w)) as [[|sel]|] eqn:Hsel.
  1, 3: (split; [done|]; split; [done|]; split;
         [exact precondition_messages_differ|done]).
  split; [done|].
  destruct (findDirectory (N.pos sel) (st w)) as [dir|] eqn:Hdir.
  2: { split; [done|]. split; [exact precondition_messages_differ|done]. }
  destruct (String.eqb (dir_type dir) "uploaded") eqn:Hup.
  { apply String.eqb_eq in Hup.
    split; [|split; [exact precondition_messages_differ|done]].
    intros d [= <-]. by rewrite Hup. }
  apply String.eqb_neq in Hup.
  destruct (dir_path dir) as [[|c root]|] eqn:Hroot.
  1, 3: (split; [|split; [exact precondition_messages_differ|done]];
         intros d [= <-]; rewrite Hroot; done).
  destruct (JS.truthy (JS.trim patchContent)) eqn:Htrim; cbn [negb].
  - split; [|split; [exact precondition_messages_differ|]].
    + intros d [= <-]. split; [done|]. split.
      * intros _ E. by rewrite Hroot in E.
      * intros _ _ Hempty. by rewrite Hempty in Htrim.
    + intros [?|[(d & [= <-] & [?|E])|Hempty]]; try done.
      * by rewrite Hroot in E.
      * by rewrite Hempty in Htrim.
  - split; [|split; [exact precondition_messages_differ|done]].
    intros d [= <-]. by rewrite Hroot.
Qed.

Lemma calls_updateApplyButtonState t (w : world) :
  calls (updateApplyButtonState t w) = calls w.
Proof.
  unfold updateApplyButtonState.
  case_ifs.
Qed.

Lemma calls_reportApply resp data (w : world) :
  calls (reportApply resp data w) = calls w.
Proof.
  unfold reportApply.
  case_ifs.
Qed.

(** With a selected server directory that has a root path and a patch
    that is not empty, the apply service is contacted. *)
Lemma applyPatch_contacts_service (patchContent : string) (w : world) dir :
  selectedSource (st w) = Some dir → dir_type dir ≠ "uploaded" →
  JS.truthy_opt (dir_path dir) = true → JS.trim patchContent ≠ "" →
  ∃ req reqs, calls (applyPatch fetch patchContent w) = calls w ++ req :: reqs.
Proof.
  unfold applyPatch, selectedSource.
  destruct (selectedDirectoryId (st w)) as [[|sel]|]; try done.
  intros -> Hup%String.eqb_neq Hroot Htrim%truthy_trim_nonempty.
  rewrite Hup. destruct (dir_path dir) as [[|c root]|]; try done.
  rewrite Htrim. cbn [negb].
  destruct (tryFetchWithFallback fetch _ _) as [r reqs] eqn:T.
  assert (∃ req reqs', reqs = req :: reqs') as (req & reqs' & ->).
  { revert T. unfold tryFetchWithFallback.
    destruct (JS.startsWith _ "/"); [intros [= _ <-]; eauto|].
    destruct (fetch _) as [?|resp]; [intros [= _ <-]; eauto|].
    destruct (ok resp); intros [= _ <-]; eauto. }
  exists req, reqs'. rewrite calls_updateApplyButtonState.
  destruct r as [msg|resp]; [done|].
  destruct (json resp) as [msg|data]; [done|].
  by rewrite calls_reportApply.
Qed.

(** C2 (amended). A preview request with an empty (white-space) patch
    text leaves an empty preview body and the status 'Paste patch content
    to see preview.', which is not flagged as an error. A request with a
    non-empty text whose parsed records yield no required path leaves an
    empty preview body too, but its status is flagged as an error; when a
    source without an error is selected and the records pass the structure
    check, that status reads 'Patch seems empty or only affects
    /dev/null.'. In neither case is a request sent. *)
Theorem preview_of_nothing (patchContent : string) (w : world) :
  let w' := generatePatchPreview Diff_parsePatch fetch db patchContent w in
  (JS.trim patchContent = "" →
     patchPreviewEl (page w') = ""
     ∧ previewStatusEl (page w')
       = {| textContent := "Paste patch content to see preview.";
            className := "" |}
     ∧ calls w' = calls w)
  ∧ (∀ patches,
       JS.trim patchContent ≠ "" →
       Diff_parsePatch patchContent = Normal (Some patches) →
       requiredFilesRelative patches = [] →
       patchPreviewEl (page w') = ""
       ∧ className (previewStatusEl (page w')) = "error"
       ∧ calls w' = calls w
       ∧ (∀ dir,
            selectedSource (st w) = Some dir →
            JS.truthy_opt (dir_error dir) = false →
            structureValid patches = true →
            textContent (previewStatusEl (page w'))
            = "Patch seems empty or only affects /dev/null.")).
Proof.
  cbv zeta. unfold generatePatchPreview. split.
  - intros Hempty. by rewrite (truthy_trim_empty _ Hempty).
  - intros patches Htrim%truthy_trim_nonempty Hparse Hreq.
    rewrite Htrim. cbn [negb].
    change (selectedDirectoryId (st (clearPreview w)))
      with (selectedDirectoryId (st w)).
    unfold selectedSource.
    destruct (selectedDirectoryId (st w)) as [[|sel]|] eqn:Hsel; try done.
    change (findDirectory (N.pos sel) (st (clearPreview w)))
      with (findDirectory (N.pos sel) (st w)).
    destruct (findDirectory (N.pos sel) (st w)) as [dir|] eqn:Hdir; [|done].
    destruct (dir_error dir) as [[|c e]|] eqn:Herr.
    2: { do 3 (split; [done|]). intros d [= <-]. by rewrite Herr. }
    all: unfold parsePatch; rewrite Hparse, Htrim.
    all: destruct patches as [|p0 rest]; [done|].
    all: unfold structureValid.
    all: destruct (JS.truthy_opt (oldFileName p0)); cbn [negb orb andb]; [|done].
    all: destruct (JS.truthy_opt (newFileName p0)); cbn [negb orb andb]; [|done].
    all: destruct (bool_decide (is_Some (hunks p0))); cbn [negb orb andb]; [|done].
    all: by rewrite Hreq.
Qed.

End PreviewAndApply.

Section PreviewAndApplySamples.
Import State Connection Db FileContent Patcher Samples.

(** The four preconditions, each failing in turn. *)
Lemma applyPatch_preconditions_witness :
  (noSelection (registry None) = true
   ∧ applyStatusEl (page (applyPatch applyService creationPatch (world0 None)))
     = {| textContent := "Error: No project source selected.";
          className := "error" |})
  ∧ (selectedSource (registry (Some 3%N)) = Some uploadedDir
     ∧ applyStatusEl
         (page (applyPatch applyService creationPatch (world0 (Some 3%N))))
       = {| textContent := "Error: Cannot apply patch to uploaded directories.";
            className := "error" |})
  ∧ (selectedSource (registry (Some 2%N)) = Some rootlessDir
     ∧ applyStatusEl
         (page (applyPatch applyService creationPatch (world0 (Some 2%N))))
       = {| textContent := "Error: Selected source has no valid path.";
            className := "error" |})
  ∧ (selectedSource (registry (Some 1%N)) = Some serverDir
     ∧ JS.trim "  " = ""
     ∧ applyStatusEl (page (applyPatch applyService "  " (world0 (Some 1%N))))
       = {| textContent := "Error: Patch content is empty.";
            className := "error" |}
     ∧ calls (applyPatch applyService "  " (world0 (Some 1%N))) = []).
Proof.
  split; [|split; [|split]].
  - split; [reflexivity|].
    apply (proj1 (applyPatch_preconditions applyService creationPatch
                    (world0 None))).
    reflexivity.
  - split; [reflexivity|].
    apply (proj1 (proj1 (proj2 (applyPatch_preconditions applyService
                                  creationPatch (world0 (Some 3%N))))
                    uploadedDir eq_refl)).
    reflexivity.
  - split; [reflexivity|].
    apply (proj1 (proj2 (proj1 (proj2 (applyPatch_preconditions applyService
                                         creationPatch (world0 (Some 2%N))))
                           rootlessDir eq_refl))).
    + discriminate.
    + reflexivity.
  - split; [reflexivity|]. split; [reflexivity|]. split.
    + apply (proj2 (proj2 (proj1 (proj2 (applyPatch_preconditions applyService
                                           "  " (world0 (Some 1%N))))
                             serverDir eq_refl))).
      * discriminate.
      * reflexivity.
      * reflexivity.
    + apply (proj2 (proj2 (proj2 (applyPatch_preconditions applyService "  "
                                    (world0 (Some 1%N)))))).
      right; right. reflexivity.
Defined.

(** The same server directory with a patch: one request goes out. *)
Example applyPatch_sends :
  calls (applyPatch applyService creationPatch (world0 (Some 1%N)))
  = [{| req_url := "http://localhost:3000/api/apply_patch";
        req_body := ApplyBody "/root" creationPatch |}].
Proof. reflexivity. Qed.

(** A blank patch, and a patch that only creates a file. *)
Lemma preview_of_nothing_witness :
  (JS.trim "  " = ""
   ∧ patchPreviewEl
       (page (generatePatchPreview jsdiff offline store "  " (world0 (Some 1%N))))
     = ""
   ∧ previewStatusEl
       (page (generatePatchPreview jsdiff offline store "  " (world0 (Some 1%N))))
     = {| textContent := "Paste patch content to see preview.";
          className := "" |})
  ∧ (JS.trim creationPatch ≠ ""
     ∧ jsdiff creationPatch = Normal (Some [creationRecord])
     ∧ requiredFilesRelative [creationRecord] = []
     ∧ patchPreviewEl
         (page (generatePatchPreview jsdiff offline store creationPatch
                  (world0 (Some 1%N))))
       = ""
     ∧ className
         (previewStatusEl
            (page (generatePatchPreview jsdiff offline store creationPatch
                     (world0 (Some 1%N)))))
       = "error").
Proof.
  split.
  - split; [reflexivity|].
    destruct (proj1 (preview_of_nothing jsdiff offline store "  "
                       (world0 (Some 1%N))) eq_refl) as (H1 & H2 & _).
    split; [exact H1|exact H2].
  - assert (JS.trim creationPatch ≠ "") as Hne by (vm_compute; discriminate).
    split; [exact Hne|]. split; [reflexivity|]. split; [reflexivity|].
    destruct (proj2 (preview_of_nothing jsdiff offline store creationPatch
                       (world0 (Some 1%N))) [creationRecord] Hne eq_refl eq_refl)
      as (H1 & H2 & _).
    split; [exact H1|exact H2].
Defined.

(** C2, as stated, fails for a patch that only creates a file: its one
    record has the old name /dev/null, no path is required, the preview
    body is empty, and the status is flagged as an error. *)
Lemma preview_of_nothing_counterexample :
  requiredFilesRelative [creationRecord] = []
  ∧ patchPreviewEl
      (page (generatePatchPreview jsdiff offline store creationPatch
               (world0 (Some 1%N))))
    = ""
  ∧ previewStatusEl
      (page (generatePatchPreview jsdiff offline store creationPatch
               (world0 (Some 1%N))))
    = {| textContent := "Patch seems empty or only affects /dev/null.";
         className := "error" |}.
Proof. split; [reflexivity|]. split; reflexivity. Qed.

End PreviewAndApplySamples.

(** ** The source registry *)

Section SourceRegistry.
Import State Main Samples.

Lemma isSelected_firstId (d : directory) (ds : list directory) :
  existsb (isSelected (firstId (d :: ds))) (d :: ds) = true.
Proof. cbn. by rewrite N.eqb_refl. Qed.

(** Two levels of [renderDirectoriesList] always suffice; the state it
    leaves has the same sources and a valid selection, which is the old
    one when that was valid and the first source (or none) otherwise. *)
Lemma renderDirectoriesList_spec (fuel : nat) (st : state) :
  ∃ st',
    renderDirectoriesList (S (S fuel)) st = Some st'
    ∧ directories st' = directories st
    ∧ selectionValid st' = true
    ∧ selectedDirectoryId st'
      = if existsb (isSelected (selectedDirectoryId st)) (directories st)
        then selectedDirectoryId st
        else firstId (directories st).
Proof.
  cbn [renderDirectoriesList].
  destruct (directories st) as [|d ds] eqn:Hds.
  - eexists. split; [reflexivity|]. split; [done|]. split; [|done].
    unfold selectionValid.
    cbn [directories selectedDirectoryId set_selectedDirectoryId].
    by rewrite Hds.
  - destruct (existsb (isSelected (selectedDirectoryId st)) (d :: ds)) eqn:Hv;
      cbn [negb].
    + exists st. split; [reflexivity|]. split; [done|].
      split; [|done]. unfold selectionValid. by rewrite Hds.
    + cbn [renderDirectoriesList directories selectedDirectoryId
             set_selectedDirectoryId].
      rewrite Hds, isSelected_firstId. cbn [negb].
      eexists. split; [reflexivity|]. split; [done|]. split; [|done].
      unfold selectionValid.
      cbn [directories selectedDirectoryId set_selectedDirectoryId].
      rewrite Hds. apply isSelected_firstId.
Qed.

Lemma existsb_isSelected (s : N) (ds : list directory) :
  existsb (isSelected (Some s)) ds = true ↔ s ∈ map dir_id ds.
Proof.
  rewrite existsb_exists, list_elem_of_fmap. unfold isSelected. split.
  - intros (d & Hd%list_elem_of_In & E%N.eqb_eq). eauto.
  - intros (d & -> & Hd%list_elem_of_In). exists d. by rewrite N.eqb_refl.
Qed.

(** C8. Removing a source (the removal confirmed) ends, with two levels
    of rendering, in a state whose sources are the old ones without the
    removed id and whose selection is valid. If the removed source was the
    selected one, the first remaining source is selected, or nothing when
    none remains. If another, existing source was selected, it stays
    selected. *)
Theorem removeSource_selection (fuel : nat) (dirId : N) (st : state) :
  ∃ st',
    removeSource (S (S fuel)) dirId true st = Some st'
    ∧ directories st'
      = List.filter (λ d, negb (N.eqb (dir_id d) dirId)) (directories st)
    ∧ selectionValid st' = true
    ∧ (selectedDirectoryId st = Some dirId →
       selectedDirectoryId st'
       = match directories st' with
         | [] => None
         | d :: _ => Some (dir_id d)
         end)
    ∧ (∀ s, selectedDirectoryId st = Some s → s ≠ dirId →
            s ∈ map dir_id (directories st) →
            selectedDirectoryId st' = Some s).
Proof.
  unfold removeSource.
  set (ds := List.filter (λ d, negb (N.eqb (dir_id d) dirId)) (directories st)).
  cbn [selectedDirectoryId directories set_directories].
  destruct (selectedDirectoryId st) as [s|] eqn:Hsel.
  - destruct (N.eqb s dirId) eqn:E.
    + apply N.eqb_eq in E. subst s.
      destruct (renderDirectoriesList_spec fuel
                  (set_selectedDirectoryId (firstId ds)
                     (set_directories ds st)))
        as (st' & -> & Hd & Hv & Hs).
      cbn [selectedDirectoryId directories set_directories
             set_selectedDirectoryId] in Hd, Hs.
      exists st'. split; [done|]. split; [done|]. split; [done|]. split.
      * intros _. rewrite Hs, Hd. destruct ds as [|d ds']; [done|].
        by rewrite isSelected_firstId.
      * intros s [= ->] Hne. done.
    + apply N.eqb_neq in E.
      destruct (renderDirectoriesList_spec fuel (set_directories ds st))
        as (st' & -> & Hd & Hv & Hs).
      cbn [selectedDirectoryId directories set_directories] in Hd, Hs.
      rewrite Hsel in Hs.
      exists st'. split; [done|]. split; [done|]. split; [done|]. split.
      * intros [= ->]. done.
      * intros s' [= <-] _ Hin. rewrite Hs.
        assert (existsb (isSelected (Some s)) ds = true) as ->; [|done].
        apply existsb_isSelected. apply list_elem_of_fmap.
        apply list_elem_of_fmap in Hin as (d & -> & Hd').
        exists d. split; [done|]. apply list_elem_of_In, filter_In.
        split; [by apply list_elem_of_In|].
        apply negb_true_iff, N.eqb_neq. congruence.
  - destruct (renderDirectoriesList_spec fuel (set_directories ds st))
      as (st' & -> & Hd & Hv & Hs).
    cbn [selectedDirectoryId directories set_directories] in Hd.
    exists st'. by repeat (split; [done|]).
Qed.

(** Source 1 is removed from the sample registry, once while it is selected
    and once while source 3 is. *)
Lemma removeSource_selection_witness :
  (∃ st',
     removeSource 2 1 true (registry (Some 1%N)) = Some st'
     ∧ map dir_id (directories st') = [2%N; 3%N]
     ∧ selectedDirectoryId st' = Some 2%N)
  ∧ (∃ st',
       removeSource 2 1 true (registry (Some 3%N)) = Some st'
       ∧ selectedDirectoryId st' = Some 3%N).
Proof.
  split.
  - destruct (removeSource_selection 0 1 (registry (Some 1%N)))
      as (st' & Heq & Hd & _ & Hsel & _).
    exists st'. split; [exact Heq|]. specialize (Hsel eq_refl).
    rewrite Hd in Hsel |- *. split; [reflexivity|exact Hsel].
  - destruct (removeSource_selection 0 1 (registry (Some 3%N)))
      as (st' & Heq & _ & _ & _ & Hkeep).
    exists st'. split; [exact Heq|].
    apply Hkeep; [reflexivity|discriminate|].
    by apply (bool_decide_unpack _).
Defined.

(** Removing the only source leaves nothing selected. *)
Example removeSource_last :
  removeSource 2 1 true
    {| directories := [serverDir]; selectedDirectoryId := Some 1%N;
       baseEndpoint := "/"; failedFiles := []; patchContent := "" |}
  = Some {| directories := []; selectedDirectoryId := None;
            baseEndpoint := "/"; failedFiles := []; patchContent := "" |}.
Proof. reflexivity. Qed.

End SourceRegistry.

(** * Further properties *)

(** ** Strings *)

Section StringFacts.

Lemma app_cons (c : ascii) (s t : string) : String c s +:+ t = String c (s +:+ t).
Proof. reflexivity. Qed.

Lemma app_empty_l (s : string) : "" +:+ s = s.
Proof. reflexivity. Qed.

Lemma app_empty_r (s : string) : s +:+ "" = s.
Proof. induction s as [|c s IH]; [done|]. by rewrite app_cons, IH. Qed.

Lemma app_assoc_s (s t u : string) : (s +:+ t) +:+ u = s +:+ t +:+ u.
Proof. induction s as [|c s IH]; [done|]. by rewrite !app_cons, IH. Qed.

Lemma all_app f (s t : string) :
  Chars.all f (s +:+ t) = Chars.all f s && Chars.all f t.
Proof.
  induction s as [|c s IH]; [done|].
  rewrite app_cons. simpl. by rewrite IH, andb_assoc.
Qed.

Lemma prefix_empty (s : string) : String.prefix "" s = true.
Proof. by destruct s. Qed.

Lemma prefix_cons (c d : ascii) (s t : string) :
  String.prefix (String c s) (String d t)
  = Ascii.eqb c d && String.prefix s t.
Proof.
  simpl. destruct (ascii_dec c d) as [->|Hne].
  - by rewrite Ascii.eqb_refl.
  - by rewrite (proj2 (Ascii.eqb_neq c d) Hne).
Qed.

End StringFacts.

(** ** The transport *)

Section TransportFacts.
Import Connection.

Variable fetch : request → completion response.

Lemma tryFetchWithFallback_sent (url : string) (b : body) :
  let first := {| req_url := url; req_body := b |} in
  let second :=
    {| req_url := JS.replace_first "https://" "http://" url; req_body := b |} in
  (tryFetchWithFallback fetch url b).2 = [first]
  ∨ (tryFetchWithFallback fetch url b).2 = [first; second].
Proof.
  cbv zeta. unfold tryFetchWithFallback.
  destruct (JS.startsWith url "/"); [by left|].
  destruct (fetch {| req_url := url; req_body := b |}) as [msg|resp];
    [by right|].
  destruct (ok resp); [by left | by right].
Qed.

(** X1. What [tryFetchWithFallback] sends. It sends the request for the URL
    it was given and at most one more, the same request with the first
    'https://' of the URL replaced by 'http://'. The second request is sent
    exactly when the URL does not start with '/' and the first attempt threw
    or came back not ok. What it returns is the outcome of the last request
    it sent. *)
Theorem tryFetchWithFallback_requests (url : string) (b : body) :
  let first := {| req_url := url; req_body := b |} in
  let second :=
    {| req_url := JS.replace_first "https://" "http://" url; req_body := b |} in
  let result := tryFetchWithFallback fetch url b in
  (result.2 = [first] ∨ result.2 = [first; second])
  ∧ result.1 = fetch (List.last result.2 first)
  ∧ (result.2 = [first; second]
     ↔ JS.startsWith url "/" = false
       ∧ ¬ ∃ resp, fetch first = Normal resp ∧ ok resp = true).
Proof.
  cbv zeta. unfold tryFetchWithFallback.
  destruct (JS.startsWith url "/") eqn:Hrel.
  - split; [by left|]. split; [done|]. split; [done|]. by intros [? _].
  - destruct (fetch {| req_url := url; req_body := b |}) as [msg|resp] eqn:E.
    + split; [by right|]. split; [done|]. split; [|done].
      intros _. split; [done|]. by intros (resp & ? & _).
    + destruct (ok resp) eqn:Hok.
      * split; [by left|]. split; [done|]. split; [done|].
        intros [_ H]. destruct H. eauto.
      * split; [by right|]. split; [done|]. split; [|done].
        intros _. split; [done|]. intros (resp' & [= <-] & ?). congruence.
Qed.

End TransportFacts.

(** ** Joining paths *)

Section PathJoin.
Import FileContent JoinParts.

Lemma fold_left_slashed (ps : list string) (r0 : string) :
  fold_left (λ r p, r +:+ "/" +:+ p) ps r0 = r0 +:+ slashed ps.
Proof.
  revert r0. induction ps as [|p r IH]; intros r0; simpl.
  - by rewrite app_empty_r.
  - rewrite IH. by rewrite !app_assoc_s.
Qed.

Lemma join_slashed (p : string) (ps : list string) :
  JS.join "/" (p :: ps) = p +:+ slashed ps.
Proof.
  revert p. induction ps as [|q r IH]; intros p.
  - simpl. by rewrite app_empty_r.
  - change (JS.join "/" (p :: q :: r)) with (p +:+ "/" +:+ JS.join "/" (q :: r)).
    by rewrite IH.
Qed.

Lemma split_go_free (cur : string) (s : string) :
  free cur = true →
  Forall (λ x, free x = true) (JS.split_go JS.is_slash_or_backslash cur s).
Proof.
  unfold free. revert cur. induction s as [|c s IH]; intros cur Hcur; simpl.
  - by constructor.
  - destruct (JS.is_slash_or_backslash c) eqn:E.
    + constructor; [done|]. by apply IH.
    + apply IH. rewrite all_app, Hcur. simpl. by rewrite E.
Qed.

Lemma joinParts_segments (args : list string) :
  Forall (λ p, isSegment p = true) (joinParts args).
Proof.
  unfold joinParts, JS.filter_Boolean.
  apply List.Forall_forall. intros p [Hin Ht]%filter_In.
  unfold isSegment, Chars.segment. rewrite Ht. simpl.
  apply in_flat_map in Hin as (a & _ & Hp).
  pose proof (split_go_free "" a eq_refl) as H.
  rewrite List.Forall_forall in H. by apply (H p).
Qed.

Lemma not_sep_not_slash (c : ascii) : JS.is_slash_or_backslash c = false → JS.is_slash c = false.
Proof. unfold JS.is_slash_or_backslash, JS.is_slash. by intros [? _]%orb_false_iff. Qed.

Lemma collapse_free_app (p s : string) :
  free p = true →
  JS.collapse_slashes (p +:+ s) = p +:+ JS.collapse_slashes s.
Proof.
  unfold free. induction p as [|c p IH]; [done|]. simpl.
  intros [Hc Hp]%andb_true_iff. apply negb_true_iff, not_sep_not_slash in Hc.
  rewrite !app_cons. simpl. by rewrite Hc, IH.
Qed.

Lemma collapse_slashed (ps : list string) :
  Forall (λ p, isSegment p = true) ps →
  JS.collapse_slashes (slashed ps) = slashed ps.
Proof.
  induction 1 as [|p r Hp _ IH]; [done|].
  apply andb_true_iff in Hp as [Ht Hfree]. fold (free p) in Hfree.
  destruct p as [|c p]; [done|].
  assert (JS.is_slash c = false) as Hc.
  { simpl in Hfree. apply andb_true_iff in Hfree as [Hc _].
    by apply negb_true_iff, not_sep_not_slash in Hc. }
  change (slashed (String c p :: r))
    with (String "/" (String c (p +:+ slashed r))).
  change (JS.collapse_slashes (String "/" (String c (p +:+ slashed r))))
    with (if JS.is_slash c
          then JS.collapse_slashes (String c (p +:+ slashed r))
          else String "/" (JS.collapse_slashes (String c (p +:+ slashed r)))).
  rewrite Hc. f_equal.
  change (String c (p +:+ slashed r)) with (String c p +:+ slashed r).
  by rewrite collapse_free_app, IH.
Qed.

Lemma PathUtils_join_joined (args : list string) :
  PathUtils_join args = leadingSlash args +:+ JS.join "/" (joinParts args).
Proof.
  pose proof (joinParts_segments args) as Hseg.
  unfold PathUtils_join, leadingSlash. fold (joinParts args).
  destruct (joinParts args) as [|p0 ps] eqn:E.
  - simpl. by destruct (JS.startsWith (List.hd "" args) "/").
  - cbn [List.tl]. rewrite fold_left_slashed, join_slashed.
    apply Forall_cons in Hseg as [Hp0 Hps].
    pose proof Hp0 as [Ht Hfree]%andb_true_iff. fold (free p0) in Hfree.
    destruct (JS.startsWith (List.hd "" args) "/").
    + destruct p0 as [|c p0]; [done|].
      assert (JS.is_slash c = false) as Hc.
      { simpl in Hfree. apply andb_true_iff in Hfree as [Hc _].
        by apply negb_true_iff, not_sep_not_slash in Hc. }
      rewrite app_assoc_s.
      change ("/" +:+ String c p0 +:+ slashed ps)
        with (String "/" (String c (p0 +:+ slashed ps))).
      change (JS.collapse_slashes (String "/" (String c (p0 +:+ slashed ps))))
        with (if JS.is_slash c
              then JS.collapse_slashes (String c (p0 +:+ slashed ps))
              else String "/"
                     (JS.collapse_slashes (String c (p0 +:+ slashed ps)))).
      rewrite Hc. f_equal.
      change (String c (p0 +:+ slashed ps)) with (String c p0 +:+ slashed ps).
      by rewrite collapse_free_app, collapse_slashed.
    + by rewrite collapse_free_app, collapse_slashed.
Qed.

(** X2. The closed form of [PathUtils.join] for a call with at least one
    argument: a slash if the first argument starts with one, then the
    segments of all arguments (the non-empty pieces between slashes and
    backslashes) joined by single slashes. The final replacement of slash
    runs never finds one. *)
Theorem PathUtils_join_closed_form (args : list string) :
  args ≠ [] →
  PathUtils_join args = leadingSlash args +:+ JS.join "/" (joinParts args)
  ∧ Forall (λ p, isSegment p = true) (joinParts args).
Proof.
  intros _. split; [apply PathUtils_join_joined | apply joinParts_segments].
Qed.

(** A root with a doubled slash and a backslash, and a relative path. *)
Lemma PathUtils_join_closed_form_witness :
  PathUtils_join ["/srv//app\\"; "src/a.js"] = "/srv/app/src/a.js"
  ∧ joinParts ["/srv//app\\"; "src/a.js"] = ["srv"; "app"; "src"; "a.js"].
Proof.
  assert (["/srv//app\\"; "src/a.js"] ≠ []) as Hne by discriminate.
  split; [|reflexivity].
  rewrite (proj1 (PathUtils_join_closed_form _ Hne)). reflexivity.
Defined.

Lemma split_go_free_app (cur p s : string) :
  free p = true →
  JS.split_go JS.is_slash_or_backslash cur (p +:+ s) = JS.split_go JS.is_slash_or_backslash (cur +:+ p) s.
Proof.
  unfold free. revert cur. induction p as [|c p IH]; intros cur.
  - by rewrite app_empty_r.
  - cbn [Chars.all]. intros [Hc Hp]%andb_true_iff. apply negb_true_iff in Hc.
    rewrite app_cons. cbn [JS.split_go]. rewrite Hc, IH by done.
    by rewrite app_assoc_s.
Qed.

Lemma split_go_slashed (cur : string) (ps : list string) :
  Forall (λ p, isSegment p = true) ps →
  JS.split_go JS.is_slash_or_backslash cur (slashed ps) = cur :: ps.
Proof.
  intros H. revert cur. induction H as [|p r Hp _ IH]; intros cur; [done|].
  apply andb_true_iff in Hp as [_ Hfree]. fold (free p) in Hfree.
  change (slashed (p :: r)) with (String "/" (p +:+ slashed r)).
  simpl. by rewrite split_go_free_app, IH.
Qed.

Lemma filter_Boolean_segments (ps : list string) :
  Forall (λ p, isSegment p = true) ps → JS.filter_Boolean ps = ps.
Proof.
  induction 1 as [|p r Hp _ IH]; [done|].
  apply andb_true_iff in Hp as [Ht _].
  unfold JS.filter_Boolean in *. simpl. by rewrite Ht, IH.
Qed.

(** X3. Joining is a normalisation: the path joined from at least one
    argument, joined again on its own, stays as it is. *)
Theorem PathUtils_join_idempotent (args : list string) :
  args ≠ [] →
  PathUtils_join [PathUtils_join args] = PathUtils_join args.
Proof.
  intros _.
  pose proof (PathUtils_join_joined args) as Hform.
  pose proof (joinParts_segments args) as Hseg.
  rewrite (PathUtils_join_joined [PathUtils_join args]).
  rewrite Hform.
  assert (joinParts [leadingSlash args +:+ JS.join "/" (joinParts args)]
          = joinParts args) as ->.
  { unfold joinParts at 1. simpl. rewrite app_nil_r. unfold JS.split.
    destruct (joinParts args) as [|p0 ps] eqn:E.
    - unfold leadingSlash. by destruct (JS.startsWith _ "/").
    - rewrite join_slashed.
      apply Forall_cons in Hseg as [Hp0 Hps].
      pose proof Hp0 as [Ht Hfree]%andb_true_iff. fold (free p0) in Hfree.
      unfold leadingSlash. destruct (JS.startsWith _ "/").
      + change ("/" +:+ p0 +:+ slashed ps)
          with (String "/" (p0 +:+ slashed ps)).
        simpl. rewrite split_go_free_app, split_go_slashed by done.
        rewrite app_empty_l.
        unfold JS.filter_Boolean. simpl. rewrite Ht.
        f_equal. by apply filter_Boolean_segments.
      + rewrite app_empty_l, split_go_free_app, split_go_slashed by done.
        rewrite app_empty_l.
        unfold JS.filter_Boolean. simpl. rewrite Ht.
        f_equal. by apply filter_Boolean_segments. }
  f_equal. unfold leadingSlash at 1. simpl.
  unfold leadingSlash. destruct (JS.startsWith (List.hd "" args) "/") eqn:Hs.
  - unfold JS.startsWith. by rewrite app_cons, prefix_cons, prefix_empty.
  - rewrite app_empty_l. destruct (joinParts args) as [|p0 ps] eqn:E; [done|].
    apply Forall_cons in Hseg as [Hp0 _].
    apply andb_true_iff in Hp0 as [Ht Hfree].
    destruct p0 as [|c p0]; [done|].
    rewrite join_slashed. unfold JS.startsWith.
    rewrite app_cons, prefix_cons.
    simpl in Hfree. apply andb_true_iff in Hfree as [Hc _].
    apply negb_true_iff, not_sep_not_slash in Hc.
    unfold JS.is_slash in Hc. by rewrite Ascii.eqb_sym, Hc.
Qed.

(** A relative path with a doubled slash. *)
Lemma PathUtils_join_idempotent_witness :
  PathUtils_join [PathUtils_join ["src//lib"; "a.js"]]
  = PathUtils_join ["src//lib"; "a.js"]
  ∧ PathUtils_join ["src//lib"; "a.js"] = "src/lib/a.js".
Proof.
  split; [|reflexivity].
  apply (PathUtils_join_idempotent ["src//lib"; "a.js"]). discriminate.
Defined.

Lemma split_go_snoc_slash (cur s : string) :
  JS.split_go JS.is_slash_or_backslash cur (s +:+ "/") = JS.split_go JS.is_slash_or_backslash cur s ++ [""].
Proof.
  revert cur. induction s as [|c s IH]; intros cur; [done|].
  rewrite app_cons. simpl. destruct (JS.is_slash_or_backslash c); by rewrite IH.
Qed.

(** X4. A slash at the end of the root makes no difference to the joined
    path. *)
Theorem PathUtils_join_trailing_slash (root p : string) :
  root ≠ "" →
  PathUtils_join [root +:+ "/"; p] = PathUtils_join [root; p].
Proof.
  intros Hroot.
  rewrite (PathUtils_join_joined [root +:+ "/"; p]).
  rewrite (PathUtils_join_joined [root; p]).
  f_equal.
  - unfold leadingSlash. simpl. destruct root as [|c root]; [done|].
    unfold JS.startsWith. by rewrite app_cons, !prefix_cons, !prefix_empty.
  - f_equal. unfold joinParts, JS.filter_Boolean. simpl. unfold JS.split.
    rewrite split_go_snoc_slash, !List.filter_app. simpl.
    by rewrite app_nil_r.
Qed.

Lemma PathUtils_join_trailing_slash_witness :
  "/root" ≠ ""
  ∧ PathUtils_join ["/root" +:+ "/"; "src/a.js"]
    = PathUtils_join ["/root"; "src/a.js"].
Proof.
  split; [discriminate|].
  apply (PathUtils_join_trailing_slash "/root" "src/a.js"). discriminate.
Defined.

End PathJoin.

(** ** The keys of the uploaded-file store *)

Section StoreKeys.
Import Db.

Lemma pretty_N_go_digits (x : N) (s : string) :
  Chars.all Chars.is_digit s = true →
  Chars.all Chars.is_digit (pretty_N_go x s) = true.
Proof.
  revert s. induction (N.lt_wf_0 x) as [x _ IH]; intros s Hs.
  destruct (decide (x = 0)%N) as [->|Hx]; [by rewrite pretty_N_go_0|].
  rewrite pretty_N_go_step by lia. apply IH.
  - apply N.div_lt; lia.
  - cbn [Chars.all]. rewrite Hs, andb_true_r.
    unfold pretty_N_char. by repeat case_match.
Qed.

Lemma pretty_N_digits (n : N) : Chars.all Chars.is_digit (pretty n) = true.
Proof.
  unfold pretty, pretty_N. destruct (decide (n = 0)%N); [done|].
  by apply pretty_N_go_digits.
Qed.

Lemma digits_then_colon (a b x y : string) :
  Chars.all Chars.is_digit a = true → Chars.all Chars.is_digit b = true →
  a +:+ ":" +:+ x = b +:+ ":" +:+ y → a = b ∧ x = y.
Proof.
  revert b. induction a as [|c a IH]; intros [|d b] Ha Hb;
    rewrite ?app_cons, ?app_empty_l.
  - by intros [= ->].
  - intros [= <- _]. cbn [Chars.all] in Hb. by apply andb_true_iff in Hb as [? _].
  - intros [= -> _]. cbn [Chars.all] in Ha. by apply andb_true_iff in Ha as [? _].
  - cbn [Chars.all] in Ha, Hb.
    apply andb_true_iff in Ha as [_ Ha], Hb as [_ Hb].
    intros [= -> H]. destruct (IH b Ha Hb) as [-> ->]; [|done].
    by rewrite ?app_cons, ?app_empty_l.
Qed.

Lemma key_inj (d1 d2 : N) (p1 p2 : string) :
  key d1 p1 = key d2 p2 → d1 = d2 ∧ p1 = p2.
Proof.
  unfold key. intros H.
  apply digits_then_colon in H as [Hd ->]; try apply pretty_N_digits.
  split; [|done]. by apply (inj pretty).
Qed.

(** X5. The store key of an uploaded file determines the source and the
    path: two lookups read the same record only when they name the same
    source and the same path. *)
Theorem key_injective (d1 d2 : N) (p1 p2 : string) :
  key d1 p1 = key d2 p2 ↔ d1 = d2 ∧ p1 = p2.
Proof. split; [apply key_inj | by intros [-> ->]]. Qed.

End StoreKeys.

(** ** Escaping *)

Section Escaping.
Import Patcher Escape.

Lemma replaceAll_app (c : ascii) (b s t : string) :
  replaceAll c b (s +:+ t) = replaceAll c b s +:+ replaceAll c b t.
Proof.
  induction s as [|a s IH]; [done|].
  rewrite app_cons. cbn [replaceAll]. by rewrite IH, app_assoc_s.
Qed.

Lemma replaceAll_other (c a : ascii) (b : string) :
  Ascii.eqb a c = false → replaceAll c b (String a "") = String a "".
Proof. intros H. cbn [replaceAll]. by rewrite H. Qed.

(** The five replacements without the guard. *)
Lemma chain_char (a : ascii) :
  replaceAll "'" "&#039;"
    (replaceAll "034" "&quot;"
       (replaceAll ">" "&gt;"
          (replaceAll "<" "&lt;" (replaceAll "&" "&amp;" (String a "")))))
  = escapeHtml (String a "").
Proof.
  cbn [escapeHtml]. rewrite app_empty_r.
  destruct (Ascii.eqb a "&") eqn:E1; [by apply Ascii.eqb_eq in E1 as ->|].
  destruct (Ascii.eqb a "<") eqn:E2; [by apply Ascii.eqb_eq in E2 as ->|].
  destruct (Ascii.eqb a ">") eqn:E3; [by apply Ascii.eqb_eq in E3 as ->|].
  destruct (Ascii.eqb a "034") eqn:E4; [by apply Ascii.eqb_eq in E4 as ->|].
  destruct (Ascii.eqb a "'") eqn:E5; [by apply Ascii.eqb_eq in E5 as ->|].
  by rewrite !replaceAll_other.
Qed.

Lemma escapeHtml_cons (a : ascii) (s : string) :
  escapeHtml (String a s) = escapeHtml (String a "") +:+ escapeHtml s.
Proof. cbn [escapeHtml]. by rewrite app_empty_r. Qed.

(** X6. The chain of five global replacements that [escapeHtml] applies is
    one pass over the characters: '&', '<', '>', the double quote and the
    apostrophe become their entities, in place, and no replacement rewrites
    the output of an earlier one. *)
Theorem escapeHtml_chain_one_pass (unsafe : string) :
  escapeHtml_chain unsafe = escapeHtml unsafe.
Proof.
  unfold escapeHtml_chain. destruct unsafe as [|a0 s0]; [done|].
  cbn [JS.truthy negb]. generalize (String a0 s0). clear.
  induction s as [|a s IH]; [done|].
  change (String a s) with (String a "" +:+ s) at 1.
  rewrite !replaceAll_app, IH, chain_char. by rewrite <- escapeHtml_cons.
Qed.

Lemma escapeHtml_char_markup_free (a : ascii) :
  Chars.all (λ c, negb (markup c)) (escapeHtml (String a "")) = true.
Proof.
  cbn [escapeHtml]. rewrite app_empty_r.
  destruct (Ascii.eqb a "&") eqn:E1; [done|].
  destruct (Ascii.eqb a "<") eqn:E2; [done|].
  destruct (Ascii.eqb a ">") eqn:E3; [done|].
  destruct (Ascii.eqb a "034") eqn:E4; [done|].
  destruct (Ascii.eqb a "'") eqn:E5; [done|].
  cbn [Chars.all]. unfold markup. by rewrite E2, E3, E4, E5.
Qed.

Lemma escapeHtml_no_markup (unsafe : string) :
  Chars.all (λ c, negb (markup c)) (escapeHtml unsafe) = true.
Proof.
  induction unsafe as [|a s IH]; [done|].
  by rewrite escapeHtml_cons, all_app, escapeHtml_char_markup_free, IH.
Qed.

(** X7. Escaped text holds no '<', no '>', no double quote and no
    apostrophe; text that holds none of the five rewritten characters is
    returned as it is. *)
Theorem escapeHtml_markup_free (unsafe : string) :
  Chars.all (λ c, negb (markup c)) (escapeHtml unsafe) = true
  ∧ (Chars.all (λ c, negb (rewritten c)) unsafe = true →
     escapeHtml unsafe = unsafe).
Proof.
  split; [apply escapeHtml_no_markup|].
  - induction unsafe as [|a s IH]; [done|].
    cbn [Chars.all]. intros [Ha Hs]%andb_true_iff.
    rewrite escapeHtml_cons, (IH Hs). cbn [escapeHtml].
    unfold rewritten, markup in Ha.
    apply negb_true_iff, orb_false_iff in Ha as [E1 Ha].
    apply orb_false_iff in Ha as [Ha E5].
    apply orb_false_iff in Ha as [Ha E4].
    apply orb_false_iff in Ha as [E2 E3].
    by rewrite E1, E2, E3, E4, E5.
Qed.

Lemma escapeHtml_markup_free_witness :
  Chars.all (λ c, negb (rewritten c)) "plain text" = true
  ∧ escapeHtml "plain text" = "plain text".
Proof.
  split; [reflexivity|].
  apply (proj2 (escapeHtml_markup_free "plain text")). reflexivity.
Defined.

(** X8. A line of a hunk is rendered as one span of class diff-added,
    diff-removed or diff-context, followed by a line feed, whatever its
    first character is; the text inside the span holds no '<', '>', double
    quote or apostrophe. *)
Theorem renderLine_span (line : string) :
  ∃ cls body,
    renderLine line = tag "span" cls body +:+ nl
    ∧ cls ∈ ["diff-added"; "diff-removed"; "diff-context"]
    ∧ Chars.all (λ c, negb (markup c)) body = true.
Proof.
  unfold renderLine.
  pose proof (escapeHtml_no_markup (JS.substring_from 1 line)) as H1.
  pose proof (escapeHtml_no_markup line) as H2.
  destruct (JS.charAt0 line) as [c|].
  - destruct (Ascii.eqb c "+") eqn:E1.
    { apply Ascii.eqb_eq in E1 as ->. eexists _, _. split; [done|].
      split; [set_solver|]. by rewrite all_app, H1. }
    destruct (Ascii.eqb c "-") eqn:E2.
    { apply Ascii.eqb_eq in E2 as ->. eexists _, _. split; [done|].
      split; [set_solver|]. by rewrite all_app, H1. }
    destruct (Ascii.eqb c " ") eqn:E3.
    { apply Ascii.eqb_eq in E3 as ->. eexists _, _. split; [done|].
      split; [set_solver|]. by rewrite all_app, H1. }
    exists "diff-context", (escapeHtml line). split; [|split; [set_solver|done]].
    apply Ascii.eqb_neq in E1, E2, E3.
    destruct c as [[] [] [] [] [] [] [] []]; try done.
  - eexists _, _. split; [done|]. split; [set_solver|done].
Qed.

End Escaping.

(** ** More on the content resolver *)

Section ResolverFacts.
Import State Connection Db FileContent.

Variable fetch : request → completion response.
Variable db : uploadedFilesDB.

Ltac open_resolver :=
  unfold fetchPatchRequiredFiles;
  match goal with
  | |- context [findDirectory ?d (set_failedFiles JsSet.empty ?s)] =>
      change (findDirectory d (set_failedFiles JsSet.empty s))
        with (findDirectory d s)
  end.

(** A call that fails nothing and sends nothing. *)
Ltac quiet_case :=
  cbn; repeat split;
  [ done .. | apply NoDup_nil_2 | by intros ? ?%elem_of_nil | lia
  | by intros ? ?%elem_of_nil ].

Lemma fetchBatch_requests st (filePaths absolutePaths : list string) :
  (fetchBatch fetch st filePaths absolutePaths).2
  = (tryFetchWithFallback fetch (baseEndpoint st +:+ "/api/files")
       (PathsBody absolutePaths)).2.
Proof.
  unfold fetchBatch.
  destruct (tryFetchWithFallback fetch _ _) as [[msg|resp] reqs]; [done|].
  destruct (ok resp); [|done]. cbn [negb].
  destruct (json resp) as [msg|data]; [done|].
  by destruct (rd_success data), (rd_files data).
Qed.

Lemma perPath_failed_requested (entry : string → fileData)
    (fails : string → bool) (paths : list string) :
  let a := fold_left (perPath entry fails) paths (∅, JsSet.empty) in
  NoDup a.2 ∧ ∀ p, p ∈ a.2 → p ∈ paths.
Proof.
  split.
  - apply fold_perPath_NoDup. constructor.
  - intros p Hp%has_true. rewrite fold_perPath_failed in Hp.
    apply orb_true_iff in Hp as [Hp|Hp]; [done|].
    apply andb_true_iff in Hp as [Hp _]. by apply bool_decide_eq_true in Hp.
Qed.

Lemma fetchPatchRequiredFiles_effects (dirId : N) (filePaths : list string)
    (st : state) :
  let result := fetchPatchRequiredFiles fetch db dirId filePaths st in
  let st' := result.1.2 in
  directories st' = directories st
  ∧ selectedDirectoryId st' = selectedDirectoryId st
  ∧ baseEndpoint st' = baseEndpoint st
  ∧ patchContent st' = patchContent st
  ∧ NoDup (failedFiles st')
  ∧ (∀ p, p ∈ failedFiles st' → p ∈ filePaths)
  ∧ length result.2 ≤ 2
  ∧ (∀ req, req ∈ result.2 →
       ∃ dir root,
         findDirectory dirId st = Some dir ∧ dir_type dir = "path"
         ∧ dir_path dir = Some root
         ∧ req_body req
           = PathsBody (map (λ p, PathUtils_join [root; p]) filePaths)).
Proof.
  cbv zeta. open_resolver.
  assert (∀ (entry : string → fileData) (fails : string → bool),
            let a := fold_left (perPath entry fails) filePaths (∅, JsSet.empty) in
            NoDup a.2 ∧ ∀ p, p ∈ a.2 → p ∈ filePaths) as Hloop
    by (intros entry fails; apply (perPath_failed_requested entry fails filePaths)).
  assert (∀ req : request, req ∈ @nil request → False) as Hnil
    by (intros req H; by apply elem_of_nil in H).
  destruct (findDirectory dirId st) as [dir|] eqn:Hdir.
  - destruct (String.eqb (dir_type dir) "uploaded") eqn:Eu.
    { cbn [fst snd failedFiles set_failedFiles directories selectedDirectoryId
             baseEndpoint patchContent length].
      rewrite (fold_left_ext_acc _ _ _ _ (fetchUploaded_perPath db (dir_id dir))).
      destruct (Hloop (uploadedEntry db (dir_id dir))
                  (uploadedFails db (dir_id dir))) as [H1 H2].
      repeat (split; [done || lia|]). intros req H. by destruct (Hnil req). }
    destruct (String.eqb (dir_type dir) "path") eqn:Ep.
    + apply String.eqb_eq in Ep.
      destruct (dir_path dir) as [root|] eqn:Hroot.
      * destruct filePaths as [|p0 rest].
        { quiet_case. }
        cbn [map].
        change (PathUtils_join [root; p0]
                :: map (λ p, PathUtils_join [root; p]) rest)
          with (map (λ p, PathUtils_join [root; p]) (p0 :: rest)).
        pose proof (fetchBatch_requests (set_failedFiles JsSet.empty st)
                      (p0 :: rest)
                      (map (λ p, PathUtils_join [root; p]) (p0 :: rest))) as Hreqs.
        destruct (fetchBatch_perPath fetch (set_failedFiles JsSet.empty st)
                    (p0 :: rest) (λ p, PathUtils_join [root; p]))
          as (entry & fails & Hfold).
        destruct (fetchBatch fetch (set_failedFiles JsSet.empty st) (p0 :: rest)
                    (map (λ p, PathUtils_join [root; p]) (p0 :: rest)))
          as [a reqs].
        cbn [fst snd] in Hfold, Hreqs. subst a reqs.
        cbn [fst snd failedFiles set_failedFiles directories selectedDirectoryId
               baseEndpoint patchContent].
        destruct (Hloop entry fails) as [H1 H2].
        do 6 (split; [done|]).
        pose proof (tryFetchWithFallback_sent fetch
                      (baseEndpoint st +:+ "/api/files")
                      (PathsBody (PathUtils_join [root; p0]
                                  :: map (λ p, PathUtils_join [root; p]) rest)))
          as Hshape.
        cbv zeta in Hshape.
        change (map (λ p, PathUtils_join [root; p]) (p0 :: rest))
          with (PathUtils_join [root; p0]
                :: map (λ p, PathUtils_join [root; p]) rest).
        split.
        -- destruct Hshape as [-> | ->]; cbn; lia.
        -- intros req Hreq. exists dir, root. do 3 (split; [done|]).
           destruct Hshape as [Hs | Hs]; rewrite Hs in Hreq.
           ++ by apply list_elem_of_singleton in Hreq as ->.
           ++ apply elem_of_cons in Hreq as [-> | Hreq]; [done|].
              by apply list_elem_of_singleton in Hreq as ->.
      * destruct filePaths as [|p0 rest].
        { quiet_case. }
        quiet_case.
    + cbn [fst snd failedFiles set_failedFiles directories selectedDirectoryId
             baseEndpoint patchContent length].
      rewrite setAll_perPath. destruct (Hloop
        (λ _, {| content := JS.null;
                 error := JS.str ("Unsupported directory type: "
                                  +:+ dir_type dir) |}) (λ _, true)) as [H1 H2].
      repeat (split; [done || lia|]). intros req H. by destruct (Hnil req).
  - cbn [fst snd failedFiles set_failedFiles directories selectedDirectoryId
           baseEndpoint patchContent length].
    rewrite setAll_perPath. destruct (Hloop
      (λ _, {| content := JS.null;
               error := JS.str "Target directory not found" |}) (λ _, false))
      as [H1 H2].
    repeat (split; [done || lia|]). intros req H. by destruct (Hnil req).
Qed.

(** X9. What a call of [fetchPatchRequiredFiles] leaves alone. The sources,
    the selection, the endpoint and the patch text of the state are as
    before; the failure set afterwards has no duplicates and holds requested
    paths only; at most two requests are sent, and each of them goes to a
    source of kind 'path' with a root and carries the joined absolute paths
    of all requested files, in the order requested. *)
Theorem fetchPatchRequiredFiles_frame (dirId : N) (filePaths : list string)
    (st : state) :
  let result := fetchPatchRequiredFiles fetch db dirId filePaths st in
  let st' := result.1.2 in
  directories st' = directories st
  ∧ selectedDirectoryId st' = selectedDirectoryId st
  ∧ baseEndpoint st' = baseEndpoint st
  ∧ patchContent st' = patchContent st
  ∧ NoDup (failedFiles st')
  ∧ (∀ p, p ∈ failedFiles st' → p ∈ filePaths)
  ∧ length result.2 ≤ 2
  ∧ (∀ req, req ∈ result.2 →
       ∃ dir root,
         findDirectory dirId st = Some dir ∧ dir_type dir = "path"
         ∧ dir_path dir = Some root
         ∧ req_body req
           = PathsBody (map (λ p, PathUtils_join [root; p]) filePaths)).
Proof. exact (fetchPatchRequiredFiles_effects dirId filePaths st). Qed.

(** X10. When the batch fetch for a source of kind 'path' does not deliver
    a successful answer (the transport throws, the status is not ok, the
    body is no JSON, or the answer lacks success or the files map), every
    requested path gets one and the same error message and every requested
    path is in the failure set; when the transport throws, the message is
    'Network error: ' followed by what was thrown. *)
Theorem batch_failure_fails_all (dirId : N) (filePaths : list string)
    (st : state) (dir : directory) (root : string) :
  findDirectory dirId st = Some dir → dir_type dir = "path" →
  dir_path dir = Some root → filePaths ≠ [] →
  (¬ ∃ resp reqs data fs,
       tryFetchWithFallback fetch (baseEndpoint st +:+ "/api/files")
         (PathsBody (map (λ q, PathUtils_join [root; q]) filePaths))
       = (Normal resp, reqs)
       ∧ ok resp = true ∧ json resp = Normal data
       ∧ rd_success data = true ∧ rd_files data = Some fs) →
  ∃ results st' reqs msg,
    fetchPatchRequiredFiles fetch db dirId filePaths st
    = (Normal results, st', reqs)
    ∧ (∀ p, p ∈ filePaths →
            results !! p
            = Some {| content := JS.null; error := JS.str msg |}
            ∧ p ∈ failedFiles st')
    ∧ (∀ thrown reqs',
         tryFetchWithFallback fetch (baseEndpoint st +:+ "/api/files")
           (PathsBody (map (λ q, PathUtils_join [root; q]) filePaths))
         = (Throw thrown, reqs') →
         msg = "Network error: " +:+ thrown).
Proof.
  intros Hdir Htype Hroot Hne Hfail. open_resolver.
  rewrite Hdir, Htype, Hroot. cbn [String.eqb Ascii.eqb Bool.eqb].
  destruct filePaths as [|p0 rest]; [done|]. cbn [map].
  change (PathUtils_join [root; p0]
          :: map (λ q, PathUtils_join [root; q]) rest)
    with (map (λ q, PathUtils_join [root; q]) (p0 :: rest)) in *.
  unfold fetchBatch.
  change (baseEndpoint (set_failedFiles JsSet.empty st))
    with (baseEndpoint st).
  assert (∀ msg,
            ∀ p, p ∈ p0 :: rest →
              (setAll msg true (p0 :: rest) (∅, JsSet.empty)).1 !! p
              = Some {| content := JS.null; error := JS.str msg |}
              ∧ p ∈ (setAll msg true (p0 :: rest) (∅, JsSet.empty)).2) as Hall.
  { intros msg p Hp. rewrite setAll_perPath. split.
    - by rewrite fold_perPath_lookup, decide_True.
    - rewrite <- has_true, fold_perPath_failed.
      by rewrite bool_decide_eq_true_2. }
  destruct (tryFetchWithFallback fetch _ _) as [[thrown|resp] reqs] eqn:T.
  { eexists _, _, _, _. split; [reflexivity|]. split; [apply Hall|].
    by intros thrown' reqs' [= -> _]. }
  destruct (ok resp) eqn:Hok; cbn [negb].
  2: { eexists _, _, _, _. split; [reflexivity|]. split; [apply Hall|].
       by intros thrown' reqs' [=]. }
  destruct (json resp) as [thrown|data] eqn:Hjson.
  { eexists _, _, _, _. split; [reflexivity|]. split; [apply Hall|].
    by intros thrown' reqs' [=]. }
  destruct (rd_success data) eqn:Hs, (rd_files data) as [fs|] eqn:Hf.
  { destruct Hfail. by exists resp, reqs, data, fs. }
  all: eexists _, _, _, _; (split; [reflexivity|]); (split; [apply Hall|]);
    by intros thrown' reqs' [=].
Qed.

(** X11. A per-file result in a successful batch answer. A successful
    result gives the entry its content and no error, and the path is not
    recorded as failed. A failed result gives the entry its error message;
    the path is recorded as failed exactly when that message is there, is
    not empty and does not contain 'not found'. *)
Theorem delivered_result_classification (dirId : N) (filePaths : list string)
    (st : state) (dir : directory) (root : string) (resp : response)
    (data : responseData) (fs : gmap string fileResult) (reqs : list request)
    (p : string) (r : fileResult) :
  findDirectory dirId st = Some dir → dir_type dir = "path" →
  dir_path dir = Some root →
  tryFetchWithFallback fetch (baseEndpoint st +:+ "/api/files")
    (PathsBody (map (λ q, PathUtils_join [root; q]) filePaths))
  = (Normal resp, reqs) →
  ok resp = true → json resp = Normal data →
  rd_success data = true → rd_files data = Some fs →
  p ∈ filePaths → fs !! PathUtils_join [root; p] = Some r →
  ∃ results st',
    fetchPatchRequiredFiles fetch db dirId filePaths st
    = (Normal results, st', reqs)
    ∧ results !! p
      = Some (if fr_success r
              then {| content := JS.of_option (fr_content r);
                      error := JS.null |}
              else {| content := JS.null;
                      error := JS.of_option (fr_error r) |})
    ∧ (p ∈ failedFiles st'
       ↔ fr_success r = false
         ∧ ∃ e, fr_error r = Some e ∧ e ≠ ""
                ∧ JS.includes e "not found" = false).
Proof.
  intros Hdir Htype Hroot Hfetch Hok Hjson Hsucc Hfiles Hp Hr.
  open_resolver.
  rewrite Hdir, Htype, Hroot. cbn [String.eqb Ascii.eqb Bool.eqb].
  destruct filePaths as [|p0 rest]; [by apply elem_of_nil in Hp|].
  cbn [map].
  change (PathUtils_join [root; p0]
          :: map (λ q, PathUtils_join [root; q]) rest)
    with (map (λ q, PathUtils_join [root; q]) (p0 :: rest)) in *.
  unfold fetchBatch.
  change (baseEndpoint (set_failedFiles JsSet.empty st))
    with (baseEndpoint st).
  rewrite Hfetch, Hok, Hjson, Hsucc, Hfiles. cbn [negb].
  rewrite successful_batch.
  eexists _, _. split; [reflexivity|].
  cbn [failedFiles set_failedFiles fst snd]. split.
  - rewrite fold_perPath_lookup, decide_True by done.
    unfold batchEntry. by rewrite Hr.
  - rewrite <- has_true, fold_perPath_failed.
    rewrite bool_decide_eq_true_2 by done.
    unfold batchFails. rewrite Hr.
    change (JsSet.has p (∅, JsSet.empty).2) with false. cbn [orb andb].
    destruct (fr_success r); cbn [negb andb].
    + split; [done|]. by intros [? _].
    + destruct (fr_error r) as [e|].
      * rewrite andb_true_iff, negb_true_iff, truthy_nonempty. split.
        -- intros [? ?]. split; [done|]. by exists e.
        -- by intros [_ (e' & [= <-] & ? & ?)].
      * split; [done|]. by intros [_ (e' & ? & _)].
Qed.

(** X12. A source whose kind is neither 'uploaded' nor 'path': every
    requested path gets the error 'Unsupported directory type: ' followed
    by the kind, every requested path is in the failure set, and no request
    is sent. *)
Theorem unsupported_kind_fails_all (dirId : N) (filePaths : list string)
    (st : state) (dir : directory) :
  findDirectory dirId st = Some dir →
  dir_type dir ≠ "uploaded" → dir_type dir ≠ "path" →
  ∃ results st',
    fetchPatchRequiredFiles fetch db dirId filePaths st
    = (Normal results, st', [])
    ∧ ∀ p, p ∈ filePaths →
           results !! p
           = Some {| content := JS.null;
                     error := JS.str ("Unsupported directory type: "
                                      +:+ dir_type dir) |}
           ∧ p ∈ failedFiles st'.
Proof.
  intros Hdir Hu%String.eqb_neq Hp%String.eqb_neq. open_resolver.
  rewrite Hdir, Hu, Hp. eexists _, _. split; [reflexivity|].
  intros p Hin. rewrite setAll_perPath.
  cbn [failedFiles set_failedFiles fst snd]. split.
  - by rewrite fold_perPath_lookup, decide_True.
  - rewrite <- has_true, fold_perPath_failed.
    by rewrite bool_decide_eq_true_2.
Qed.

(** X13. An uploaded file that is in the store: the entry of its path
    holds the stored content and no error, and the path is not in the
    failure set. *)
Theorem uploaded_hit (dirId : N) (filePaths : list string) (st : state)
    (dir : directory) (p c : string) :
  findDirectory dirId st = Some dir → dir_type dir = "uploaded" →
  p ∈ filePaths →
  openError db = None →
  readErrors db !! key (dir_id dir) p = None →
  records db !! key (dir_id dir) p = Some c →
  ∃ results st',
    fetchPatchRequiredFiles fetch db dirId filePaths st
    = (Normal results, st', [])
    ∧ results !! p = Some {| content := JS.str c; error := JS.null |}
    ∧ p ∉ failedFiles st'.
Proof.
  intros Hdir Htype Hp Hopen Hread Hrec. open_resolver.
  rewrite Hdir, Htype. cbn [String.eqb Ascii.eqb Bool.eqb].
  eexists _, _. split; [reflexivity|].
  rewrite (fold_left_ext_acc _ _ _ _ (fetchUploaded_perPath db (dir_id dir))).
  cbn [failedFiles set_failedFiles fst snd].
  assert (getUploadedFile db (dir_id dir) p = Normal (Some c)) as Hget.
  { unfold getUploadedFile. by rewrite Hopen, Hread, Hrec. }
  split.
  - rewrite fold_perPath_lookup, decide_True by done.
    unfold uploadedEntry. by rewrite Hget.
  - rewrite <- has_true, fold_perPath_failed.
    unfold uploadedFails. rewrite Hget. cbn. by rewrite andb_false_r.
Qed.

(** X26. The keys of the result. For every source id, whether or not it
    names a source and whatever the kind of the source, and every list of
    requested paths, provided that a source of kind 'path' has a root path,
    [fetchPatchRequiredFiles] returns a map, and the map has an entry for a
    path exactly when the path was requested. *)
Theorem fetchPatchRequiredFiles_keys (dirId : N) (filePaths : list string)
    (st : state) :
  (∀ dir, findDirectory dirId st = Some dir → dir_type dir = "path" →
          is_Some (dir_path dir)) →
  ∃ results st' reqs,
    fetchPatchRequiredFiles fetch db dirId filePaths st
    = (Normal results, st', reqs)
    ∧ ∀ p, is_Some (results !! p) ↔ p ∈ filePaths.
Proof.
  intros Hroot. open_resolver.
  cbn [failedFiles set_failedFiles].
  destruct (findDirectory dirId st) as [dir|] eqn:Hdir.
  - destruct (String.eqb (dir_type dir) "uploaded") eqn:Eu.
    { eexists _, _, _. split; [reflexivity|].
      rewrite (fold_left_ext_acc _ _ _ _ (fetchUploaded_perPath db (dir_id dir))).
      apply (perPath_complete (uploadedEntry db (dir_id dir))
               (uploadedFails db (dir_id dir)) filePaths JsSet.empty). }
    destruct (String.eqb (dir_type dir) "path") eqn:Ep.
    + apply String.eqb_eq in Ep.
      destruct (Hroot dir eq_refl Ep) as [root ->].
      destruct filePaths as [|p0 rest].
      { eexists _, _, _. split; [reflexivity|].
        intros p. cbn. rewrite lookup_empty. split; [by intros [? ?]|].
        by intros ?%elem_of_nil. }
      cbn [map].
      change (PathUtils_join [root; p0]
              :: map (λ p, PathUtils_join [root; p]) rest)
        with (map (λ p, PathUtils_join [root; p]) (p0 :: rest)).
      destruct (fetchBatch_perPath fetch
                  (set_failedFiles JsSet.empty st) (p0 :: rest)
                  (λ p, PathUtils_join [root; p]))
        as (entry & fails & Hfold).
      destruct (fetchBatch fetch (set_failedFiles JsSet.empty st) (p0 :: rest)
                  (map (λ p, PathUtils_join [root; p]) (p0 :: rest)))
        as [a reqs].
      cbn [fst] in Hfold. subst a.
      eexists _, _, _. split; [reflexivity|].
      apply (perPath_complete entry fails (p0 :: rest) JsSet.empty).
    + eexists _, _, _. split; [reflexivity|].
      rewrite setAll_perPath.
      apply (perPath_complete
               (λ _, {| content := JS.null;
                        error := JS.str ("Unsupported directory type: "
                                         +:+ dir_type dir) |})
               (λ _, true) filePaths JsSet.empty).
  - eexists _, _, _. split; [reflexivity|].
    rewrite setAll_perPath.
    apply (perPath_complete
             (λ _, {| content := JS.null;
                      error := JS.str "Target directory not found" |})
             (λ _, false) filePaths JsSet.empty).
Qed.

End ResolverFacts.

Section ResolverSamples.
Import State Connection Db FileContent Samples MoreSamples.

(** The network is down while two files of /root are requested. *)
Lemma batch_failure_fails_all_witness :
  ∃ results st' reqs,
    fetchPatchRequiredFiles offline store 1 ["a.txt"; "b.txt"]
      (registry (Some 1%N))
    = (Normal results, st', reqs)
    ∧ results !! "b.txt"
      = Some {| content := JS.null;
                error := JS.str "Network error: Failed to fetch" |}
    ∧ "b.txt" ∈ failedFiles st'.
Proof.
  destruct (batch_failure_fails_all offline store 1 ["a.txt"; "b.txt"]
              (registry (Some 1%N)) serverDir "/root"
              eq_refl eq_refl eq_refl)
    as (results & st' & reqs & msg & Heq & Hall & Hmsg).
  { discriminate. }
  { by intros (resp & reqs & data & fs & [=] & _). }
  exists results, st', reqs. split; [exact Heq|].
  destruct (Hall "b.txt") as [H1 H2]; [by right; left|].
  rewrite (Hmsg "Failed to fetch" _ eq_refl) in H1. by split.
Defined.

(** The service delivers /root/a.txt. *)
Lemma delivered_result_classification_witness :
  ∃ results st',
    fetchPatchRequiredFiles partialService store 1 ["a.txt"; "b.txt"]
      (registry (Some 1%N))
    = (Normal results, st',
       [{| req_url := "http://localhost:3000/api/files";
           req_body := PathsBody ["/root/a.txt"; "/root/b.txt"] |}])
    ∧ results !! "a.txt"
      = Some {| content := JS.str "hello"; error := JS.null |}.
Proof.
  destruct (delivered_result_classification partialService store 1
              ["a.txt"; "b.txt"] (registry (Some 1%N)) serverDir "/root"
              _ _ _ _  "a.txt"
              {| fr_success := true; fr_content := Some "hello";
                 fr_error := None |}
              eq_refl eq_refl eq_refl eq_refl eq_refl eq_refl eq_refl eq_refl)
    as (results & st' & Heq & Hentry & _).
  { by left. }
  { reflexivity. }
  by exists results, st'.
Defined.

(** Two files requested from the source of kind 'ftp'. *)
Lemma unsupported_kind_fails_all_witness :
  ∃ results st',
    fetchPatchRequiredFiles offline store 4 ["a.txt"; "b.txt"] registryWithFtp
    = (Normal results, st', [])
    ∧ results !! "a.txt"
      = Some {| content := JS.null;
                error := JS.str "Unsupported directory type: ftp" |}
    ∧ "a.txt" ∈ failedFiles st'.
Proof.
  destruct (unsupported_kind_fails_all offline store 4 ["a.txt"; "b.txt"]
              registryWithFtp ftpDir eq_refl)
    as (results & st' & Heq & Hall); [discriminate..|].
  exists results, st'. split; [exact Heq|]. apply Hall. by left.
Defined.

(** b.txt of the uploaded directory is in the store. *)
Lemma uploaded_hit_witness :
  ∃ results st',
    fetchPatchRequiredFiles offline store 3 ["b.txt"] (registry (Some 3%N))
    = (Normal results, st', [])
    ∧ results !! "b.txt"
      = Some {| content := JS.str "hello"; error := JS.null |}
    ∧ "b.txt" ∉ failedFiles st'.
Proof.
  apply (uploaded_hit offline store 3 ["b.txt"] (registry (Some 3%N))
           uploadedDir "b.txt" "hello"); try reflexivity.
  by left.
Defined.

(** The server directory with a root, two paths requested, one of them
    twice, and one delivered. *)
Lemma fetchPatchRequiredFiles_keys_witness :
  ∃ results st' reqs,
    fetchPatchRequiredFiles partialService store 1
      ["a.txt"; "b.txt"; "a.txt"] (registry (Some 1%N))
    = (Normal results, st', reqs)
    ∧ ∀ p, is_Some (results !! p) ↔ p ∈ ["a.txt"; "b.txt"; "a.txt"].
Proof.
  apply (fetchPatchRequiredFiles_keys partialService store 1
           ["a.txt"; "b.txt"; "a.txt"] (registry (Some 1%N))).
  intros dir [= <-] _. by eexists.
Defined.

End ResolverSamples.

(** ** More on the preview and on applying *)

Section PreviewFacts.
Import State Connection Db FileContent Patcher Frame.

Variable Diff_parsePatch : string → completion (option (list patch)).
Variable fetch : request → completion response.
Variable db : uploadedFilesDB.

Lemma quiet_refl w : quiet w w.
Proof. done. Qed.

Lemma quiet_trans w1 w2 w3 : quiet w1 w2 → quiet w2 w3 → quiet w1 w3.
Proof.
  intros (? & ? & ? & ?) (? & ? & ? & ?). unfold quiet. repeat split; congruence.
Qed.

Lemma quiet_updateApplyButtonState t w : quiet w (updateApplyButtonState t w).
Proof.
  unfold updateApplyButtonState.
  repeat match goal with |- context [if ?b then _ else _] => destruct b end;
    done.
Qed.

Lemma quiet_parsePatch patchContent w :
  quiet w (parsePatch Diff_parsePatch patchContent w).2
  ∧ (∀ ps, (parsePatch Diff_parsePatch patchContent w).1 = Some ps →
           (parsePatch Diff_parsePatch patchContent w).2 = w).
Proof. unfold parsePatch. by repeat case_match. Qed.

Lemma fetchPatchRequiredFiles_throw (dirId : N) (filePaths : list string)
    (st0 : state) (m : string) :
  (fetchPatchRequiredFiles fetch db dirId filePaths st0).1.1 = Throw m →
  failedFiles (fetchPatchRequiredFiles fetch db dirId filePaths st0).1.2 = []
  ∧ (fetchPatchRequiredFiles fetch db dirId filePaths st0).2 = [].
Proof.
  unfold fetchPatchRequiredFiles.
  destruct (findDirectory dirId _) as [dir|]; [|done].
  destruct (String.eqb (dir_type dir) "uploaded"); [done|].
  destruct (String.eqb (dir_type dir) "path"); [|done].
  destruct (dir_path dir) as [root|], filePaths as [|p0 rest]; try done.
  cbn [map]. by destruct (fetchBatch _ _ _ _).
Qed.

(** X14. What a preview cycle leaves alone and what it keeps in step. The
    sources, the selection, the endpoint and the stored patch text are as
    before; no alert is shown; the list of failed files on the page is the
    failure set of the state, which has no duplicates; at most two requests
    are sent, and only when the selected source is of kind 'path'. *)
Theorem generatePatchPreview_frame (patchContent : string) (w : world) :
  let w' := generatePatchPreview Diff_parsePatch fetch db patchContent w in
  directories (st w') = directories (st w)
  ∧ selectedDirectoryId (st w') = selectedDirectoryId (st w)
  ∧ baseEndpoint (st w') = baseEndpoint (st w)
  ∧ State.patchContent (st w') = State.patchContent (st w)
  ∧ alerts w' = alerts w
  ∧ failedFilesDiv (page w') = failedFiles (st w')
  ∧ NoDup (failedFiles (st w'))
  ∧ ∃ reqs,
      calls w' = calls w ++ reqs ∧ length reqs ≤ 2
      ∧ (reqs ≠ [] →
         ∃ dir, selectedSource (st w) = Some dir ∧ dir_type dir = "path").
Proof.
  cbv zeta.
  assert (∀ w0 : world,
            st w0 = set_failedFiles JsSet.empty (st w) → calls w0 = calls w →
            alerts w0 = alerts w → failedFilesDiv (page w0) = [] →
            directories (st w0) = directories (st w)
            ∧ selectedDirectoryId (st w0) = selectedDirectoryId (st w)
            ∧ baseEndpoint (st w0) = baseEndpoint (st w)
            ∧ State.patchContent (st w0) = State.patchContent (st w)
            ∧ alerts w0 = alerts w
            ∧ failedFilesDiv (page w0) = failedFiles (st w0)
            ∧ NoDup (failedFiles (st w0))
            ∧ ∃ reqs,
                calls w0 = calls w ++ reqs ∧ length reqs ≤ 2
                ∧ (reqs ≠ [] →
                   ∃ dir, selectedSource (st w) = Some dir
                          ∧ dir_type dir = "path")) as Hearly.
  { intros w0 -> Hc Ha Hf. rewrite Hf. do 5 (split; [done|]).
    split; [done|]. split; [constructor|]. exists [].
    rewrite app_nil_r. split; [done|]. split; [cbn; lia|done]. }
  unfold generatePatchPreview.
  destruct (negb (JS.truthy (JS.trim patchContent))); [by apply Hearly|].
  change (selectedDirectoryId (st (clearPreview w)))
    with (selectedDirectoryId (st w)).
  destruct (selectedDirectoryId (st w)) as [[|sel]|] eqn:Hsel;
    try by apply Hearly.
  rewrite <- Hsel in Hearly |- *.
  change (findDirectory (N.pos sel) (st (clearPreview w)))
    with (findDirectory (N.pos sel) (st w)).
  destruct (findDirectory (N.pos sel) (st w)) as [dir|] eqn:Hdir;
    [|by apply Hearly].
  assert (selectedSource (st w) = Some dir) as Hsrc.
  { unfold selectedSource. by rewrite Hsel. }
  assert (∀ w0 : world,
            st w0 = set_failedFiles JsSet.empty (st w) → calls w0 = calls w →
            alerts w0 = alerts w → failedFilesDiv (page w0) = [] →
            let w1 :=
              match parsePatch Diff_parsePatch patchContent w0 with
              | (None, w2) => w2
              | (Some parsedPatches, w2) =>
                  match JsSet.size (requiredFilesRelative parsedPatches) with
                  | O =>
                      setPreviewStatus
                        "Patch seems empty or only affects /dev/null." true w2
                  | S _ =>
                      let w3 :=
                        setPreviewStatus
                          ("Workspaceing "
                           +:+ pretty (JsSet.size (requiredFilesRelative parsedPatches))
                           +:+ " file(s)...") false w2 in
                      let '(r, st', reqs) :=
                        fetchPatchRequiredFiles fetch db (N.pos sel)
                          (requiredFilesRelative parsedPatches) (st w3) in
                      let w4 := sent reqs (with_st st' w3) in
                      match r with
                      | Throw _ => w4
                      | Normal fetchedFiles =>
                          let w5 := setPreviewStatus "Generating preview..." false w4 in
                          let '(previewHTML, filesWithErrors) :=
                            renderPatches fetchedFiles parsedPatches in
                          let w6 := setPreviewHTML previewHTML w5 in
                          let w7 :=
                            if Nat.ltb 0 filesWithErrors then
                              setPreviewStatus
                                ("Preview generated with errors in "
                                 +:+ pretty filesWithErrors +:+ " file(s).")
                                true w6
                            else if Nat.ltb 0 (JsSet.size (failedFiles (st w6))) then
                              setPreviewStatus
                                "Preview generated. Some files failed to fetch."
                                true w6
                            else
                              setPreviewStatus
                                "Preview generated successfully." false w6 in
                          let w8 := updateApplyButtonState (Some (dir_type dir)) w7 in
                          updateFailedFilesUI w8
                      end
                  end
              end in
            directories (st w1) = directories (st w)
            ∧ selectedDirectoryId (st w1) = selectedDirectoryId (st w)
            ∧ baseEndpoint (st w1) = baseEndpoint (st w)
            ∧ State.patchContent (st w1) = State.patchContent (st w)
            ∧ alerts w1 = alerts w
            ∧ failedFilesDiv (page w1) = failedFiles (st w1)
            ∧ NoDup (failedFiles (st w1))
            ∧ ∃ reqs,
                calls w1 = calls w ++ reqs ∧ length reqs ≤ 2
                ∧ (reqs ≠ [] →
                   ∃ dir, selectedSource (st w) = Some dir
                          ∧ dir_type dir = "path")) as Hlate.
  { intros w0 Hst Hc Ha Hf. cbv zeta.
    destruct (quiet_parsePatch patchContent w0) as [(Q1 & Q2 & Q3 & Q4) Hsame].
    destruct (parsePatch Diff_parsePatch patchContent w0) as [[ps|] w2] eqn:Hparse.
    2: { cbn [snd] in *. apply Hearly; congruence. }
    assert (w2 = w0) as -> by (by apply (Hsame ps)).
    clear Q1 Q2 Q3 Q4 Hsame.
    destruct (JsSet.size (requiredFilesRelative ps)) as [|n] eqn:Hn;
      [by apply Hearly|].
    pose proof (fetchPatchRequiredFiles_effects fetch db (N.pos sel)
                  (requiredFilesRelative ps) (set_failedFiles JsSet.empty (st w)))
      as (F1 & F2 & F3 & F4 & F5 & F6 & F7 & F8).
    pose proof (fetchPatchRequiredFiles_throw (N.pos sel)
                  (requiredFilesRelative ps) (set_failedFiles JsSet.empty (st w)))
      as Hthrow.
    cbv zeta in F1, F2, F3, F4, F5, F6, F7, F8.
    change (st (setPreviewStatus _ false w0)) with (st w0). rewrite Hst.
    destruct (fetchPatchRequiredFiles fetch db (N.pos sel)
                (requiredFilesRelative ps) (set_failedFiles JsSet.empty (st w)))
      as [[r st'] reqs].
    cbn [fst snd] in *.
    assert (reqs ≠ [] →
            ∃ dir0, selectedSource (st w) = Some dir0 ∧ dir_type dir0 = "path")
      as Hkind.
    { intros Hne. destruct reqs as [|req reqs']; [done|].
      destruct (F8 req) as (d & root & Hd & Ht & _); [by left|].
      change (findDirectory (N.pos sel) (set_failedFiles JsSet.empty (st w)))
        with (findDirectory (N.pos sel) (st w)) in Hd.
      exists d. split; [|done]. unfold selectedSource. by rewrite Hsel. }
    destruct r as [m|fetched].
    - destruct (Hthrow m eq_refl) as [Hff ->].
      cbn. rewrite Hf, Hff, Hc, Ha, app_nil_r. repeat (split; [done|]).
      split; [constructor|]. exists []. rewrite app_nil_r.
      split; [done|]. split; [cbn; lia|done].
    - destruct (renderPatches fetched ps) as [html bad].
      set (w6 := setPreviewHTML html
                   (setPreviewStatus "Generating preview..." false
                      (sent reqs (with_st st'
                         (setPreviewStatus _ false w0))))).
      assert (st w6 = st' ∧ calls w6 = calls w ++ reqs ∧ alerts w6 = alerts w)
        as (Hs6 & Hc6 & Ha6).
      { subst w6. cbn. by rewrite Hc, Ha. }
      set (w7 := if Nat.ltb 0 bad then _ else _).
      assert (quiet w6 w7) as Hq7.
      { subst w7. by repeat case_match. }
      pose proof (quiet_trans _ _ _ Hq7
                    (quiet_updateApplyButtonState (Some (dir_type dir)) w7))
        as (Hq1 & Hq2 & Hq3 & _).
      cbn [updateFailedFilesUI with_page st page calls alerts failedFilesDiv].
      rewrite Hq1, Hq2, Hq3, Hs6, Hc6, Ha6.
      repeat (split; [done|]). exists reqs. done. }
  destruct (dir_error dir) as [[|c e]|].
  - apply Hlate; done.
  - by apply Hearly.
  - apply Hlate; done.
Qed.

End PreviewFacts.

Section ApplyFacts.
Import State Connection Db FileContent Patcher Frame.

Variable fetch : request → completion response.

Lemma applyStatus_after_update t (w : world) :
  applyStatusEl (page (updateApplyButtonState t w)) = applyStatusEl (page w)
  ∨ className (applyStatusEl (page (updateApplyButtonState t w))) ≠ "success".
Proof.
  unfold updateApplyButtonState.
  repeat match goal with |- context [if ?b then _ else _] => destruct b end;
    (by left) || (by right).
Qed.

Lemma state_after_apply_steps resp data (w : world) :
  st (reportApply resp data w) = st w.
Proof. unfold reportApply. by repeat case_match. Qed.

Lemma applyPatch_state (patchContent : string) (w : world) :
  st (applyPatch fetch patchContent w) = st w.
Proof.
  unfold applyPatch.
  destruct (selectedDirectoryId (st w)) as [[|sel]|]; try done.
  destruct (findDirectory (N.pos sel) (st w)) as [dir|]; [|done].
  destruct (String.eqb (dir_type dir) "uploaded"); [done|].
  destruct (dir_path dir) as [[|c root]|]; try done.
  destruct (negb (JS.truthy (JS.trim patchContent))); [done|].
  destruct (tryFetchWithFallback fetch _ _) as [r reqs].
  match goal with
  | |- st (updateApplyButtonState ?t ?w0) = _ =>
      destruct (quiet_updateApplyButtonState t w0) as (-> & _)
  end.
  destruct r as [msg|resp]; [done|].
  destruct (json resp) as [msg|data]; [done|].
  by rewrite state_after_apply_steps.
Qed.

(** X15. [applyPatch] never touches the state, and it shows the class
    'success' on the apply status only when a request was answered with an
    ok status and a body whose success flag is set. *)
Theorem applyPatch_success_is_reported (patchContent : string) (w : world) :
  let w' := applyPatch fetch patchContent w in
  st w' = st w
  ∧ (className (applyStatusEl (page w')) = "success" →
     ∃ req resp data,
       fetch req = Normal resp ∧ ok resp = true
       ∧ json resp = Normal data ∧ rd_success data = true).
Proof.
  cbv zeta. split; [apply applyPatch_state|]. unfold applyPatch.
  destruct (selectedDirectoryId (st w)) as [[|sel]|]; try done.
  destruct (findDirectory (N.pos sel) (st w)) as [dir|]; [|done].
  destruct (String.eqb (dir_type dir) "uploaded"); [done|].
  destruct (dir_path dir) as [[|c root]|]; try done.
  destruct (negb (JS.truthy (JS.trim patchContent))); [done|].
  destruct (tryFetchWithFallback fetch _ _) as [r reqs] eqn:T.
  intros Hcls.
match type of Hcls with
| className (applyStatusEl (page (updateApplyButtonState ?t ?w0))) = _ =>
    destruct (applyStatus_after_update t w0) as [Heq|Hne]; [|done];
    rewrite Heq in Hcls
end.
destruct r as [msg|resp]; [done|].
destruct (json resp) as [msg|data] eqn:Hjson; [done|].
unfold reportApply in Hcls.
destruct (ok resp) eqn:Hok; [|by repeat case_match].
destruct (rd_success data) eqn:Hs; [|by repeat case_match].
destruct (tryFetch_origin _ _ _ _ _ T) as [req Hreq].
by exists req, resp, data.
Qed.

(** X16. When the patch text stored in the state is blank while the text
    handed to [applyPatch] is not (the click came before the debounced
    input handler ran), a server directory with a root still gets the
    request, but whatever the service answers, the apply status ends as
    'Paste patch content to enable apply.' and the button ends disabled. *)
Theorem applyPatch_blank_stored_text (patchContent : string) (w : world)
    (dir : directory) :
  selectedSource (st w) = Some dir → dir_type dir = "path" →
  JS.truthy_opt (dir_path dir) = true → JS.trim patchContent ≠ "" →
  JS.trim (State.patchContent (st w)) = "" →
  let w' := applyPatch fetch patchContent w in
  applyStatusEl (page w')
  = {| textContent := "Paste patch content to enable apply.";
       className := "" |}
  ∧ applyButtonDisabled (page w') = true
  ∧ ∃ req reqs, calls w' = calls w ++ req :: reqs.
Proof.
  intros Hsrc Htype Hroot Htrim Hblank.
  assert (∃ req reqs,
            calls (applyPatch fetch patchContent w) = calls w ++ req :: reqs)
    as Hsent.
  { apply (applyPatch_contacts_service fetch patchContent w dir); try done.
    by rewrite Htype. }
  cbv zeta.
  match goal with
  | |- ?A ∧ ?B ∧ _ => cut (A ∧ B); [by intros [? ?] |]
  end.
  clear Hsent.
  pose proof (applyPatch_state patchContent w) as Hst.
  cbv zeta in *. revert Hst. unfold applyPatch.
  unfold selectedSource in Hsrc.
  destruct (selectedDirectoryId (st w)) as [[|sel]|]; try done.
  rewrite Hsrc, Htype. cbn [String.eqb Ascii.eqb Bool.eqb].
  destruct (dir_path dir) as [[|c root]|]; try done.
  rewrite (truthy_trim_nonempty _ Htrim). cbn [negb].
  destruct (tryFetchWithFallback fetch _ _) as [r reqs].
  match goal with
  | |- st (updateApplyButtonState _ ?w0) = _ → _ => generalize w0
  end.
  intros w0 Hst.
  assert (st w0 = st w) as Hst0.
  { by destruct (quiet_updateApplyButtonState (Some "path") w0) as (<- & _). }
  unfold updateApplyButtonState. rewrite Hst0, Hblank.
  cbn [String.length Nat.ltb Nat.leb andb negb String.eqb Ascii.eqb Bool.eqb].
  rewrite andb_false_r. done.
Qed.

Lemma stored_text_exists (pc : string) :
  JS.trim pc ≠ "" →
  JS.truthy pc && Nat.ltb 0 (String.length (JS.trim pc)) = true.
Proof.
  intros H. destruct pc as [|c pc]; [done|].
  by destruct (JS.trim (String c pc)).
Qed.

(** X17. How [applyPatch] reports the answer for a server directory with a
    root, a patch that is not blank and a stored patch text that is not
    blank either. The requests of the transport are added to the log and
    the button ends enabled. A thrown error or an unreadable body gives
    'Network/Request error: ' and the message, as an error. An ok answer
    with the success flag gives 'Patch applied successfully to k file(s).'
    with class 'success', k being the number of files the answer lists. Any
    other answer gives an error that starts with 'Error applying patch: '
    and the error of the answer (or the status when there is none) and,
    exactly when k is positive, ends with the count of files that might have
    been applied. *)
Theorem applyPatch_outcome (patchContent : string) (w : world)
    (dir : directory) (root : string) (r : completion response)
    (reqs : list request) :
  selectedSource (st w) = Some dir → dir_type dir = "path" →
  dir_path dir = Some root → root ≠ "" →
  JS.trim patchContent ≠ "" → JS.trim (State.patchContent (st w)) ≠ "" →
  tryFetchWithFallback fetch (baseEndpoint (st w) +:+ "/api/apply_patch")
    (ApplyBody root patchContent) = (r, reqs) →
  let w' := applyPatch fetch patchContent w in
  let shown := applyStatusEl (page w') in
  let thrown (msg : string) :=
    shown = {| textContent := "Network/Request error: " +:+ msg;
               className := "error" |} in
  calls w' = calls w ++ reqs
  ∧ applyButtonDisabled (page w') = false
  ∧ match r with
    | Throw msg => thrown msg
    | Normal resp =>
        match json resp with
        | Throw msg => thrown msg
        | Normal data =>
            let k := length (default [] (rd_appliedFiles data)) in
            let errorMsg :=
              match rd_error data with
              | Some (String c e) => String c e
              | _ => "Server responded with status " +:+ pretty (status resp)
              end in
            if ok resp && rd_success data then
              shown
              = {| textContent :=
                     "Patch applied successfully to " +:+ pretty k
                     +:+ " file(s).";
                   className := "success" |}
            else
              className shown = "error"
              ∧ textContent shown
                = if Nat.ltb 0 k then
                    ("Error applying patch: " +:+ errorMsg) +:+ " ("
                    +:+ pretty k
                    +:+ " file(s) might have been partially applied)."
                  else "Error applying patch: " +:+ errorMsg
        end
    end.
Proof.
  intros Hsrc Htype Hroot Hne Htrim Hstored T. cbv zeta.
  pose proof (applyPatch_state patchContent w) as Hst.
  revert Hst. unfold applyPatch.
  unfold selectedSource in Hsrc.
  destruct (selectedDirectoryId (st w)) as [[|sel]|]; try done.
  rewrite Hsrc, Htype, Hroot. cbn [String.eqb Ascii.eqb Bool.eqb].
  destruct root as [|c root]; [done|].
  rewrite (truthy_trim_nonempty _ Htrim). cbn [negb].
  change (baseEndpoint
            (st (setApplyStatus "Applying patch..." false
                   (setApplyDisabled true w))))
    with (baseEndpoint (st w)).
  rewrite T.
  match goal with
  | |- st (updateApplyButtonState _ ?w0) = _ → _ => set (w1 := w0)
  end.
  intros Hst.
  assert (st w1 = st w) as Hst1.
  { by destruct (quiet_updateApplyButtonState (Some "path") w1) as (<- & _). }
  assert (updateApplyButtonState (Some "path") w1 = setApplyDisabled false w1)
    as ->.
  { unfold updateApplyButtonState. rewrite Hst1.
    rewrite (stored_text_exists _ Hstored).
    by cbn [String.eqb Ascii.eqb Bool.eqb andb negb]. }
  cbn [setApplyDisabled with_page page calls applyStatusEl applyButtonDisabled].
  split; [|split; [done|]].
  { subst w1. destruct r as [msg|resp]; [done|].
    destruct (json resp) as [msg|data]; [done|].
    by rewrite calls_reportApply. }
  subst w1. destruct r as [msg|resp]; [done|].
  destruct (json resp) as [msg|data]; [done|].
  unfold reportApply.
  assert (match rd_appliedFiles data with
          | Some l => length l
          | None => 0
          end = length (default [] (rd_appliedFiles data))) as ->
    by (by destruct (rd_appliedFiles data)).
  generalize (pretty (length (default [] (rd_appliedFiles data)))).
  intros shownCount.
  destruct (ok resp && rd_success data).
  - cbn [alert setApplyStatus with_page page applyStatusEl].
    unfold setStatus. f_equal.
  - by destruct (Nat.ltb 0 (length (default [] (rd_appliedFiles data)))).
Qed.

End ApplyFacts.

Section ApplySamples.
Import State Connection Db FileContent Patcher Samples MoreSamples.

(** The apply service reports success for the server directory. *)
Lemma applyPatch_success_is_reported_witness :
  className
    (applyStatusEl
       (page (applyPatch applyService creationPatch (readyWorld (Some 1%N)))))
  = "success"
  ∧ ∃ req resp data,
      applyService req = Normal resp ∧ ok resp = true
      ∧ json resp = Normal data ∧ rd_success data = true.
Proof.
  split; [reflexivity|].
  apply (proj2 (applyPatch_success_is_reported applyService creationPatch
                  (readyWorld (Some 1%N)))).
  reflexivity.
Defined.

(** The same click before the patch text was stored. *)
Lemma applyPatch_blank_stored_text_witness :
  applyStatusEl
    (page (applyPatch applyService creationPatch (world0 (Some 1%N))))
  = {| textContent := "Paste patch content to enable apply.";
       className := "" |}
  ∧ calls (applyPatch applyService creationPatch (world0 (Some 1%N)))
    = [{| req_url := "http://localhost:3000/api/apply_patch";
          req_body := ApplyBody "/root" creationPatch |}].
Proof.
  split; [|reflexivity].
  apply (proj1 (applyPatch_blank_stored_text applyService creationPatch
                  (world0 (Some 1%N)) serverDir eq_refl eq_refl eq_refl
                  ltac:(vm_compute; discriminate) eq_refl)).
Defined.

(** The apply service gives up after one file. *)
Lemma applyPatch_outcome_witness :
  textContent
    (applyStatusEl
       (page (applyPatch failingApplyService creationPatch
                (readyWorld (Some 1%N)))))
  = "Error applying patch: hunk failed (1 file(s) might have been partially applied)."
  ∧ length (calls (applyPatch failingApplyService creationPatch
                     (readyWorld (Some 1%N)))) = 2.
Proof.
  assert (JS.trim creationPatch ≠ "") as Hne by (vm_compute; discriminate).
  assert ("/root" ≠ "") as Hroot by discriminate.
  epose proof (applyPatch_outcome failingApplyService creationPatch
                 (readyWorld (Some 1%N)) serverDir "/root" _ _
                 eq_refl eq_refl eq_refl Hroot Hne Hne eq_refl)
    as (Hcalls & _ & Hshown).
  split; [|by rewrite Hcalls].
  cbv zeta in Hshown. cbn [json ok rd_success andb] in Hshown.
  destruct Hshown as [_ ->]. reflexivity.
Defined.

End ApplySamples.

(** ** uploader.js and fileContent.js: inserting files and listing them *)

Section TreeFacts.
Import Uploader TreePaths.

Lemma nodeAt_empty (parts : list string) : nodeAt [] parts = None.
Proof. by destruct parts as [|k [|r rs]]. Qed.

Lemma nodeAt_set_other k n (t : tree) k' rest :
  k ≠ k' → nodeAt (set k n t) (k' :: rest) = nodeAt t (k' :: rest).
Proof.
  intros Hne. destruct rest as [|r rs]; cbn [nodeAt];
    by rewrite (get_set_ne _ _ _ _ Hne).
Qed.

Lemma nodeAt_set_same k n (t : tree) rest :
  nodeAt (set k n t) (k :: rest)
  = match rest with
    | [] => Some n
    | _ :: _ => match n with Folder _ ch => nodeAt ch rest | File _ => None end
    end.
Proof. destruct rest as [|r rs]; cbn [nodeAt]; by rewrite get_set_eq. Qed.

Lemma addParts_empty_silent filePath walked parts :
  (addParts [] filePath false walked parts).2 = [].
Proof.
  revert walked. induction parts as [|part rest IH]; intros walked; [done|].
  destruct rest as [|r rs]; [done|].
  rewrite addParts_step. cbn [get].
  specialize (IH (walked ++ [part])).
  by destruct (addParts [] filePath false (walked ++ [part]) (r :: rs)).
Qed.

(** A call either puts the file under its segments without a message, or
    logs one message and leaves the object as it was. *)
Lemma addParts_outcome current filePath walked parts :
  parts ≠ [] →
  let r := addParts current filePath false walked parts in
  (r.2 = [] ∧ nodeAt r.1 parts = Some (File filePath))
  ∨ (r.1 = current ∧ ∃ m, r.2 = [m]).
Proof.
  cbv zeta. revert current walked.
  induction parts as [|part rest IH]; intros current walked Hne; [done|].
  destruct rest as [|r rs].
  - cbn [addParts negb].
    destruct (get part current) as [[p0|p0 ch]|]; cbn [fst snd].
    + left. by rewrite nodeAt_set_same.
    + right. eauto.
    + left. by rewrite nodeAt_set_same.
  - rewrite addParts_step.
    destruct (get part current) as [[p0|p0 ch]|] eqn:G.
    + right. eauto.
    + specialize (IH ch (walked ++ [part]) ltac:(done)).
      destruct (addParts ch filePath false (walked ++ [part]) (r :: rs))
        as [ch' out].
      cbn [fst snd] in *. destruct IH as [[-> H]|[-> H]].
      * left. by rewrite nodeAt_set_same.
      * right. by rewrite (set_get_id _ _ _ G).
    + specialize (IH [] (walked ++ [part]) ltac:(done)).
      pose proof (addParts_empty_silent filePath (walked ++ [part]) (r :: rs))
        as Hs.
      destruct (addParts [] filePath false (walked ++ [part]) (r :: rs))
        as [ch' out].
      cbn [fst snd] in *. subst out. destruct IH as [[_ H]|[_ [m H]]]; [|done].
      left. by rewrite nodeAt_set_same.
Qed.

(** The files of the object after a call: the one inserted, under the
    segments given, and files that were there before. *)
Lemma addParts_files current filePath isDir walked parts q p :
  nodeAt (addParts current filePath isDir walked parts).1 q = Some (File p) →
  (q = parts ∧ p = filePath ∧ isDir = false) ∨ nodeAt current q = Some (File p).
Proof.
  revert current walked q.
  induction parts as [|part rest IH]; intros current walked q; [by right|].
  destruct rest as [|r rs].
  - cbn [addParts].
    assert (nodeAt (set part (File filePath) current) q = Some (File p) →
            (q = [part] ∧ p = filePath)
            ∨ nodeAt current q = Some (File p)) as Hset.
    { destruct q as [|k q']; [done|].
      destruct (decide (part = k)) as [<-|Hk].
      - rewrite nodeAt_set_same. destruct q'; [|done].
        intros [= <-]. by left.
      - rewrite (nodeAt_set_other _ _ _ _ _ Hk). by right. }
    destruct isDir; cbn [negb].
    + destruct (get part current) as [n|] eqn:G; cbn [fst]; [by right|].
      destruct q as [|k q']; [done|].
      destruct (decide (part = k)) as [<-|Hk].
      * rewrite nodeAt_set_same. destruct q' as [|r' rs']; [done|].
        intros H. by rewrite nodeAt_empty in H.
      * rewrite (nodeAt_set_other _ _ _ _ _ Hk). by right.
    + destruct (get part current) as [[p0|p0 ch]|]; cbn [fst];
        [|by right|]; intros H; destruct (Hset H) as [[-> ->]|H']; auto.
  - rewrite addParts_step.
    destruct (get part current) as [[p0|p0 ch]|] eqn:G.
    + by right.
    + specialize (IH ch (walked ++ [part])).
      destruct (addParts ch filePath isDir (walked ++ [part]) (r :: rs))
        as [ch' out].
      cbn [fst] in *. destruct q as [|k q']; [done|].
      destruct (decide (part = k)) as [<-|Hk].
      * rewrite nodeAt_set_same. destruct q' as [|r' rs']; [done|].
        intros H. destruct (IH _ H) as [(-> & -> & ->)|H']; [by left|].
        right. by rewrite nodeAt_step, G.
      * rewrite (nodeAt_set_other _ _ _ _ _ Hk). by right.
    + specialize (IH [] (walked ++ [part])).
      destruct (addParts [] filePath isDir (walked ++ [part]) (r :: rs))
        as [ch' out].
      cbn [fst] in *. destruct q as [|k q']; [done|].
      destruct (decide (part = k)) as [<-|Hk].
      * rewrite nodeAt_set_same. destruct q' as [|r' rs']; [done|].
        intros H. destruct (IH _ H) as [(-> & -> & ->)|H']; [by left|].
        by rewrite nodeAt_empty in H'.
      * rewrite (nodeAt_set_other _ _ _ _ _ Hk). by right.
Qed.

(** A file under other segments than the ones given stays where it is. *)
Lemma addParts_keeps_files current filePath isDir walked parts q p :
  q ≠ parts → nodeAt current q = Some (File p) →
  nodeAt (addParts current filePath isDir walked parts).1 q = Some (File p).
Proof.
  revert current walked q.
  induction parts as [|part rest IH]; intros current walked q Hq Hfile;
    [done|].
  destruct q as [|k q']; [done|].
  destruct (decide (part = k)) as [<-|Hk].
  - destruct rest as [|r rs].
    + destruct q' as [|r' rs']; [done|].
      rewrite nodeAt_step in Hfile. cbn [addParts].
      destruct (get part current) as [[p0|p0 ch]|] eqn:G; [done| |done].
      destruct isDir; cbn [negb fst]; by rewrite nodeAt_step, G.
    + rewrite addParts_step.
      destruct (get part current) as [[p0|p0 ch]|] eqn:G.
      * done.
      * specialize (IH ch (walked ++ [part]) q').
        destruct (addParts ch filePath isDir (walked ++ [part]) (r :: rs))
          as [ch' out].
        cbn [fst] in *. rewrite nodeAt_set_same.
        destruct q' as [|r' rs'].
        { cbn [nodeAt] in Hfile. congruence. }
        rewrite nodeAt_step, G in Hfile. apply IH; [congruence|done].
      * destruct q' as [|r' rs'].
        { cbn [nodeAt] in Hfile. congruence. }
        rewrite nodeAt_step, G in Hfile. done.
  - assert (∀ n, nodeAt (set part n current) (k :: q') = Some (File p)) as Hset
      by (intros n; by rewrite (nodeAt_set_other _ _ _ _ _ Hk)).
    destruct rest as [|r rs].
    + cbn [addParts].
      destruct isDir, (get part current) as [[p0|p0 ch]|]; cbn [negb fst];
        done.
    + rewrite addParts_step.
      destruct (get part current) as [[p0|p0 ch]|]; [done| |].
      * destruct (addParts ch filePath isDir (walked ++ [part]) (r :: rs)).
        apply Hset.
      * destruct (addParts [] filePath isDir (walked ++ [part]) (r :: rs)).
        apply Hset.
Qed.

(** Induction over a tree and the trees inside it. *)
Lemma tree_nested_ind (Q : tree → Prop) :
  Q [] →
  (∀ k p t, Q t → Q ((k, File p) :: t)) →
  (∀ k p ch t, Q ch → Q t → Q ((k, Folder p ch) :: t)) →
  ∀ t, Q t.
Proof.
  intros Hnil Hfile Hfolder.
  assert (∀ n, match n with File _ => True | Folder _ ch => Q ch end) as Hn.
  { fix IH 1. intros [p|p ch]; [done|].
    induction ch as [|[k n] t IHt]; [done|].
    specialize (IH n).
    destruct n as [p'|p' ch']; [by apply Hfile | by apply Hfolder]. }
  intros t. induction t as [|[k [p|p ch]] t IHt]; [done | by apply Hfile |].
  apply Hfolder; [apply (Hn (Folder p ch)) | done].
Qed.

Lemma uniqueNames_cons k n (t : tree) :
  uniqueNames ((k, n) :: t) = true →
  get k t = None ∧ uniqueNames_node n = true ∧ uniqueNames t = true.
Proof.
  unfold uniqueNames. cbn [map fst snd nodupb forallb].
  rewrite existsb_eqb_keys.
  intros [[Hk Hnd]%andb_true_iff [Hn Hall]%andb_true_iff]%andb_true_iff.
  destruct (get k t); [done|]. by rewrite Hnd, Hall.
Qed.

Lemma nodeAt_cons_same k n (t : tree) rest :
  nodeAt ((k, n) :: t) (k :: rest)
  = match rest with
    | [] => Some n
    | _ :: _ => match n with Folder _ ch => nodeAt ch rest | File _ => None end
    end.
Proof. destruct rest as [|r rs]; cbn [nodeAt get]; by rewrite String.eqb_refl. Qed.

Lemma nodeAt_cons_other k n (t : tree) k' rest :
  k' ≠ k → nodeAt ((k, n) :: t) (k' :: rest) = nodeAt t (k' :: rest).
Proof.
  intros Hne%String.eqb_neq.
  destruct rest as [|r rs]; cbn [nodeAt get]; by rewrite Hne.
Qed.

Lemma nodeAt_absent k (t : tree) rest :
  get k t = None → nodeAt t (k :: rest) = None.
Proof. intros H. destruct rest as [|r rs]; cbn [nodeAt]; by rewrite H. Qed.

(** The node found in the rest of an object is found in the object, when
    the first property is no property of the rest. *)
Lemma nodeAt_cons_rest k n (t : tree) parts x :
  get k t = None → nodeAt t parts = Some x →
  nodeAt ((k, n) :: t) parts = Some x ∧ ∃ k' rest, parts = k' :: rest ∧ k' ≠ k.
Proof.
  intros Hk H. destruct parts as [|k' rest]; [done|].
  destruct (decide (k' = k)) as [->|Hne].
  - by rewrite (nodeAt_absent _ _ _ Hk) in H.
  - rewrite (nodeAt_cons_other _ _ _ _ _ Hne). eauto.
Qed.

Lemma pathParts_empty_path : pathParts "" = [].
Proof. reflexivity. Qed.

(** In a tree whose files carry a path, the paths listed are the paths of
    the files that a walk from the root reaches. *)
Lemma listing_reachable (t : tree) :
  uniqueNames t = true →
  (∀ parts p, nodeAt t parts = Some (File p) → p ≠ "") →
  ∀ cur q,
    q ∈ getFilePathsFromTree (Some t) cur
    ↔ ∃ parts, nodeAt t parts = Some (File q).
Proof.
  cbn [getFilePathsFromTree].
  induction t as [|k p t IHt|k p ch t IHch IHt] using tree_nested_ind;
    intros Hu Hnamed cur q.
  - cbn [flat_map]. split; [by intros ?%elem_of_nil|].
    intros [parts H]. by rewrite nodeAt_empty in H.
  - apply uniqueNames_cons in Hu as (Hk & _ & Hu).
    assert (p ≠ "") as Hp.
    { apply (Hnamed [k]). by rewrite nodeAt_cons_same. }
    specialize (IHt Hu).
    cbn [flat_map fst snd pathsOfNode]. unfold nodePath at 1.
    destruct p as [|c p]; [done|]. cbn [JS.truthy].
    rewrite elem_of_app, list_elem_of_singleton, IHt.
    2:{ intros parts p' H. apply (Hnamed parts).
        by apply (nodeAt_cons_rest k (File (String c p))) in H as [H _]. }
    split.
    + intros [->|[parts H]].
      * exists [k]. by rewrite nodeAt_cons_same.
      * exists parts.
        by apply (nodeAt_cons_rest k (File (String c p))) in H as [H _].
    + intros [[|k' rest] H]; [done|].
      destruct (decide (k' = k)) as [->|Hne].
      * rewrite nodeAt_cons_same in H. destruct rest; [|done].
        left. congruence.
      * rewrite (nodeAt_cons_other _ _ _ _ _ Hne) in H. right. eauto.
  - apply uniqueNames_cons in Hu as (Hk & Hn & Hu).
    cbn [uniqueNames_node] in Hn. fold (uniqueNames ch) in Hn.
    specialize (IHt Hu). specialize (IHch Hn).
    cbn [flat_map fst snd pathsOfNode].
    rewrite elem_of_app, IHt, IHch.
    2:{ intros [|r rs] p' H; [done|]. apply (Hnamed (k :: r :: rs)).
        by rewrite nodeAt_cons_same. }
    2:{ intros parts p' H. apply (Hnamed parts).
        by apply (nodeAt_cons_rest k (Folder p ch)) in H as [H _]. }
    split.
    + intros [[parts H]|[parts H]].
      * destruct parts as [|r rs]; [done|].
        exists (k :: r :: rs). by rewrite nodeAt_cons_same.
      * exists parts.
        by apply (nodeAt_cons_rest k (Folder p ch)) in H as [H _].
    + intros [[|k' rest] H]; [done|].
      destruct (decide (k' = k)) as [->|Hne].
      * rewrite nodeAt_cons_same in H. destruct rest as [|r rs]; [done|].
        left. eauto.
      * rewrite (nodeAt_cons_other _ _ _ _ _ Hne) in H. right. eauto.
Qed.

Lemma located_named (t : tree) (walked : list string) :
  (∀ parts p, nodeAt t parts = Some (File p) →
              pathParts p = walked ++ parts) →
  ∀ parts p, nodeAt t parts = Some (File p) → p ≠ "".
Proof.
  intros Hloc parts p H ->. pose proof (Hloc _ _ H) as Hp.
  rewrite pathParts_empty_path in Hp.
  destruct parts; [done|]. by destruct walked.
Qed.

(** The paths listed are distinct when every file sits under the segments
    of its path, [walked] being the segments that lead to the tree. *)
Lemma listing_NoDup (t : tree) :
  ∀ walked cur,
    uniqueNames t = true →
    (∀ parts p, nodeAt t parts = Some (File p) →
                pathParts p = walked ++ parts) →
    NoDup (getFilePathsFromTree (Some t) cur).
Proof.
  cbn [getFilePathsFromTree].
  induction t as [|k p t IHt|k p ch t IHch IHt] using tree_nested_ind;
    intros walked cur Hu Hloc.
  - constructor.
  - pose proof Hu as (Hk & _ & Hu')%uniqueNames_cons.
    assert (pathParts p = walked ++ [k]) as Hp.
    { apply Hloc. by rewrite nodeAt_cons_same. }
    assert (∀ parts p', nodeAt t parts = Some (File p') →
                        pathParts p' = walked ++ parts) as Hloc'.
    { intros parts p' H. apply Hloc.
      by apply (nodeAt_cons_rest k (File p)) in H as [H _]. }
    cbn [flat_map fst snd pathsOfNode]. unfold nodePath at 1.
    destruct p as [|c p]; [by destruct walked|]. cbn [JS.truthy].
    apply NoDup_cons. split; [|by apply (IHt walked)].
    intros Hin.
    apply (listing_reachable t Hu' (located_named _ _ Hloc')) in Hin
      as [parts H].
    pose proof (Hloc' _ _ H) as Hq. rewrite Hp in Hq.
    apply app_inv_head in Hq. subst parts.
    by rewrite (nodeAt_absent _ _ _ Hk) in H.
  - pose proof Hu as (Hk & Hn & Hu')%uniqueNames_cons.
    cbn [uniqueNames_node] in Hn. fold (uniqueNames ch) in Hn.
    assert (∀ parts p', nodeAt t parts = Some (File p') →
                        pathParts p' = walked ++ parts) as Hloc'.
    { intros parts p' H. apply Hloc.
      by apply (nodeAt_cons_rest k (Folder p ch)) in H as [H _]. }
    assert (∀ parts p', nodeAt ch parts = Some (File p') →
                        pathParts p' = (walked ++ [k]) ++ parts) as Hlocch.
    { intros [|r rs] p' H; [done|]. rewrite <- app_assoc. apply Hloc.
      change ([k] ++ r :: rs) with (k :: r :: rs).
      by rewrite nodeAt_cons_same. }
    cbn [flat_map fst snd pathsOfNode].
    apply NoDup_app. split; [by apply (IHch (walked ++ [k]))|].
    split; [|by apply (IHt walked)].
    intros q Hq1 Hq2.
    apply (listing_reachable ch Hn (located_named _ _ Hlocch)) in Hq1
      as [parts1 H1].
    apply (listing_reachable t Hu' (located_named _ _ Hloc')) in Hq2
      as [parts2 H2].
    apply Hlocch in H1. pose proof (Hloc' _ _ H2) as H2'.
    rewrite H1, <- app_assoc in H2'. apply app_inv_head in H2'. subst parts2.
    change ([k] ++ parts1) with (k :: parts1) in H2.
    by rewrite (nodeAt_absent _ _ _ Hk) in H2.
Qed.

(** The files of a tree after a run of insertions. *)
Lemma insertions_files (filePaths : list string) (t : tree) q p :
  nodeAt (fold_left (λ t p, (addToTree t p false).1) filePaths t) q
  = Some (File p) →
  (pathParts p = q ∧ p ∈ filePaths) ∨ nodeAt t q = Some (File p).
Proof.
  revert t. induction filePaths as [|a ps IH]; intros t; [by right|].
  cbn [fold_left]. intros H.
  destruct (IH _ H) as [[Hq Hin]|H1].
  - left. split; [done|]. by right.
  - apply addParts_files in H1 as [(-> & -> & _)|H1]; [|by right].
    left. split; [done|]. by left.
Qed.

Lemma insertions_keep_file (filePaths : list string) (t : tree) q p :
  (∀ a, a ∈ filePaths → pathParts a ≠ q) →
  nodeAt t q = Some (File p) →
  nodeAt (fold_left (λ t p, (addToTree t p false).1) filePaths t) q
  = Some (File p).
Proof.
  revert t. induction filePaths as [|a ps IH]; intros t Hne H; [done|].
  cbn [fold_left]. apply IH.
  - intros b Hb. apply Hne. by right.
  - apply addParts_keeps_files; [|done].
    intros ->. by apply (Hne a); [left|].
Qed.

Lemma buildTree_located (filePaths : list string) :
  located (buildTree filePaths)
  ∧ ∀ q p, nodeAt (buildTree filePaths) q = Some (File p) → p ∈ filePaths.
Proof.
  split; intros q p H; apply insertions_files in H as [[? ?]|H]; try done;
    by rewrite nodeAt_empty in H.
Qed.

Lemma buildTree_listing (filePaths : list string) (cur q : string) :
  q ∈ getFilePathsFromTree (Some (buildTree filePaths)) cur
  ↔ nodeAt (buildTree filePaths) (pathParts q) = Some (File q).
Proof.
  destruct (buildTree_located filePaths) as [Hloc _].
  rewrite listing_reachable.
  - split; [|eauto]. intros [parts H]. by rewrite (Hloc _ _ H).
  - apply (buildTree_uniqueNames_from filePaths []). reflexivity.
  - apply (located_named _ []), Hloc.
Qed.

(** X18. What one insertion of a file does to a tree, for a path that has
    at least one segment and no segment that names a member of
    [Object.prototype]. Either the file is then found under the segments of
    its path and nothing is logged, or one message is logged and the tree
    is as it was. Apart from the file inserted, the files of the tree are
    the same before and after: none is added, and only a file under the
    very same segments is replaced. *)
Theorem addToTree_outcome (t : tree) (filePath : string) :
  pathParts filePath ≠ [] → plainPath filePath = true →
  let t' := (addToTree t filePath false).1 in
  let out := (addToTree t filePath false).2 in
  ((out = [] ∧ nodeAt t' (pathParts filePath) = Some (File filePath))
   ∨ (t' = t ∧ ∃ m, out = [m]))
  ∧ (∀ q p, nodeAt t' q = Some (File p) →
            (q = pathParts filePath ∧ p = filePath)
            ∨ nodeAt t q = Some (File p))
  ∧ (∀ q p, q ≠ pathParts filePath → nodeAt t q = Some (File p) →
            nodeAt t' q = Some (File p)).
Proof.
  intros Hne _. cbv zeta. unfold addToTree. split; [|split].
  - by apply addParts_outcome.
  - intros q p H. apply addParts_files in H as [(-> & -> & _)|H]; auto.
  - intros q p Hq H. by apply addParts_keeps_files.
Qed.

(** X19. The listing of a tree built by [buildTreeFromZip] or
    [buildTreeFromFolder]: a path is listed exactly when the tree holds a
    file of that path under the segments of the path; every path listed is
    one of the paths inserted, spelled as it was inserted; and no path is
    listed twice. The path handed down by the caller plays no part. *)
Theorem getFilePathsFromTree_buildTree (filePaths : list string)
    (currentPath : string) :
  let t := buildTree filePaths in
  let listed := getFilePathsFromTree (Some t) currentPath in
  (∀ q, q ∈ listed ↔ nodeAt t (pathParts q) = Some (File q))
  ∧ (∀ q, q ∈ listed → q ∈ filePaths)
  ∧ NoDup listed.
Proof.
  cbv zeta. split; [|split].
  - intros q. apply buildTree_listing.
  - intros q H%buildTree_listing.
    by apply (proj2 (buildTree_located filePaths)) in H.
  - apply (listing_NoDup _ []).
    + apply (buildTree_uniqueNames_from filePaths []). reflexivity.
    + apply buildTree_located.
Qed.

(** X20. A build from paths none of which has a segment that names a
    member of [Object.prototype]: a file with at least one segment that
    went into the tree without a message is listed at the end of the build,
    unless a later file has the same segments (then the later spelling of
    the path is the one recorded). *)
Theorem inserted_file_is_listed (before after : list string)
    (filePath currentPath : string) :
  Forall (λ a, plainPath a = true) (before ++ filePath :: after) →
  pathParts filePath ≠ [] →
  (addToTree (buildTree before) filePath false).2 = [] →
  (∀ a, a ∈ after → pathParts a ≠ pathParts filePath) →
  filePath
  ∈ getFilePathsFromTree (Some (buildTree (before ++ filePath :: after)))
      currentPath.
Proof.
  intros _ Hne Hsilent Hafter. apply buildTree_listing.
  unfold buildTree. rewrite fold_left_app. cbn [fold_left].
  apply insertions_keep_file; [done|].
  destruct (addParts_outcome (fold_left (λ t p, (addToTree t p false).1)
                                before [])
              filePath [] (pathParts filePath) Hne) as [[_ H]|[_ [m H]]];
    [done|].
  cbv zeta in H. unfold buildTree, addToTree in H, Hsilent. congruence.
Qed.

(** A file two folders down, into an empty tree; and a path that runs
    into a file of the sample tree, which stays. *)
Lemma addToTree_outcome_witness :
  nodeAt (addToTree [] "a/b/c.txt" false).1 ["a"; "b"; "c.txt"]
  = Some (File "a/b/c.txt")
  ∧ nodeAt (addToTree Samples.sampleTree "src/a.js/x" false).1
      ["src"; "a.js"]
    = Some (File "src/a.js").
Proof.
  assert (pathParts "a/b/c.txt" ≠ []) as H1 by discriminate.
  assert (pathParts "src/a.js/x" ≠ []) as H2 by discriminate.
  split.
  - destruct (addToTree_outcome [] "a/b/c.txt" H1 eq_refl)
      as [[[_ H]|[_ [m H]]] _].
    + exact H.
    + discriminate H.
  - destruct (addToTree_outcome Samples.sampleTree "src/a.js/x" H2 eq_refl)
      as (_ & _ & H).
    apply H; [discriminate | reflexivity].
Defined.

(** The second of three files, the third being another file of the same
    folder. *)
Lemma inserted_file_is_listed_witness :
  "src/b.js"
  ∈ getFilePathsFromTree
      (Some (buildTree (["src/a.js"] ++ "src/b.js" :: ["src//c.js"]))) "".
Proof.
  apply (inserted_file_is_listed ["src/a.js"] ["src//c.js"] "src/b.js" "").
  - repeat constructor.
  - discriminate.
  - reflexivity.
  - intros a Ha. apply list_elem_of_singleton in Ha. subst a. discriminate.
Defined.

End TreeFacts.

(** ** state.js and stateDB.js: what is saved comes back *)

Section PersistenceFacts.
Import State Persistence.

Lemma digitValue_pretty_N_char (d : N) :
  (d < 10)%N →
  Chars.is_digit (pretty_N_char d) = true
  ∧ digitValue (pretty_N_char d) = d.
Proof.
  intros H.
  assert (d = 0 ∨ d = 1 ∨ d = 2 ∨ d = 3 ∨ d = 4 ∨ d = 5 ∨ d = 6 ∨ d = 7
          ∨ d = 8 ∨ d = 9)%N as Hd by lia.
  repeat destruct Hd as [->|Hd]; try subst d; by vm_compute.
Qed.

Lemma digitsValue_pretty_N_go (x : N) (s : string) :
  digitsValue 0 (pretty_N_go x s) = digitsValue x s.
Proof.
  revert s. induction (N.lt_wf_0 x) as [x _ IH]; intros s.
  destruct (decide (x = 0)%N) as [->|Hx]; [by rewrite pretty_N_go_0|].
  rewrite pretty_N_go_step by lia.
  rewrite IH by (apply N.div_lt; lia).
  cbn [digitsValue].
  destruct (digitValue_pretty_N_char (x `mod` 10)%N) as [-> ->].
  { apply N.mod_lt. lia. }
  f_equal. pose proof (N.div_mod x 10). lia.
Qed.

Lemma pretty_N_go_nonempty (x : N) (s : string) :
  s ≠ "" → pretty_N_go x s ≠ "".
Proof.
  revert s. induction (N.lt_wf_0 x) as [x _ IH]; intros s Hs.
  destruct (decide (x = 0)%N) as [->|Hx]; [by rewrite pretty_N_go_0|].
  rewrite pretty_N_go_step by lia. apply IH; [apply N.div_lt; lia|done].
Qed.

Lemma pretty_N_nonempty (n : N) : pretty n ≠ "".
Proof.
  unfold pretty, pretty_N. destruct (decide (n = 0)%N); [done|].
  destruct (decide (n = 0)%N) as [->|Hx]; [done|].
  rewrite pretty_N_go_step by lia. by apply pretty_N_go_nonempty.
Qed.

Lemma digitsValue_pretty (n : N) : digitsValue 0 (pretty n) = n.
Proof.
  unfold pretty, pretty_N. destruct (decide (n = 0)%N) as [->|]; [done|].
  by rewrite digitsValue_pretty_N_go.
Qed.

(** [parseInt(String(id), 10)] is [id]. *)
Lemma parseInt10_String (n : N) : parseInt10 (pretty n) = Some (Z.of_N n).
Proof.
  pose proof (pretty_N_digits n) as Hd. pose proof (pretty_N_nonempty n) as Hne.
  pose proof (digitsValue_pretty n) as Hv.
  unfold parseInt10. destruct (pretty n) as [|c s]; [done|].
  cbn [Chars.all] in Hd. apply andb_true_iff in Hd as [Hc _].
  assert (JS.is_space c = false) as Hsp.
  { revert Hc. unfold Chars.is_digit, JS.is_space.
    generalize (nat_of_ascii c). intros m [H1 H2]%andb_true_iff.
    apply Nat.leb_le in H1, H2.
    repeat match goal with
           | |- context [Nat.leb ?a ?b] => destruct (Nat.leb_spec a b)
           | |- context [Nat.eqb ?a ?b] => destruct (Nat.eqb_spec a b)
           end; simpl; try done; lia. }
  assert (Ascii.eqb c "-" = false ∧ Ascii.eqb c "+" = false) as [Hm Hp].
  { split; apply Ascii.eqb_neq; intros ->; done. }
  cbn [JS.trimStart]. rewrite Hsp, Hm, Hp. cbn [orb].
  by rewrite Hc, Hv.
Qed.



Lemma newSet_NoDup_from (l acc : list string) :
  NoDup acc → NoDup (fold_left (λ s x, JsSet.add x s) l acc).
Proof.
  revert acc. induction l as [|x l IH]; intros acc Hnd; [done|].
  cbn [fold_left]. by apply IH, add_NoDup.
Qed.



Lemma existsb_find_id (s : string) (ds : list directory) :
  existsb (λ dir, String.eqb (pretty (dir_id dir)) s) ds
  = match List.find (λ dir, String.eqb (pretty (dir_id dir)) s) ds with
    | Some _ => true
    | None => false
    end.
Proof.
  induction ds as [|d ds IH]; [done|]. cbn [existsb List.find].
  by destruct (String.eqb (pretty (dir_id d)) s).
Qed.

(** What [loadStateFromLocalStorage] leaves in the state when the store
    opens. *)
Lemma load_result (ls : gmap string string) (db : appState) (st0 : state) :
  stateOpenError db = None →
  stateReadErrors db !! DIRECTORIES = None →
  stateReadErrors db !! FAILED_FILES = None →
  let loaded := loadStateFromLocalStorage ls db st0 in
  let ds := match storedDirectories db with Some ds => ds | None => [] end in
  loaded.1 = Normal tt
  ∧ directories loaded.2 = ds
  ∧ selectedDirectoryId loaded.2
    = match ls !! SELECTED_DIRECTORY_ID with
      | Some s =>
          match List.find (λ dir, String.eqb (pretty (dir_id dir)) s) ds with
          | Some dir => Some (dir_id dir)
          | None => Main.firstId ds
          end
      | None => Main.firstId ds
      end
  ∧ baseEndpoint loaded.2
    = match ls !! ENDPOINT_URL with
      | Some e =>
          if bool_decide (e ∈ [""; "null"; "undefined"]) then "/" else e
      | None => "/"
      end
  ∧ failedFiles loaded.2
    = newSet (match storedFailedFiles db with Some l => l | None => [] end)
  ∧ patchContent loaded.2 = "".
Proof.
  intros Hopen Hrd Hrf. cbv zeta.
  unfold loadStateFromLocalStorage, getDirectories, getFailedFiles.
  rewrite Hopen, Hrd, Hrf.
  set (ds := match storedDirectories db with Some ds => ds | None => [] end).
  set (st1 := set_baseEndpoint _ st0).
  set (st2 := if String.eqb (baseEndpoint st1) "null" || _ then _ else _).
  assert (baseEndpoint st2
          = match ls !! ENDPOINT_URL with
            | Some e =>
                if bool_decide (e ∈ [""; "null"; "undefined"]) then "/" else e
            | None => "/"
            end) as Hend.
  { subst st2 st1. cbn [baseEndpoint set_baseEndpoint].
    destruct (ls !! ENDPOINT_URL) as [[|c e]|]; [done| |done].
    cbn [JS.truthy].
    destruct (String.eqb (String c e) "null") eqn:E1.
    { apply String.eqb_eq in E1. by rewrite E1. }
    destruct (String.eqb (String c e) "undefined") eqn:E2.
    { apply String.eqb_eq in E2. by rewrite E2. }
    cbn [orb baseEndpoint set_baseEndpoint].
    rewrite bool_decide_eq_false_2; [done|].
    apply String.eqb_neq in E1, E2.
    rewrite !elem_of_cons, elem_of_nil. by intros [?|[?|[?|[]]]]. }
  clearbody st2. clear st1. cbn [directories set_directories].
  rewrite <- Hend. clear Hend.
  destruct (ls !! SELECTED_DIRECTORY_ID) as [s|].
  - rewrite existsb_find_id.
    destruct (List.find _ ds) as [dir|] eqn:Hfind.
    + apply find_some in Hfind as [_ Hs%String.eqb_eq]. subst s.
      pose proof (pretty_N_nonempty (dir_id dir)) as Hne.
      rewrite parseInt10_String, N2Z.id.
      by destruct (pretty (dir_id dir)).
    + rewrite andb_false_r. by destruct ds.
  - by destruct ds.
Qed.


(** X22. What loading establishes, whatever texts [localStorage] holds and
    whatever sources (with integer ids, as the client creates them) and
    failed paths the store holds. When the store opens
    and the two reads do not fail, loading succeeds; the selection names
    one of the sources loaded, or nothing when there is none; the endpoint
    is neither empty nor 'null' nor 'undefined'; the failure set has no
    duplicates; the patch text is empty. *)
Theorem load_establishes_invariants (ls : gmap string string)
    (db : appState) (st0 : state) :
  stateOpenError db = None →
  stateReadErrors db !! DIRECTORIES = None →
  stateReadErrors db !! FAILED_FILES = None →
  let loaded := loadStateFromLocalStorage ls db st0 in
  loaded.1 = Normal tt
  ∧ Main.selectionValid loaded.2 = true
  ∧ (baseEndpoint loaded.2 ∉ [""; "null"; "undefined"])
  ∧ NoDup (failedFiles loaded.2)
  ∧ patchContent loaded.2 = "".
Proof.
  intros Hopen Hrd Hrf. cbv zeta.
  destruct (load_result ls db st0 Hopen Hrd Hrf)
    as (L1 & L2 & L3 & L4 & L5 & L6).
  cbv zeta in *.
  set (loaded := loadStateFromLocalStorage ls db st0) in *.
  split; [done|]. split; [|split; [|split; [|done]]].
  - unfold Main.selectionValid. rewrite L2, L3.
    destruct (storedDirectories db) as [[|d ds]|].
    + apply bool_decide_eq_true. by destruct (ls !! SELECTED_DIRECTORY_ID).
    + destruct (ls !! SELECTED_DIRECTORY_ID) as [s|];
        [|apply isSelected_firstId].
      destruct (List.find _ (d :: ds)) as [dir|] eqn:Hfind;
        [|apply isSelected_firstId].
      apply find_some in Hfind as [Hin%list_elem_of_In _].
      apply existsb_isSelected, list_elem_of_fmap. eauto.
    + apply bool_decide_eq_true. by destruct (ls !! SELECTED_DIRECTORY_ID).
  - rewrite L4. destruct (ls !! ENDPOINT_URL) as [e|].
    + case_bool_decide as He; [|done].
      rewrite !elem_of_cons, elem_of_nil. by intros [?|[?|[?|[]]]].
    + rewrite !elem_of_cons, elem_of_nil. by intros [?|[?|[?|[]]]].
  - rewrite L5. apply newSet_NoDup_from. constructor.
Qed.



(** A selection that names no stored source, and an endpoint text left by
    an older version. *)
Lemma load_establishes_invariants_witness :
  let loaded :=
    loadStateFromLocalStorage StorageSamples.staleStorage
      StorageSamples.usedStore (Samples.registry None) in
  Main.selectionValid loaded.2 = true
  ∧ NoDup (failedFiles loaded.2)
  ∧ "undefined" ≠ baseEndpoint loaded.2.
Proof.
  destruct (load_establishes_invariants StorageSamples.staleStorage
              StorageSamples.usedStore (Samples.registry None)
              eq_refl eq_refl eq_refl)
    as (_ & Hv & He & Hnd & _).
  cbv zeta. split; [exact Hv|]. split; [exact Hnd|].
  intros E. apply He. rewrite <- E. right. right. left.
Defined.


End PersistenceFacts.

(** ** main.js: the list of sources and the Apply button *)

Section RegistryFacts.
Import State Main.

(** X23. Rendering the list of sources settles the selection. It returns
    after at most one call of itself, changes nothing but the selection,
    leaves a selection that names a source (or none when there is no
    source), changes nothing at all when the selection was of that kind
    already, and rendering again changes nothing and does not call
    itself. *)
Theorem renderDirectoriesList_settles (fuel : nat) (st : state) :
  ∃ st',
    renderDirectoriesList (S (S fuel)) st = Some st'
    ∧ directories st' = directories st
    ∧ baseEndpoint st' = baseEndpoint st
    ∧ failedFiles st' = failedFiles st
    ∧ patchContent st' = patchContent st
    ∧ selectionValid st' = true
    ∧ (selectionValid st = true → st' = st)
    ∧ renderDirectoriesList 1 st' = Some st'.
Proof.
  destruct st as [ds sel e f p].
  unfold selectionValid. cbn [renderDirectoriesList directories
                                selectedDirectoryId set_selectedDirectoryId].
  destruct ds as [|d ds].
  - eexists. split; [reflexivity|]. cbn.
    repeat (split; [done|]). split; [|done].
    by intros ->%bool_decide_eq_true.
  - destruct (existsb (isSelected sel) (d :: ds)) eqn:E; cbn [negb].
    + eexists. split; [reflexivity|].
      cbn [directories selectedDirectoryId baseEndpoint failedFiles
             patchContent].
      by rewrite E.
    + cbn [directories selectedDirectoryId set_selectedDirectoryId].
      rewrite isSelected_firstId. cbn [negb].
      eexists. split; [reflexivity|].
      cbn [directories selectedDirectoryId baseEndpoint failedFiles
             patchContent renderDirectoriesList set_selectedDirectoryId].
      rewrite isSelected_firstId. by repeat (split; [done|]).
Qed.

End RegistryFacts.

Section ApplyButtonFacts.
Import State Connection Patcher ApplyButton.

Variable fetch : request → completion response.

(** X24. An enabled Apply button. When [updateApplyButtonState] of main.js
    leaves the button enabled for the text of the patch input, a source of
    kind 'path' without an error is selected, the text is not blank and the
    tooltip offers to apply the patch to that source. A click then passes
    the checks of [applyPatch] and sends a request, provided the source has
    a root and its id is not 0, two things the button does not look at. *)
Theorem enabled_button_click_sends (input : string) (w : world) :
  disabled (ApplyButton.updateApplyButtonState input (st w)) = false →
  ∃ dir,
    selectedDir (st w) = Some dir
    ∧ dir_type dir = "path"
    ∧ JS.truthy_opt (dir_error dir) = false
    ∧ JS.trim input ≠ ""
    ∧ title (ApplyButton.updateApplyButtonState input (st w))
      = "Apply the patch to the selected source: " +:+ nameOrPath dir
    ∧ (selectedDirectoryId (st w) ≠ Some 0%N →
       JS.truthy_opt (dir_path dir) = true →
       ∃ req reqs,
         calls (applyPatch fetch input w) = calls w ++ req :: reqs).
Proof.
  unfold ApplyButton.updateApplyButtonState. cbn [disabled title].
  destruct (selectedDir (st w)) as [dir|] eqn:Hdir; [|done].
  intros H. apply negb_false_iff in H.
  apply andb_true_iff in H as [[Ht%String.eqb_eq Hc]%andb_true_iff He].
  apply negb_true_iff in He.
  exists dir. rewrite Ht, Hc, He. cbn [String.eqb Ascii.eqb Bool.eqb negb].
  assert (JS.trim input ≠ "") as Hne by (by destruct (JS.trim input)).
  do 4 (split; [done|]). split.
  - destruct (dir_error dir) as [[|c e]|]; done.
  - intros Hid Hroot.
    apply (applyPatch_contacts_service fetch input w dir); try done.
    + unfold selectedSource. unfold selectedDir in Hdir.
      destruct (selectedDirectoryId (st w)) as [[|sel]|]; done.
    + by rewrite Ht.
Qed.

End ApplyButtonFacts.

Section ApplyButtonSamples.
Import State Connection Patcher ApplyButton Samples MoreSamples.

(** The server directory selected and a patch in the input. *)
Lemma enabled_button_click_sends_witness :
  ∃ req reqs,
    calls (applyPatch applyService creationPatch (readyWorld (Some 1%N)))
    = calls (readyWorld (Some 1%N)) ++ req :: reqs.
Proof.
  destruct (enabled_button_click_sends applyService creationPatch
              (readyWorld (Some 1%N)) eq_refl)
    as (dir & Hdir & _ & _ & _ & _ & Hsend).
  injection Hdir as <-. apply Hsend; [discriminate | reflexivity].
Defined.

End ApplyButtonSamples.

(** ** db.js and fileContent.js: a stored file is the file read *)

Section StoreWrites.
Import State Connection Db DbWrite FileContent.

Variable fetch : request → completion response.

Lemma findDirectory_id (dirId : N) (st : state) (dir : directory) :
  findDirectory dirId st = Some dir → dir_id dir = dirId.
Proof.
  unfold findDirectory. intros H. apply find_some in H as [_ H].
  by apply N.eqb_eq in H.
Qed.

(** X25. A file that was stored is the file that is read. After a
    [putUploadedFile] that succeeded, [getUploadedFile] for the same source
    and path gives the content stored (unless that read fails); what is read
    for any other source or path is as before; and the resolver, asked for
    that path of the uploaded source, delivers the content stored, without
    an error, without recording a failure and without a request. *)
Theorem stored_file_is_read_back (db db' : uploadedFilesDB)
    (txError : option string) (dirId : N) (filePath content : string) :
  putUploadedFile db txError dirId filePath content = (Normal tt, db') →
  readErrors db !! key dirId filePath = None →
  getUploadedFile db' dirId filePath = Normal (Some content)
  ∧ (∀ d p, (d, p) ≠ (dirId, filePath) →
            getUploadedFile db' d p = getUploadedFile db d p)
  ∧ (∀ st dir filePaths,
       findDirectory dirId st = Some dir → dir_type dir = "uploaded" →
       filePath ∈ filePaths →
       ∃ results st',
         fetchPatchRequiredFiles fetch db' dirId filePaths st
         = (Normal results, st', [])
         ∧ results !! filePath
           = Some {| content := JS.str content; error := JS.null |}
         ∧ filePath ∉ failedFiles st').
Proof.
  unfold putUploadedFile. intros Hput Hread.
  destruct (openError db) eqn:Hopen; [done|].
  destruct txError; [done|]. injection Hput as <-.
  assert (getUploadedFile
            {| openError := None; readErrors := readErrors db;
               records := <[key dirId filePath:=content]> (records db) |}
            dirId filePath = Normal (Some content)) as Hget.
  { unfold getUploadedFile. cbn [openError readErrors records].
    by rewrite Hread, lookup_insert_eq. }
  split; [done|]. split.
  - intros d p Hne. unfold getUploadedFile.
    cbn [openError readErrors records]. rewrite Hopen.
    rewrite lookup_insert_ne; [done|].
    intros [-> ->]%key_inj. done.
  - intros st dir filePaths Hdir Htype Hin.
    pose proof (findDirectory_id _ _ _ Hdir) as Hid.
    unfold fetchPatchRequiredFiles.
    change (findDirectory dirId (set_failedFiles JsSet.empty st))
      with (findDirectory dirId st).
    rewrite Hdir, Htype, Hid. cbn [String.eqb Ascii.eqb Bool.eqb].
    eexists _, _. split; [reflexivity|].
    rewrite (fold_left_ext_acc _ _ _ _ (fetchUploaded_perPath _ dirId)).
    cbn [failedFiles set_failedFiles fst snd]. split.
    + rewrite fold_perPath_lookup, decide_True by done.
      unfold uploadedEntry. by rewrite Hget.
    + rewrite <- has_true, fold_perPath_failed.
      unfold uploadedFails. rewrite Hget. cbn. by rewrite andb_false_r.
Qed.

End StoreWrites.

Section StoreWritesSamples.
Import State Connection Db DbWrite FileContent Samples.

(** A file of the uploaded folder, stored and then asked for by a preview
    while the network is down. *)
Lemma stored_file_is_read_back_witness :
  ∃ db' results st',
    putUploadedFile store None 3 "new.txt" "fresh" = (Normal tt, db')
    ∧ fetchPatchRequiredFiles offline db' 3 ["b.txt"; "new.txt"]
        (registry (Some 3%N))
      = (Normal results, st', [])
    ∧ results !! "new.txt"
      = Some {| content := JS.str "fresh"; error := JS.null |}.
Proof.
  destruct (stored_file_is_read_back offline store _ None 3 "new.txt" "fresh"
              eq_refl eq_refl) as (_ & _ & H).
  destruct (H (registry (Some 3%N)) uploadedDir ["b.txt"; "new.txt"]
              eq_refl eq_refl) as (results & st' & Hres & Hentry & _).
  { right. left. }
  eexists _, results, st'. split; [reflexivity|]. split; [exact Hres|].
  exact Hentry.
Defined.

End StoreWritesSamples.
